(** * Colour helpers: conversions, parsing, palettes and naming

    A shallow embedding of [backend/src/utils/color-helpers.ts], of the
    palette tool of [backend/src/config/constants.ts] that calls it, and of
    [getContrastColor] of the widget [frontend/src/widgets/color.tsx].

    - A JavaScript [number] is an IEEE 754 binary64 value: the kernel's
      primitive [float].  Every arithmetic step of the source ([/], [*], [+],
      [-], comparisons) is the corresponding primitive operation, so the
      rounding of each intermediate result is the one the program performs.
    - A JavaScript string is a [string]; the embedding covers text whose code
      units are ASCII (below 128), where [trim], [toUpperCase], [\s] and [\d]
      have the simple meaning written out below.
    - [throw new Error(...)] is the [Throw] outcome; a normal return is
      [Return]. *)

From Stdlib Require Import ZArith QArith Qround List Bool Lia Ascii String.
From Stdlib Require Import Floats.PrimFloat Floats.SpecFloat Floats.FloatOps
  Floats.FloatAxioms.
From Stdlib Require Import Numbers.Cyclic.Int63.PrimInt63.
From Stdlib Require DecimalString.
Import ListNotations.
Close Scope Q_scope.

(* ================================================================== *)
(** ** Numbers *)

Definition number : Set := float.

(** The Number value of a mathematical integer (round to nearest, ties to
    even; exact below 2^53). *)
Definition num_of_Z (z : Z) : number :=
  SF2Prim (binary_normalize prec emax z 0 false).

(** The integer part of a finite number, as a mathematical integer
    (truncation toward zero; exact when the number is integral). *)
Definition trunc_Z (x : number) : option Z :=
  match Prim2SF x with
  | S754_zero _ => Some 0%Z
  | S754_finite sg m e =>
      let a := match e with
               | Zneg k => Z.shiftr (Zpos m) (Zpos k)
               | _ => Z.shiftl (Zpos m) e
               end in
      Some (if sg then Z.opp a else a)
  | _ => None
  end.

Section NumberOps.
Local Open Scope float_scope.

(** [Math.round]: the integral number closest to [x], ties toward +infinity;
    NaN, the infinities and the zeros are returned unchanged, and a result
    that is zero keeps the sign of [x].  A number of magnitude 2^52 or more
    is integral already.  Below that, [abs x = M * 2^(-k)] with [M] the
    53-bit mantissa, so the quotient and remainder of [M] by [2^k] give the
    floor and the fractional part exactly. *)
Definition Math_round (x : number) : number :=
  if PrimFloat.is_nan x then x
  else if PrimFloat.is_zero x then x
  else if 4503599627370496 <=? abs x then x
  else
    let (m, e) := frshiftexp (abs x) in
    let M := normfr_mantissa m in
    let k := PrimInt63.sub 2154%uint63 e in
    let n :=
      if PrimInt63.ltb 53%uint63 k then 0%uint63
      else
        let q := PrimInt63.lsr M k in
        let rem := PrimInt63.land M (PrimInt63.sub (PrimInt63.lsl 1%uint63 k) 1%uint63) in
        let half := PrimInt63.lsl 1%uint63 (PrimInt63.sub k 1%uint63) in
        if x <? 0
        then (if PrimInt63.ltb half rem then PrimInt63.add q 1%uint63 else q)
        else (if PrimInt63.leb half rem then PrimInt63.add q 1%uint63 else q) in
    if x <? 0 then - (of_uint63 n) else of_uint63 n.

(** [Number.isInteger], with the same decomposition. *)
Definition Number_isInteger (x : number) : bool :=
  if PrimFloat.is_nan x then false
  else if PrimFloat.is_infinity x then false
  else if PrimFloat.is_zero x then true
  else if 4503599627370496 <=? abs x then true
  else
    let (m, e) := frshiftexp (abs x) in
    let M := normfr_mantissa m in
    let k := PrimInt63.sub 2154%uint63 e in
    if PrimInt63.ltb 53%uint63 k then false
    else PrimInt63.eqb
           (PrimInt63.land M (PrimInt63.sub (PrimInt63.lsl 1%uint63 k) 1%uint63))
           0%uint63.

(** [Math.floor], with the same decomposition: the quotient, and one more
    in magnitude for a negative number with a fractional part. *)
Definition Math_floor (x : number) : number :=
  if PrimFloat.is_nan x then x
  else if PrimFloat.is_zero x then x
  else if 4503599627370496 <=? abs x then x
  else
    let (m, e) := frshiftexp (abs x) in
    let M := normfr_mantissa m in
    let k := PrimInt63.sub 2154%uint63 e in
    let n :=
      if PrimInt63.ltb 53%uint63 k then (if x <? 0 then 1%uint63 else 0%uint63)
      else
        let q := PrimInt63.lsr M k in
        let rem := PrimInt63.land M (PrimInt63.sub (PrimInt63.lsl 1%uint63 k) 1%uint63) in
        if x <? 0
        then (if PrimInt63.eqb rem 0%uint63 then q else PrimInt63.add q 1%uint63)
        else q in
    if x <? 0 then - (of_uint63 n) else of_uint63 n.

(** [Math.max] and [Math.min] over their argument list: NaN if any argument
    is NaN, and +0 counts as larger than -0. *)
Definition max2 (highest n : number) : number :=
  if PrimFloat.is_zero n && PrimFloat.is_zero highest
  then (if get_sign highest then n else highest)
  else if highest <? n then n else highest.

Definition min2 (lowest n : number) : number :=
  if PrimFloat.is_zero n && PrimFloat.is_zero lowest
  then (if get_sign lowest then lowest else n)
  else if n <? lowest then n else lowest.

Definition Math_max (args : list number) : number :=
  if existsb PrimFloat.is_nan args then nan
  else fold_left max2 args neg_infinity.

Definition Math_min (args : list number) : number :=
  if existsb PrimFloat.is_nan args then nan
  else fold_left min2 args infinity.

(** The [%] operator on numbers: the exact remainder of the truncating
    division, with the sign of the dividend. *)
Definition rem (x y : number) : number :=
  match Prim2SF x, Prim2SF y with
  | S754_nan, _ | _, S754_nan => nan
  | S754_infinity _, _ => nan
  | _, S754_zero _ => nan
  | S754_zero _, _ => x
  | S754_finite _ _ _, S754_infinity _ => x
  | S754_finite sx mx ex, S754_finite _ my ey =>
      let e := Z.min ex ey in
      let X := Z.shiftl (Zpos mx) (ex - e) in
      let Y := Z.shiftl (Zpos my) (ey - e) in
      let f := SF2Prim (binary_normalize prec emax (Z.modulo X Y) e false) in
      if sx then - f else f
  end.

End NumberOps.

Infix "%%" := rem (at level 40, left associativity) : float_scope.

(* ================================================================== *)
(** ** Strings *)

Section StringOps.
Local Open Scope string_scope.
Local Open Scope char_scope.

Definition code (c : ascii) : nat := nat_of_ascii c.

(** White space of [trim], [\s] and [parseInt]: TAB, LF, VT, FF, CR, SP. *)
Definition is_whitespace (c : ascii) : bool :=
  (Nat.leb 9 (code c) && Nat.leb (code c) 13) || Nat.eqb (code c) 32.

Definition is_digit (c : ascii) : bool :=
  Nat.leb 48 (code c) && Nat.leb (code c) 57.

Definition is_lower (c : ascii) : bool :=
  Nat.leb 97 (code c) && Nat.leb (code c) 122.

Definition is_upper (c : ascii) : bool :=
  Nat.leb 65 (code c) && Nat.leb (code c) 90.

Definition upper (c : ascii) : ascii :=
  if is_lower c then ascii_of_nat (code c - 32) else c.

Fixpoint toUpperCase (str : string) : string :=
  match str with
  | EmptyString => EmptyString
  | String c rest => String (upper c) (toUpperCase rest)
  end.

Fixpoint trimStart (str : string) : string :=
  match str with
  | EmptyString => EmptyString
  | String c rest => if is_whitespace c then trimStart rest else str
  end.

Fixpoint trimEnd (str : string) : string :=
  match str with
  | EmptyString => EmptyString
  | String c rest =>
      match trimEnd rest with
      | EmptyString => if is_whitespace c then EmptyString else String c EmptyString
      | kept => String c kept
      end
  end.

Definition trim (str : string) : string := trimEnd (trimStart str).

Definition startsWith (str prefix : string) : bool := String.prefix prefix str.

(** [str.substring(start, stop)] for [start <= stop]. *)
Definition substring (str : string) (start stop : nat) : string :=
  String.substring start (stop - start) str.

(** [str.split('')]: the one-character strings of [str]. *)
Fixpoint split_chars (str : string) : list string :=
  match str with
  | EmptyString => []
  | String c rest => String c EmptyString :: split_chars rest
  end.

(** [parts.join('')]. *)
Definition join (parts : list string) : string := String.concat "" parts.

(** [str.replace(/^#/, '')]. *)
Definition strip_hash (str : string) : string :=
  match str with
  | String "#" rest => rest
  | _ => str
  end.

(** *** Digits *)

(** The value of a character as a digit (of any radix up to 36). *)
Definition digit_value (c : ascii) : option Z :=
  if is_digit c then Some (Z.of_nat (code c - 48))
  else if is_lower c then Some (Z.of_nat (code c - 87))
  else if is_upper c then Some (Z.of_nat (code c - 55))
  else None.

Definition is_radix_digit (radix : Z) (c : ascii) : bool :=
  match digit_value c with
  | Some d => Z.ltb d radix
  | None => false
  end.

(** The longest prefix of radix digits. *)
Fixpoint take_digits (radix : Z) (str : string) : string :=
  match str with
  | EmptyString => EmptyString
  | String c rest =>
      if is_radix_digit radix c then String c (take_digits radix rest)
      else EmptyString
  end.

(** The integer a string of radix digits denotes. *)
Fixpoint digits_value_from (radix : Z) (acc : Z) (str : string) : Z :=
  match str with
  | EmptyString => acc
  | String c rest =>
      match digit_value c with
      | Some d => digits_value_from radix (acc * radix + d)%Z rest
      | None => acc
      end
  end.

Definition digits_value (radix : Z) (str : string) : Z :=
  digits_value_from radix 0 str.

(** [parseInt(input, radix)]; [radix = 0] stands for an absent radix.  White
    space is skipped, a sign is read, a [0x] prefix is dropped when the radix
    is absent or 16, and the longest run of digits is converted; no digit at
    all gives NaN. *)
Definition parseInt (input : string) (radix : Z) : number :=
  let str := trimStart input in
  let '(negative, str) :=
    match str with
    | String "-" rest => (true, rest)
    | String "+" rest => (false, rest)
    | _ => (false, str)
    end in
  if negb (Z.eqb radix 0) && (Z.ltb radix 2 || Z.ltb 36 radix) then nan
  else
    let stripPrefix := Z.eqb radix 0 || Z.eqb radix 16 in
    let R := if Z.eqb radix 0 then 10%Z else radix in
    let '(R, str) :=
      match str with
      | String "0" (String x rest) =>
          if stripPrefix && (Ascii.eqb x "x" || Ascii.eqb x "X")
          then (16%Z, rest) else (R, str)
      | _ => (R, str)
      end in
    match take_digits R str with
    | EmptyString => nan
    | digits =>
        let mathInt := digits_value R digits in
        if Z.eqb mathInt 0 then (if negative then neg_zero else zero)
        else num_of_Z (if negative then Z.opp mathInt else mathInt)
    end.

(** *** Printing in a radix *)

Definition digit_char (d : Z) : ascii :=
  if Z.ltb d 10 then ascii_of_nat (48 + Z.to_nat d)
  else ascii_of_nat (87 + Z.to_nat d).

Fixpoint radix_digits (fuel : nat) (radix n : Z) (acc : string) : string :=
  match fuel with
  | O => acc
  | S fuel' =>
      let acc' := String (digit_char (Z.modulo n radix)) acc in
      if Z.eqb (Z.div n radix) 0 then acc'
      else radix_digits fuel' radix (Z.div n radix) acc'
  end.

(** The digits of a natural number [n] in [radix]; [n] has at most
    [log2 n + 1] of them. *)
Definition Z_toString (n radix : Z) : string :=
  radix_digits (S (Z.to_nat (Z.log2 n))) radix n EmptyString.

(** [x.toString(radix)] for an integral [x], the infinities and NaN, which is
    what [Math.round] returns; of a number with a fractional part only the
    integer part is printed. *)
Definition Number_toString (x : number) (radix : Z) : string :=
  match Prim2SF x with
  | S754_nan => "NaN"
  | S754_infinity false => "Infinity"
  | S754_infinity true => "-Infinity"
  | _ =>
      match trunc_Z x with
      | Some n =>
          if Z.ltb n 0 then String "-" (Z_toString (Z.opp n) radix)
          else Z_toString n radix
      | None => "NaN"
      end
  end.

End StringOps.

(* ================================================================== *)
(** ** Regular expressions

    The patterns of [parseColor] are sequences of three kinds of item: a
    literal character, a greedy [X*] over a character class, and a capturing
    group [(X+)] over a character class.  Matching is the backtracking search
    of the language: the items are tried in order, a quantifier first takes
    as many characters as it can and gives them back one at a time when the
    rest of the pattern fails. *)

Inductive char_class : Set :=
| Digit        (* \d *)
| Space        (* \s *)
| HexDigit.    (* [0-9A-F] under the [i] flag *)

Definition in_class (k : char_class) (c : ascii) : bool :=
  match k with
  | Digit => is_digit c
  | Space => is_whitespace c
  | HexDigit => is_radix_digit 16 c
  end.

Inductive item : Set :=
| Lit (c : ascii)              (* the character, case ignored *)
| Star (k : char_class)        (* k*   *)
| CapturePlus (k : char_class) (* (k+) *).

Definition regex : Set := list item.

Definition same_letter (a c : ascii) : bool := Ascii.eqb (upper a) (upper c).

(** The greedy loop of [k*]: [cont] matches the rest of the pattern. *)
Fixpoint star_loop (k : char_class) (cont : string -> option (list string))
    (str : string) : option (list string) :=
  match str with
  | String c rest =>
      if in_class k c then
        match star_loop k cont rest with
        | Some caps => Some caps
        | None => cont str
        end
      else cont str
  | EmptyString => cont str
  end.

(** The greedy loop of [(k+)], with the text [taken] by the group so far;
    the group's capture is put before those of the rest of the pattern. *)
Fixpoint plus_loop (k : char_class) (cont : string -> option (list string))
    (taken str : string) : option (list string) :=
  match str with
  | String c rest =>
      if in_class k c then
        let taken' := (taken ++ String c EmptyString)%string in
        match plus_loop k cont taken' rest with
        | Some caps => Some caps
        | None => option_map (cons taken') (cont rest)
        end
      else None
  | EmptyString => None
  end.

(** [match_here p str]: the captures of a match of [p] that starts at the
    beginning of [str]. *)
Fixpoint match_here (p : regex) (str : string) : option (list string) :=
  match p with
  | [] => Some []
  | Lit a :: p' =>
      match str with
      | String c rest => if same_letter a c then match_here p' rest else None
      | EmptyString => None
      end
  | Star k :: p' => star_loop k (match_here p') str
  | CapturePlus k :: p' => plus_loop k (match_here p') EmptyString str
  end.

(** [str.match(p)] for a pattern without the [g] flag: the leftmost match. *)
Fixpoint regex_match (p : regex) (str : string) : option (list string) :=
  match match_here p str with
  | Some caps => Some caps
  | None =>
      match str with
      | EmptyString => None
      | String _ rest => regex_match p rest
      end
  end.

(** [m[i]] of a match array, for a group [i >= 1]; an absent group reads as
    the empty text, which [parseInt] turns into NaN just as it does
    [undefined]. *)
Definition group (m : list string) (i : nat) : string :=
  nth (i - 1) m EmptyString.

Definition lits (str : string) : regex :=
  map Lit (list_ascii_of_string str).

(** [/rgb\((\d+),\s*(\d+),\s*(\d+)\)/i] *)
Definition rgb_pattern : regex :=
  lits "rgb(" ++ [CapturePlus Digit] ++ lits "," ++ [Star Space]
    ++ [CapturePlus Digit] ++ lits "," ++ [Star Space]
    ++ [CapturePlus Digit] ++ lits ")".

(** [/hsl\((\d+),\s*(\d+)%,\s*(\d+)%\)/i] *)
Definition hsl_pattern : regex :=
  lits "hsl(" ++ [CapturePlus Digit] ++ lits "," ++ [Star Space]
    ++ [CapturePlus Digit] ++ lits "%," ++ [Star Space]
    ++ [CapturePlus Digit] ++ lits "%)".

(** [/^[0-9A-F]{6}$/i.test(str)] *)
Definition is_bare_hex6 (str : string) : bool :=
  Nat.eqb (String.length str) 6
  && forallb (in_class HexDigit) (list_ascii_of_string str).

(* ================================================================== *)
(** ** The colour model *)

Record RGB : Set := mkRGB { r : number; g : number; b : number }.

Record HSL : Set := mkHSL { h : number; s : number; l : number }.

Record ColorInfo : Set := mkColorInfo {
  hex : string;
  rgb : RGB;
  hsl : HSL;
  name : option string
}.

(** The object literal [{ hex, rgb, hsl }]. *)
Definition color_of (hex : string) (rgb : RGB) (hsl : HSL) : ColorInfo :=
  mkColorInfo hex rgb hsl None.

(** The spreads [{ ...hsl, h: v }] and [{ ...hsl, l: v }]. *)
Definition with_h (hsl : HSL) (v : number) : HSL := mkHSL v hsl.(s) hsl.(l).
Definition with_l (hsl : HSL) (v : number) : HSL := mkHSL hsl.(h) hsl.(s) v.

Inductive outcome (A : Type) : Type :=
| Return (a : A)
| Throw (message : string).
Arguments Return {A} a.
Arguments Throw {A} message.

Section Conversions.
Local Open Scope float_scope.

Definition hexToRgb (hex : string) : RGB :=
  let hex := strip_hash hex in
  let hex :=
    if Nat.eqb (String.length hex) 3
    then join (map (fun char => (char ++ char)%string) (split_chars hex))
    else hex in
  let r := parseInt (substring hex 0 2) 16 in
  let g := parseInt (substring hex 2 4) 16 in
  let b := parseInt (substring hex 4 6) 16 in
  mkRGB r g b.

Definition toHex (n : number) : string :=
  let hex := Number_toString (Math_round n) 16 in
  if Nat.eqb (String.length hex) 1 then String "0" hex else hex.

Definition rgbToHex (rgb : RGB) : string :=
  toUpperCase
    (String "#" (toHex rgb.(r) ++ toHex rgb.(g) ++ toHex rgb.(b))%string).

Definition rgbToHsl (rgb : RGB) : HSL :=
  let r := rgb.(r) / 255 in
  let g := rgb.(g) / 255 in
  let b := rgb.(b) / 255 in
  let max := Math_max [r; g; b] in
  let min := Math_min [r; g; b] in
  let diff := max - min in
  let l := (max + min) / 2 in
  let '(h, s) :=
    if negb (diff =? 0) then
      let s := if 0.5 <? l then diff / (2 - max - min) else diff / (max + min) in
      let h :=
        if max =? r then ((g - b) / diff + (if g <? b then 6 else 0)) / 6
        else if max =? g then ((b - r) / diff + 2) / 6
        else if max =? b then ((r - g) / diff + 4) / 6
        else 0 in
      (h, s)
    else (0, 0) in
  mkHSL (Math_round (h * 360)) (Math_round (s * 100)) (Math_round (l * 100)).

Definition hue2rgb (p q t : number) : number :=
  let t := if t <? 0 then t + 1 else t in
  let t := if 1 <? t then t - 1 else t in
  if t <? 1 / 6 then p + (q - p) * 6 * t
  else if t <? 1 / 2 then q
  else if t <? 2 / 3 then p + (q - p) * (2 / 3 - t) * 6
  else p.

Definition hslToRgb (hsl : HSL) : RGB :=
  let h := hsl.(h) / 360 in
  let s := hsl.(s) / 100 in
  let l := hsl.(l) / 100 in
  let '(r, g, b) :=
    if s =? 0 then (l, l, l)
    else
      let q := if l <? 0.5 then l * (1 + s) else l + s - l * s in
      let p := 2 * l - q in
      (hue2rgb p q (h + 1 / 3), hue2rgb p q h, hue2rgb p q (h - 1 / 3)) in
  mkRGB (Math_round (r * 255)) (Math_round (g * 255)) (Math_round (b * 255)).

End Conversions.

Section Parsing.
Local Open Scope string_scope.

Definition invalid_format : string :=
  "Invalid color format. Use HEX (#RRGGBB), RGB (rgb(r,g,b)), or HSL (hsl(h,s%,l%))".

(** The spec's [InvalidFormat] error. *)
Definition InvalidFormat : outcome ColorInfo := Throw invalid_format.

(** [parseColor] calls itself once, on ['#' + color]; [fuel] bounds the depth
    of the calls and [None] means that it was too small.  Two levels are
    always enough ([parseColor_fuel_enough] below). *)
Fixpoint parseColor_fuel (fuel : nat) (color : string)
  : option (outcome ColorInfo) :=
  match fuel with
  | O => None
  | S fuel' =>
      let color := trim color in
      if startsWith color "#" then
        let rgb := hexToRgb color in
        let hsl := rgbToHsl rgb in
        Some (Return (color_of (toUpperCase color) rgb hsl))
      else
        match regex_match rgb_pattern color with
        | Some rgbMatch =>
            let rgb := mkRGB (parseInt (group rgbMatch 1) 0)
                             (parseInt (group rgbMatch 2) 0)
                             (parseInt (group rgbMatch 3) 0) in
            let hex := rgbToHex rgb in
            let hsl := rgbToHsl rgb in
            Some (Return (color_of hex rgb hsl))
        | None =>
            match regex_match hsl_pattern color with
            | Some hslMatch =>
                let hsl := mkHSL (parseInt (group hslMatch 1) 0)
                                 (parseInt (group hslMatch 2) 0)
                                 (parseInt (group hslMatch 3) 0) in
                let rgb := hslToRgb hsl in
                let hex := rgbToHex rgb in
                Some (Return (color_of hex rgb hsl))
            | None =>
                if is_bare_hex6 color
                then parseColor_fuel fuel' (String "#" color)
                else Some InvalidFormat
            end
        end
  end.

Definition parseColor (color : string) : option (outcome ColorInfo) :=
  parseColor_fuel 2 color.

End Parsing.

Section Palettes.
Local Open Scope float_scope.

(** The body shared by the palette loops: from a derived HSL value to the
    pushed [{ hex, rgb, hsl }]. *)
Definition derive (hsl : HSL) : ColorInfo :=
  let rgb := hslToRgb hsl in
  let hex := rgbToHex rgb in
  color_of hex rgb hsl.

(** [generateRandomColor]; the three results of [Math.random()], in the
    order of the calls, are the arguments. *)
Definition generateRandomColor (random1 random2 random3 : number) : ColorInfo :=
  let r := Math_floor (random1 * 256) in
  let g := Math_floor (random2 * 256) in
  let b := Math_floor (random3 * 256) in
  let rgb := mkRGB r g b in
  let hex := rgbToHex rgb in
  let hsl := rgbToHsl rgb in
  color_of hex rgb hsl.

Definition getComplementary (color : ColorInfo) : ColorInfo :=
  let hsl := with_h color.(hsl) ((color.(hsl).(h) + 180) %% 360) in
  derive hsl.

Definition getAnalogous (color : ColorInfo) : list ColorInfo :=
  let angles := [-30; 0; 30] in
  fold_left
    (fun colors angle =>
       let hsl := with_h color.(hsl) ((color.(hsl).(h) + angle + 360) %% 360) in
       colors ++ [derive hsl])
    angles [].

Definition getTriadic (color : ColorInfo) : list ColorInfo :=
  let angles := [0; 120; 240] in
  fold_left
    (fun colors angle =>
       let hsl := with_h color.(hsl) ((color.(hsl).(h) + angle) %% 360) in
       colors ++ [derive hsl])
    angles [].

(** The loop [for (let i = 0; i < count; i++)] of [getMonochromatic], from
    the state [(i, colors)]; [None] when [fuel] iterations did not reach the
    exit. *)
Fixpoint monochromatic_loop (fuel : nat) (color : ColorInfo)
    (count step i : number) (colors : list ColorInfo)
  : option (list ColorInfo) :=
  match fuel with
  | O => None
  | S fuel' =>
      if i <? count then
        let hsl := with_l color.(hsl) (Math_round (10 + step * i)) in
        monochromatic_loop fuel' color count step (i + 1)
          (colors ++ [derive hsl])
      else Some colors
  end.

Definition getMonochromatic_fuel (fuel : nat) (color : ColorInfo)
    (count : number) : option (list ColorInfo) :=
  let step := 80 / (count - 1) in
  monochromatic_loop fuel color count step 0 [].

(** [getMonochromatic(color, count = 5)]: an absent [count] is 5.  The callers
    pass an integer from 3 to 10, for which twelve iterations of fuel cover
    the loop and its exit test. *)
Definition getMonochromatic (color : ColorInfo) (count : option number)
  : option (list ColorInfo) :=
  getMonochromatic_fuel 12 color
    (match count with Some c => c | None => 5 end).

Definition getTetradic (color : ColorInfo) : list ColorInfo :=
  let angles := [0; 90; 180; 270] in
  fold_left
    (fun colors angle =>
       let hsl := with_h color.(hsl) ((color.(hsl).(h) + angle) %% 360) in
       colors ++ [derive hsl])
    angles [].

End Palettes.

Section Naming.
Local Open Scope string_scope.

Record hue_range : Set := mkRange { max : number; range_name : string }.

Definition hueNames : list hue_range :=
  [ mkRange 15%float "Red"; mkRange 45%float "Orange";
    mkRange 70%float "Yellow"; mkRange 150%float "Green";
    mkRange 210%float "Cyan"; mkRange 250%float "Blue";
    mkRange 290%float "Purple"; mkRange 330%float "Magenta";
    mkRange 360%float "Red" ].

(** [found?.name || 'Red'] *)
Definition name_or_red (found : option hue_range) : string :=
  match found with
  | Some range => if String.eqb range.(range_name) "" then "Red" else range.(range_name)
  | None => "Red"
  end.

Definition getColorName (color : ColorInfo) : string :=
  let h := color.(hsl).(h) in
  let s := color.(hsl).(s) in
  let l := color.(hsl).(l) in
  if (s <? 10)%float then
    if (l <? 20)%float then "Black"
    else if (l <? 40)%float then "Dark Gray"
    else if (l <? 60)%float then "Gray"
    else if (l <? 80)%float then "Light Gray"
    else "White"
  else
    let hueName :=
      name_or_red (find (fun range => (h <=? range.(max))%float) hueNames) in
    let prefix :=
      if (l <? 30)%float then "Dark "
      else if (70 <? l)%float then "Light "
      else if (s <? 40)%float then "Pale "
      else if (80 <? s)%float then "Vivid "
      else "" in
    prefix ++ hueName.

End Naming.

(* ================================================================== *)
(** ** The palette tool ([generatePalette] of the colour tools)

    The input is the value that [GeneratePaletteSchema.parse] returned (a
    base colour text, a palette type and an optional count, which the schema
    restricts to the integers from 3 to 10);
    [hasWidget] is [!!COLOR_WIDGET_URL].  Of the returned object the text,
    the structured content and [isError] are modelled; the constant [_meta]
    and the logging of the error are not. *)

Section Tools.
Local Open Scope string_scope.

Inductive palette_type : Set :=
| complementary | analogous | triadic | monochromatic | tetradic.

Definition palette_type_name (t : palette_type) : string :=
  match t with
  | complementary => "complementary"
  | analogous => "analogous"
  | triadic => "triadic"
  | monochromatic => "monochromatic"
  | tetradic => "tetradic"
  end.

Record GeneratePaletteInput : Set := mkInput {
  baseColor : string;
  type : palette_type;
  count : option number
}.

(** [value || fallback] for an optional number: an absent value, zero and
    NaN are falsy. *)
Definition or_number (value : option number) (fallback : number) : number :=
  match value with
  | None => fallback
  | Some v => if PrimFloat.is_zero v || PrimFloat.is_nan v then fallback else v
  end.

(** The structured content: [{ success, colors, paletteType }] on success
    and [{ success: false }], without the other two fields, on failure. *)
Record structured : Set := mkStructured {
  success : bool;
  colors : option (list ColorInfo);
  paletteType : option string
}.

Record ToolResult : Set := mkResult {
  text : string;
  structuredContent : structured;
  isError : bool
}.

(** [{ ...c, name: getColorName(c) }] *)
Definition with_name (c : ColorInfo) : ColorInfo :=
  mkColorInfo c.(hex) c.(rgb) c.(hsl) (Some (getColorName c)).

(** The colours of the [switch] over the palette type; [None] when the loop
    of [getMonochromatic] does not end within its fuel. *)
Definition palette_of (base : ColorInfo) (input : GeneratePaletteInput)
  : option (list ColorInfo) :=
  match input.(type) with
  | complementary => Some [base; getComplementary base]
  | analogous => Some (getAnalogous base)
  | triadic => Some (getTriadic base)
  | monochromatic =>
      getMonochromatic base (Some (or_number input.(count) 5%float))
  | tetradic => Some (getTetradic base)
  end.

Definition line_of (c : ColorInfo) : string :=
  c.(hex) ++ " - " ++ getColorName c.

Definition generatePalette (hasWidget : bool) (input : GeneratePaletteInput)
  : option ToolResult :=
  match parseColor input.(baseColor) with
  | None => None
  | Some (Throw message) =>
      Some (mkResult ("Failed to generate palette: " ++ message)
              (mkStructured false None None) true)
  | Some (Return base) =>
      match palette_of base input with
      | None => None
      | Some colors =>
          let textContent :=
            if hasWidget then
              palette_type_name input.(type) ++ " palette with "
                ++ Z_toString (Z.of_nat (List.length colors)) 10 ++ " colors"
            else
              palette_type_name input.(type) ++ " color palette:"
                ++ String "010" (String.concat (String "010" "")
                                   (map line_of colors)) in
          Some (mkResult textContent
                  (mkStructured true (Some (map with_name colors))
                     (Some (palette_type_name input.(type))))
                  false)
      end
  end.

End Tools.

(* ================================================================== *)
(** ** The conversion tool ([convertColor] of the colour tools)

    The input is the value that [ConvertColorSchema.parse] returned.  A
    number in a template literal is printed by [template_number], which
    covers the integral numbers of magnitude below 10^21 (printed without
    exponent), NaN and the infinities; [None] stands for a number outside
    this embedding. *)

Module Convert.
Section ConvertTool.
Local Open Scope string_scope.

Inductive target : Set := to_hex | to_rgb | to_hsl | to_all.

Definition target_name (t : target) : string :=
  match t with
  | to_hex => "hex"
  | to_rgb => "rgb"
  | to_hsl => "hsl"
  | to_all => "all"
  end.

Record ConvertColorInput : Set := mkInput {
  color : string;
  to : target
}.

Definition template_number (x : number) : option string :=
  if PrimFloat.is_nan x || PrimFloat.is_infinity x
  then Some (Number_toString x 10)
  else if Number_isInteger x && (abs x <? 1e21)%float
       then Some (Number_toString x 10)
       else None.

(** [`rgb(${c.r}, ${c.g}, ${c.b})`] *)
Definition rgb_text (c : RGB) : option string :=
  match template_number c.(r), template_number c.(g), template_number c.(b) with
  | Some tr, Some tg, Some tb =>
      Some ("rgb(" ++ tr ++ ", " ++ tg ++ ", " ++ tb ++ ")")
  | _, _, _ => None
  end.

(** [`hsl(${c.h}, ${c.s}%, ${c.l}%)`] *)
Definition hsl_text (c : HSL) : option string :=
  match template_number c.(h), template_number c.(s), template_number c.(l) with
  | Some th, Some ts, Some tl =>
      Some ("hsl(" ++ th ++ ", " ++ ts ++ "%, " ++ tl ++ "%)")
  | _, _, _ => None
  end.

Record structured : Set := mkStructured {
  success : bool;
  converted : option ColorInfo;   (* the field [color] *)
  format : option string
}.

Record ToolResult : Set := mkResult {
  text : string;
  structuredContent : structured;
  isError : bool
}.

Definition text_of (ci : ColorInfo) (t : target) : option string :=
  match t with
  | to_hex => Some ("HEX: " ++ ci.(hex))
  | to_rgb => option_map (String.append "RGB: ") (rgb_text ci.(rgb))
  | to_hsl => option_map (String.append "HSL: ") (hsl_text ci.(hsl))
  | to_all =>
      match rgb_text ci.(rgb), hsl_text ci.(hsl) with
      | Some trgb, Some thsl =>
          Some ("HEX: " ++ ci.(hex) ++ String "010" ("RGB: " ++ trgb)
                  ++ String "010" ("HSL: " ++ thsl))
      | _, _ => None
      end
  end.

Definition convertColor (input : ConvertColorInput) : option ToolResult :=
  match parseColor input.(color) with
  | None => None
  | Some (Throw message) =>
      Some (mkResult ("Failed to convert color: " ++ message)
              (mkStructured false None None) true)
  | Some (Return colorInfo) =>
      match text_of colorInfo input.(to) with
      | None => None
      | Some textContent =>
          Some (mkResult textContent
                  (mkStructured true (Some (with_name colorInfo))
                     (Some (target_name input.(to))))
                  false)
      end
  end.

End ConvertTool.
End Convert.

(* ================================================================== *)
(** ** The colour widget ([getContrastColor] of the front end) *)

Section Widget.
Local Open Scope string_scope.

(** [str.slice(start, stop)] for [0 <= start <= stop]. *)
Definition slice (str : string) (start stop : nat) : string :=
  String.substring start (stop - start) str.

Definition getContrastColor (hex : string) : string :=
  let r := parseInt (slice hex 1 3) 16 in
  let g := parseInt (slice hex 3 5) 16 in
  let b := parseInt (slice hex 5 7) 16 in
  let luminance := ((0.299 * r + 0.587 * g + 0.114 * b) / 255)%float in
  if (0.5 <? luminance)%float then "#000000" else "#FFFFFF".

End Widget.

(* ================================================================== *)
(** ** Vocabulary of the statements *)

Section Vocabulary.
Local Open Scope float_scope.

(** RGB and HSL triples with integer components. *)
Definition rgb_of (rv gv bv : Z) : RGB :=
  mkRGB (num_of_Z rv) (num_of_Z gv) (num_of_Z bv).

Definition hsl_of (hv sv lv : Z) : HSL :=
  mkHSL (num_of_Z hv) (num_of_Z sv) (num_of_Z lv).

(** [x] is an integer with [lo <= x <= hi], resp. [lo <= x < hi]. *)
Definition int_within (lo hi x : number) : bool :=
  Number_isInteger x && (lo <=? x) && (x <=? hi).

Definition int_below (lo hi x : number) : bool :=
  Number_isInteger x && (lo <=? x) && (x <? hi).

(** The HSL domain of the data model: integer hue in [0,360), integer
    saturation and lightness in [0,100]. *)
Definition hsl_in_domain (c : HSL) : bool :=
  int_below 0 360 c.(h) && int_within 0 100 c.(s) && int_within 0 100 c.(l).

(** The same with the hue bound closed: integer hue in [0,360]. *)
Definition hsl_in_closed_domain (c : HSL) : bool :=
  int_within 0 360 c.(h) && int_within 0 100 c.(s) && int_within 0 100 c.(l).

(** [abs (x - y) <= 1]. *)
Definition near (x y : number) : bool := abs (x - y) <=? 1.

End Vocabulary.

(** The integers [0 .. n-1]. *)
Definition Zrange (n : nat) : list Z := map Z.of_nat (seq 0 n).

Definition channels : list number := map num_of_Z (Zrange 256).

Definition all_in (k : char_class) (str : string) : bool :=
  forallb (in_class k) (list_ascii_of_string str).

(** A decimal numeral: one or more digits. *)
Definition is_decimal (str : string) : bool :=
  negb (String.eqb str EmptyString) && all_in Digit str.

(** [str] does not begin with a character of class [k]. *)
Definition starts_outside (k : char_class) (str : string) : bool :=
  match str with
  | String c _ => negb (in_class k c)
  | EmptyString => true
  end.

(* ---- rgbToHsl analysis ---- *)
Section HslAnalysis.
Local Open Scope float_scope.

(** A channel value divided by 255, as [rgbToHsl] starts. *)
Definition unit_channel (z : Z) : number := num_of_Z z / 255.

(** The body of [rgbToHsl] below the computation of [max] and [min]. *)
Definition hsl_from_extremes (max min r g b : number) : HSL :=
  let diff := max - min in
  let l := (max + min) / 2 in
  let '(h, s) :=
    if negb (diff =? 0) then
      let s := if 0.5 <? l then diff / (2 - max - min) else diff / (max + min) in
      let h :=
        if max =? r then ((g - b) / diff + (if g <? b then 6 else 0)) / 6
        else if max =? g then ((b - r) / diff + 2) / 6
        else if max =? b then ((r - g) / diff + 4) / 6
        else 0 in
      (h, s)
    else (0, 0) in
  mkHSL (Math_round (h * 360)) (Math_round (s * 100)) (Math_round (l * 100)).

(** The hue in turns, before scaling and rounding. *)
Definition hue_turns (max min r g b : number) : number :=
  if negb (max - min =? 0) then
    if max =? r then ((g - b) / (max - min) + (if g <? b then 6 else 0)) / 6
    else if max =? g then ((b - r) / (max - min) + 2) / 6
    else if max =? b then ((r - g) / (max - min) + 4) / 6
    else 0
  else 0.

(** The 256 unit channels with their indices. *)
Definition unit_channels : list (Z * number) :=
  map (fun z => (z, unit_channel z)) (Zrange 256).

(** Facts of one unit channel, and of two: the order and equality of unit
    channels are those of their indices, and a difference is zero only of a
    channel with itself. *)
Definition channel_check (p : Z * number) : bool :=
  let '(i, x) := p in
  negb (PrimFloat.is_nan x)
  && Bool.eqb (PrimFloat.is_zero x) (i =? 0)%Z
  && (neg_infinity <? x) && (x <? infinity).

Definition channel_pair_check (p1 p2 : Z * number) : bool :=
  let '(i, x) := p1 in
  let '(j, y) := p2 in
  Bool.eqb (x <? y) (i <? j)%Z
  && Bool.eqb (x =? y) (i =? j)%Z
  && Bool.eqb (x - y =? 0) (i =? j)%Z
  && (if (j <=? i)%Z then
        let c := hsl_from_extremes x y x x x in
        int_within 0 100 c.(s) && int_within 0 100 c.(l)
      else true).

Definition channel_table_check (table : list (Z * number)) : bool :=
  forallb channel_check table
  && forallb (fun p1 => forallb (channel_pair_check p1) table) table.

(** Duplicate-free list of numbers. *)
Fixpoint dedup (xs : list number) : list number :=
  match xs with
  | [] => []
  | x :: rest =>
      let kept := dedup rest in
      if existsb (PrimFloat.Leibniz.eqb x) kept then kept else x :: kept
  end.

Definition zip_sub (xs ys : list number) : list number :=
  map (fun p => fst p - snd p) (combine xs ys).

(** The values that [unit_channel i - unit_channel j] takes over the pairs of
    channels with [i - j = k]. *)
Definition differences (qs : list number) (k : Z) : list number :=
  dedup (if (k <? 0)%Z then zip_sub qs (skipn (Z.to_nat (- k)) qs)
         else zip_sub (skipn (Z.to_nat k) qs) qs).

Definition offsets : list Z := map (fun n => (Z.of_nat n - 255)%Z) (seq 0 511).

Definition difference_table : list (Z * list number) :=
  (fun qs => map (fun k => (k, differences qs k)) offsets)
    (map unit_channel (Zrange 256)).

(** The three hue formulas at the quotient of a difference [x] (of channels
    [k] apart) by a difference [d]. *)
Definition hue_check (k : Z) (x d : number) : bool :=
  let t := x / d in
  int_within 0 360 (Math_round ((t + (if (k <? 0)%Z then 6 else 0)) / 6 * 360))
  && int_within 0 360 (Math_round ((t + 2) / 6 * 360))
  && int_within 0 360 (Math_round ((t + 4) / 6 * 360)).

Definition hue_table_check (table : list (Z * list number)) : bool :=
  forallb
    (fun md =>
       if (1 <=? fst md)%Z then
         forallb
           (fun kx =>
              if (Z.abs (fst kx) <=? fst md)%Z then
                forallb
                  (fun d => forallb (fun x => hue_check (fst kx) x d) (snd kx))
                  (snd md)
              else true)
           table
       else true)
    table.

End HslAnalysis.

(** The integers [lo .. lo+n-1]. *)
Definition Zinterval (lo : Z) (n : nat) : list Z :=
  map (fun k => (lo + Z.of_nat k)%Z) (seq 0 n).

(** The round trip HSL -> RGB -> HSL returns the lightness and stays within
    1 of the saturation and of the hue. *)
Definition roundtrip_near (lx sx hx : number) : bool :=
  let back := rgbToHsl (hslToRgb (mkHSL hx sx lx)) in
  PrimFloat.eqb back.(l) lx && near back.(s) sx && near back.(h) hx.

(** The round trip returns the lightness. *)
Definition keeps_lightness (lx sx hx : number) : bool :=
  PrimFloat.eqb (rgbToHsl (hslToRgb (mkHSL hx sx lx))).(l) lx.

(** The round trip moves the saturation or the hue by more than 1. *)
Definition drifts (lx sx hx : number) : bool :=
  let back := rgbToHsl (hslToRgb (mkHSL hx sx lx)) in
  negb (near back.(s) sx && near back.(h) hx).

(** The cells (s, l) on which the round trip keeps the saturation and the
    hue within 1 for every hue.  Row [s] of the table is the set of the
    lightness values [l] of these cells, as the bits of an integer. *)
Definition stable_rows : list Z :=
  [
    0; 0; 0; 0; 0; 0; 0; 0; 0; 0; 0; 5629499534213120; 3377699720527872;
    36033195065475072; 212104589091012608; 143864499424722944;
    71560752221126656; 3650412963954688; 1117370101792768;
    144106939591163904; 9371522432879179071488; 573001847082447798272;
    10026956003397190287360; 16819971826312196128768;
    8998534326996078428160; 635083352046242623389696;
    34200263512105857056768; 1331080158870177563279360;
    675003259145171079528448; 1470998712669802775707648;
    433129550850699143675904; 11107005967709403189084160;
    8310700927063921745199104; 11406876239371627436048384;
    3286767072077264468836352; 6644369641397590795747328;
    12995952560857263618129920; 25803010462399741427712000;
    12901505231199870684495872; 25991905121714526984896512;
    13298184015760920916131840; 7234665451756296422555648;
    110012249584931254892666880; 55610587702272942033682432;
    27654178123684642369966080; 16622730019701151151529984;
    66490920078804604607481856; 33547691494305959597477888;
    134190765977223838391181312; 382020558998222819207036928;
    404990149570900773526409216; 294977899985969518628270080;
    1315311291740716542080238592; 1208925819614629174705887232;
    308880546911537754137391104; 38685626227668133590196224;
    4951760157141521099596471808; 618970019642690137449363456;
    9671406556917033397641216; 618970019642690137449496576;
    4946924453863062582897671680; 7505011488167617916575938560;
    618970019642690137449431040; 1199254413057712141308524544;
    4487532642409503496509324800; 2785365088392105618523013632;
    5532044550556543103455457280; 1083197534374707740536698880;
    2166395068749415481073454080; 3017478845758114420066611712;
    8510837770086989389931477248; 5841529560377888172180232192;
    1779538806472734145167485952; 14700537966513890764427097600;
    3713820117856140824697363200; 7350268983256945382213545216;
    6653927711158918977582773248; 4332790137498830962146924032;
    13307855422317837955165583872; 14855280471424563298789489664;
    6808670216069591511945180416; 7118155225890936580669963264;
    3713820117856140824697367040; 14236310451781873161339928192;
    16712190530352633711138174208; 7427640235712281649394740480;
    8665580274997661924293868032; 4332790137498830962146932224;
    4951760157141521099596495872; 17331160549995323848587738368;
    18569100589280704123486862080; 8975065284819006993018648064;
    4951760157141521099596496384; 2475880078570760549798247424;
    15474250491067253436239051136; 39614081257132168796771970816;
    9903520314283042199192993280; 4951760157141521099596495872;
    618970019642690137449558016; 19807040628566084398385987520;
    19807040628566084398385987456
  ]%Z.

Definition stable (sv lv : Z) : bool :=
  Z.testbit (nth (Z.to_nat sv) stable_rows 0%Z) lv.

(** A cell against its bit of the table: on a cell of the table every hue
    returns within 1; on another cell every hue returns the lightness and
    some hue drifts. *)
Definition cell_check (hues : list number) (row : Z) (sx : number) (lv : Z)
  : bool :=
  let lx := num_of_Z lv in
  if Z.testbit row lv then forallb (roundtrip_near lx sx) hues
  else forallb (keeps_lightness lx sx) hues && existsb (drifts lx sx) hues.

Definition cells_check (hues : list number) (ls : list Z)
    (rows : list (Z * Z)) : bool :=
  forallb
    (fun row =>
       let sx := num_of_Z (fst row) in
       forallb (cell_check hues (snd row) sx) ls)
    rows.

(** The cells with [s >= s0] and [lo <= l <= hi] are in the table. *)
Definition stable_block (s0 lo hi : Z) : bool :=
  forallb
    (fun sv =>
       forallb
         (fun lv =>
            if ((s0 <=? sv) && (lo <=? lv) && (lv <=? hi))%Z
            then stable sv lv else true)
         (Zrange 101))
    (Zrange 101).

(** No cell with [s <= 10], [l <= 5] or [l >= 95] is in the table. *)
Definition unstable_margin : bool :=
  forallb
    (fun sv =>
       forallb
         (fun lv =>
            if ((sv <=? 10) || (lv <=? 5) || (95 <=? lv))%Z
            then negb (stable sv lv) else true)
         (Zrange 101))
    (Zrange 101).

(** The number of cells of the table. *)
Definition stable_count : Z :=
  Z.of_nat
    (List.length
       (filter (fun c => stable (fst c) (snd c))
          (list_prod (Zrange 101) (Zrange 101)))).

(* ---- palettes ---- *)

(** The hue arithmetic of the four hue palettes at a base hue [hv]: every
    formula of the source gives the number of the integer sum reduced modulo
    360. *)
Definition hue_wrap_check (hv : Z) : bool :=
  let x := num_of_Z hv in
  let wraps (y : number) (delta : Z) :=
    PrimFloat.Leibniz.eqb y (num_of_Z ((hv + delta) mod 360))
    && int_below 0%float 360%float y in
  (wraps ((x + 180) %% 360) 180%Z
   && wraps ((x + -30 + 360) %% 360) (-30)%Z
   && wraps ((x + 0 + 360) %% 360) 0%Z
   && wraps ((x + 30 + 360) %% 360) 30%Z
   && wraps ((x + 0) %% 360) 0%Z
   && wraps ((x + 120) %% 360) 120%Z
   && wraps ((x + 240) %% 360) 240%Z
   && wraps ((x + 90) %% 360) 90%Z
   && wraps ((x + 270) %% 360) 270%Z)%float.

(** The exact value of a finite number. *)
Definition exact_value (x : number) : option Q :=
  match Prim2SF x with
  | S754_zero _ => Some 0%Q
  | S754_finite sg m e =>
      let a := match e with
               | Zneg k => Qmake (Zpos m) (Pos.shiftl 1 (Npos k))
               | _ => inject_Z (Z.shiftl (Zpos m) e)
               end in
      Some (if sg then Qopp a else a)
  | _ => None
  end.

(** [x] is exactly the integer [n]. *)
Definition carries (x : number) (n : Z) : Prop :=
  exists q : Q, exact_value x = Some q /\ Qeq q (inject_Z n).

(** A decimal numeral: the digits of [u], as the standard library writes
    them ([Z.of_uint u] is the integer they denote). *)
Definition numeral (u : Decimal.uint) : string :=
  DecimalString.NilEmpty.string_of_uint u.

(** The linear ramp of the spec: lightness 10 at the first of [count]
    samples, 90 at the last, in steps of 80/(count-1). *)
Definition ramp (count i : Z) : Q :=
  (inject_Z 10 + inject_Z (80 * i) / inject_Z (count - 1))%Q.

(** The nearest integer, ties upward. *)
Definition nearest_integer (q : Q) : Z := Qfloor (q + (1 # 2))%Q.

(** The lightness values the loop of [getMonochromatic] computes from the
    counter [i] on. *)
Fixpoint lightness_steps (fuel : nat) (count step i : number)
  : option (list number) :=
  match fuel with
  | O => None
  | S fuel' =>
      if (i <? count)%float then
        option_map (cons (Math_round (10 + step * i)%float))
          (lightness_steps fuel' count step (i + 1)%float)
      else Some []
  end.

(* ---- naming, in the words of the spec ---- *)
Section NamingSpec.
Local Open Scope string_scope.

(** Step 1: the lightness band of a near-achromatic colour. *)
Definition lightness_band (lx : number) : string :=
  if (lx <? 20)%float then "Black"
  else if (lx <? 40)%float then "Dark Gray"
  else if (lx <? 60)%float then "Gray"
  else if (lx <? 80)%float then "Light Gray"
  else "White".

(** Step 2: the hue band; ranges are upper-bound-inclusive, the first match
    wins, and "Red" is the default. *)
Definition hue_band (hx : number) : string :=
  if (hx <=? 15)%float then "Red"
  else if (hx <=? 45)%float then "Orange"
  else if (hx <=? 70)%float then "Yellow"
  else if (hx <=? 150)%float then "Green"
  else if (hx <=? 210)%float then "Cyan"
  else if (hx <=? 250)%float then "Blue"
  else if (hx <=? 290)%float then "Purple"
  else if (hx <=? 330)%float then "Magenta"
  else if (hx <=? 360)%float then "Red"
  else "Red".

(** Step 3: the one prefix, first match wins. *)
Definition name_prefix (sx lx : number) : string :=
  if (lx <? 30)%float then "Dark "
  else if (70 <? lx)%float then "Light "
  else if (sx <? 40)%float then "Pale "
  else if (80 <? sx)%float then "Vivid "
  else "".

End NamingSpec.

(* ---- hex ---- *)

Definition is_upper_hex_digit (c : ascii) : bool :=
  is_digit c || (Nat.leb 65 (code c) && Nat.leb (code c) 70).

(** The canonical HEX form: [#] and six upper-case hexadecimal digits. *)
Definition is_canonical_hex (hex : string) : bool :=
  match hex with
  | String "#" digits =>
      Nat.eqb (String.length digits) 6
      && forallb is_upper_hex_digit (list_ascii_of_string digits)
  | _ => false
  end.

(** [toHex x] is the two digits [c1 c2], which upper-cased are canonical and
    read back as [x]. *)
Definition hex_pair (x : number) (c1 c2 : ascii) : Prop :=
  toHex x = String c1 (String c2 EmptyString)
  /\ parseInt (String (upper c1) (String (upper c2) EmptyString)) 16 = x
  /\ is_upper_hex_digit (upper c1) = true
  /\ is_upper_hex_digit (upper c2) = true.

(** [#] and six hexadecimal digits of either case. *)
Definition is_hash_hex6 (str : string) : bool :=
  match str with
  | String "#" digits => is_bare_hex6 digits
  | _ => false
  end.

Definition red : ColorInfo :=
  color_of "#FF0000" (mkRGB 255%float 0%float 0%float)
           (mkHSL 0%float 100%float 50%float).


(** The text hsl(h, s%, l%) of three numerals, with white space [w1] and
    [w2] after the commas. *)
Definition hsl_text_of (u1 u2 u3 : Decimal.uint) (w1 w2 : string) : string :=
  ("hsl(" ++ numeral u1 ++ "," ++ w1 ++ numeral u2 ++ "%," ++ w2
     ++ numeral u3 ++ "%)")%string.

(** What [parseColor] guarantees of the ColorInfo [ci] it returns for the
    text [color]. *)
Definition parse_invariant (color : string) (ci : ColorInfo) : Prop :=
  let text := trim color in
  let by_hsl_pattern :=
    negb (startsWith text "#")
    && match regex_match rgb_pattern text with Some _ => false | None => true end
    && match regex_match hsl_pattern text with Some _ => true | None => false end in
  let by_rgb_pattern :=
    negb (startsWith text "#")
    && match regex_match rgb_pattern text with Some _ => true | None => false end in
  (* hsl is derived from rgb, except in the hsl branch *)
  (by_hsl_pattern = false -> ci.(hsl) = rgbToHsl ci.(rgb))
  (* in the hsl branch hsl is the matched triple, rgb and hex derive from it *)
  /\ (by_hsl_pattern = true ->
      ci.(rgb) = hslToRgb ci.(hsl) /\ ci.(hex) = rgbToHex ci.(rgb)
      /\ exists m : list string,
           regex_match hsl_pattern text = Some m
           /\ ci.(hsl) = mkHSL (parseInt (group m 1) 0) (parseInt (group m 2) 0)
                               (parseInt (group m 3) 0))
  (* for the text hsl(h, s%, l%) the triple is the three numbers written *)
  /\ (forall (u1 u2 u3 : Decimal.uint) (w1 w2 : string),
        u1 <> Decimal.Nil -> u2 <> Decimal.Nil -> u3 <> Decimal.Nil ->
        all_in Space w1 = true -> all_in Space w2 = true ->
        text = hsl_text_of u1 u2 u3 w1 w2 ->
        by_hsl_pattern = true
        /\ ci.(hsl) = hsl_of (Z.of_uint u1) (Z.of_uint u2) (Z.of_uint u3))
  (* the hex is canonical and reads back as rgb: #RRGGBB and RRGGBB text, *)
  /\ (is_hash_hex6 text = true \/ is_bare_hex6 text = true ->
      is_canonical_hex ci.(hex) = true /\ ci.(rgb) = hexToRgb ci.(hex))
  (* rgb text with channels of [0,255], *)
  /\ (forall rv gv bv : Z,
        by_rgb_pattern = true -> ci.(rgb) = rgb_of rv gv bv ->
        (0 <= rv <= 255)%Z -> (0 <= gv <= 255)%Z -> (0 <= bv <= 255)%Z ->
        is_canonical_hex ci.(hex) = true /\ ci.(rgb) = hexToRgb ci.(hex))
  (* hsl text with an HSL value of the domain *)
  /\ (forall hv sv lv : Z,
        by_hsl_pattern = true -> ci.(hsl) = hsl_of hv sv lv ->
        (0 <= hv <= 360)%Z -> (0 <= sv <= 100)%Z -> (0 <= lv <= 100)%Z ->
        is_canonical_hex ci.(hex) = true /\ ci.(rgb) = hexToRgb ci.(hex)).

(** A hue that is the number of an integer of [0,360). *)
Definition wrapped_hue (x : number) : Prop :=
  (exists z : Z, (0 <= z < 360)%Z /\ x = num_of_Z z)
  /\ int_below 0%float 360%float x = true.

(** What a palette colour [c] keeps of the base: a hue wrapped into
    [0,360), and the saturation and lightness of the base. *)
Definition rotated (base c : ColorInfo) : Prop :=
  wrapped_hue c.(hsl).(h)
  /\ c.(hsl).(s) = base.(hsl).(s)
  /\ c.(hsl).(l) = base.(hsl).(l).

(** The rounded ramp of [count] samples. *)
Definition rounded_ramp (count : Z) : list number :=
  map (fun i => num_of_Z (nearest_integer (ramp count i)))
      (Zrange (Z.to_nat count)).

(** The three results of [parseColor]. *)
Definition hash_result (text : string) : ColorInfo :=
  color_of (toUpperCase text) (hexToRgb text) (rgbToHsl (hexToRgb text)).

Definition rgb_result (m : list string) : ColorInfo :=
  let rgb := mkRGB (parseInt (group m 1) 0) (parseInt (group m 2) 0)
                   (parseInt (group m 3) 0) in
  color_of (rgbToHex rgb) rgb (rgbToHsl rgb).

Definition hsl_result (m : list string) : ColorInfo :=
  let hsl := mkHSL (parseInt (group m 1) 0) (parseInt (group m 2) 0)
                   (parseInt (group m 3) 0) in
  color_of (rgbToHex (hslToRgb hsl)) (hslToRgb hsl) hsl.

(** The value of a hexadecimal digit (0 for another character). *)
Definition hex_value (c : ascii) : Z :=
  match digit_value c with
  | Some d => d
  | None => 0%Z
  end.

(** A channel that prints as three hexadecimal digits, the first two of
    which do not read back as the channel. *)
Definition wide_channel_check (z : Z) : bool :=
  match toHex (num_of_Z z) with
  | String c1 (String c2 (String c3 EmptyString)) =>
      negb (PrimFloat.eqb
              (parseInt (String (upper c1) (String (upper c2) EmptyString)) 16)
              (num_of_Z z))
  | _ => false
  end.

(** A gray: hue 0, saturation 0 and an integer lightness of [0,100]. *)
Definition gray_check (v : number) : bool :=
  let c := rgbToHsl (mkRGB v v v) in
  PrimFloat.Leibniz.eqb c.(h) 0%float && PrimFloat.Leibniz.eqb c.(s) 0%float
  && int_within 0%float 100%float c.(l).

(** Strictly increasing numbers from [lo]. *)
Fixpoint increasing_from (lo : number) (xs : list number) : bool :=
  match xs with
  | [] => true
  | x :: rest => (lo <? x)%float && increasing_from x rest
  end.

(** A ramp from 10 to 90 in increasing steps. *)
Definition ramp_shape (xs : list number) : bool :=
  match xs with
  | first :: rest =>
      PrimFloat.Leibniz.eqb first 10%float
      && increasing_from first rest
      && PrimFloat.Leibniz.eqb (last xs 0%float) 90%float
  | [] => false
  end.

(** The contrast colour of the gray of level [v], against the threshold. *)
Definition gray_contrast_check (v : Z) : bool :=
  String.eqb (getContrastColor (rgbToHex (rgb_of v v v)))
             (if (128 <=? v)%Z then "#000000" else "#FFFFFF")%string.

Definition hex_chars : list ascii :=
  list_ascii_of_string "0123456789abcdefABCDEF".

(** The decision of [getContrastColor] on three channels. *)
Definition contrast_of (r g b : number) : string :=
  if (0.5 <? (0.299 * r + 0.587 * g + 0.114 * b) / 255)%float
  then "#000000"%string else "#FFFFFF"%string.

(** The contrast colour is white whenever the blue channel is NaN, for all
    red channels of two hexadecimal digits and green channels of one. *)
Definition short_contrast_check : bool :=
  let reds :=
    flat_map
      (fun a => map (fun c => parseInt (String a (String c EmptyString)) 16)
                    hex_chars) hex_chars in
  let greens := map (fun e => parseInt (String e EmptyString) 16) hex_chars in
  forallb
    (fun r => forallb (fun g => String.eqb (contrast_of r g nan) "#FFFFFF") greens)
    reds.

(** The number of colours of a palette: two with the base for the
    complementary one, three, three and four for the other hue palettes,
    and the count, five by default, for the monochromatic one. *)
Definition expected_size (t : palette_type) (samples : option Z) : nat :=
  match t with
  | complementary => 2
  | analogous => 3
  | triadic => 3
  | tetradic => 4
  | monochromatic =>
      Z.to_nat (match samples with Some k => k | None => 5%Z end)
  end.

(** A colour of the structured content: it carries its own name. *)
Definition named (c : ColorInfo) : Prop := c.(name) = Some (getColorName c).

(* ---- [hslToRgb] on the HSL domain ---- *)

Section HslToRgbAnalysis.
Local Open Scope float_scope.

(** The four pieces of [hue2rgb], with the turn [t] brought into [0,1] on
    the two sloped ones. *)
Inductive hue_segment : Set :=
| Rising (t : number)
| Top
| Falling (t : number)
| Bottom.

Definition segment_of (t : number) : hue_segment :=
  let t := if t <? 0 then t + 1 else t in
  let t := if 1 <? t then t - 1 else t in
  if t <? 1 / 6 then Rising t
  else if t <? 1 / 2 then Top
  else if t <? 2 / 3 then Falling t
  else Bottom.

Definition on_segment (p q : number) (sg : hue_segment) : number :=
  match sg with
  | Rising t => p + (q - p) * 6 * t
  | Top => q
  | Falling t => p + (q - p) * (2 / 3 - t) * 6
  | Bottom => p
  end.

(** The pair [(p, q)] of [hslToRgb] at unit saturation and lightness. *)
Definition tones (s l : number) : number * number :=
  let q := if l <? 0.5 then l * (1 + s) else l + s - l * s in
  (2 * l - q, q).

(** [Math.round(x * 255)] *)
Definition channel_of (x : number) : number := Math_round (x * 255).

(** The integer part of a number of [0, 2^52), as a machine integer. *)
Definition magnitude (x : number) : PrimInt63.int :=
  let (m, e) := frshiftexp x in
  PrimInt63.lsr (normfr_mantissa m) (PrimInt63.sub 2154%uint63 e).

(** [x] is one of the integers 0, ..., 255. *)
Definition is_channel (x : number) : bool :=
  let n := magnitude x in
  PrimInt63.leb n 255%uint63 && PrimFloat.Leibniz.eqb x (of_uint63 n).

(** The machine integers up to 255 convert to the numbers of [channels]. *)
Definition integer_check (k : Z) : bool :=
  PrimFloat.Leibniz.eqb (of_uint63 (Uint63Axioms.of_Z k)) (num_of_Z k).

(** At unit saturation [s] and lightness [l], every piece of [hue2rgb]
    gives a channel, for the turns of [rising] and [falling] on the sloped
    pieces. *)
Definition tone_check (rising falling : list number) (s l : number) : bool :=
  let '(p, q) := tones s l in
  is_channel (channel_of p) && is_channel (channel_of q)
  && forallb (fun t => is_channel (channel_of (on_segment p q (Rising t))))
       rising
  && forallb (fun t => is_channel (channel_of (on_segment p q (Falling t))))
       falling.

Definition tone_table_check (rising falling units : list number) : bool :=
  forallb
    (fun s =>
       if s =? 0 then forallb (fun l => is_channel (channel_of l)) units
       else forallb (tone_check rising falling s) units)
    units.

(** [h / 360] for the hues 0..360 and [v / 100] for the percentages
    0..100. *)
Definition unit_hues : list number :=
  map (fun hv => num_of_Z hv / 360) (Zrange 361).

Definition unit_percents : list number :=
  map (fun v => num_of_Z v / 100) (Zrange 101).

(** The pieces that the three channels of a hue fall on. *)
Definition segments_of (h : number) : list hue_segment :=
  [segment_of (h + 1 / 3); segment_of h; segment_of (h - 1 / 3)].

Definition rising_of (sg : hue_segment) : list number :=
  match sg with Rising t => [t] | _ => [] end.

Definition falling_of (sg : hue_segment) : list number :=
  match sg with Falling t => [t] | _ => [] end.

Definition rising_turns : list number :=
  dedup (flat_map rising_of (flat_map segments_of unit_hues)).

Definition falling_turns : list number :=
  dedup (flat_map falling_of (flat_map segments_of unit_hues)).

Definition segment_in (rising falling : list number) (sg : hue_segment)
  : Prop :=
  match sg with
  | Rising t => In t rising
  | Falling t => In t falling
  | _ => True
  end.

(** The gray level of the lightness [lv] percent: 255 lv / 100 rounded to
    the nearest integer, halves upward. *)
Definition gray_level (lv : Z) : Z := ((51 * lv + 10) / 20)%Z.

Definition gray_level_check (lv : Z) : bool :=
  PrimFloat.Leibniz.eqb (channel_of (num_of_Z lv / 100))
                        (num_of_Z (gray_level lv)).

(** The gray of the lightness [lv] goes back to hue 0, saturation 0 and
    the lightness [lv]. *)
Definition gray_back_check (lv : Z) : bool :=
  let v := gray_level lv in
  let c := rgbToHsl (rgb_of v v v) in
  PrimFloat.Leibniz.eqb c.(h) (num_of_Z 0)
  && PrimFloat.Leibniz.eqb c.(s) (num_of_Z 0)
  && PrimFloat.Leibniz.eqb c.(l) (num_of_Z lv).

(** The numbers of the integers 0..360 and 0..100 are in the closed HSL
    domain. *)
Definition degree_check (hv : Z) : bool := int_within 0 360 (num_of_Z hv).

Definition percent_check (v : Z) : bool := int_within 0 100 (num_of_Z v).

End HslToRgbAnalysis.

(** Integer channels of [0,255]. *)
Definition rgb_in_range (c : RGB) : Prop :=
  exists rv gv bv : Z,
    c = rgb_of rv gv bv
    /\ (0 <= rv <= 255)%Z /\ (0 <= gv <= 255)%Z /\ (0 <= bv <= 255)%Z.

(** A ColorInfo of the data model: an HSL value of the closed domain,
    integer channels of [0,255], and the canonical HEX string of those
    channels. *)
Definition well_formed (c : ColorInfo) : Prop :=
  hsl_in_closed_domain c.(hsl) = true
  /\ rgb_in_range c.(rgb)
  /\ is_canonical_hex c.(hex) = true
  /\ hexToRgb c.(hex) = c.(rgb).

(** No character of [str] is the letter [a], case ignored. *)
Definition free_of (a : ascii) (str : string) : bool :=
  forallb (fun c => negb (same_letter a c)) (list_ascii_of_string str).

(** The rounded ramp of [count] samples stays within the percentages. *)
Definition ramp_level_check (count : Z) : bool :=
  forallb
    (fun i =>
       let z := nearest_integer (ramp count i) in
       (0 <=? z)%Z && (z <=? 100)%Z)
    (Zrange (Z.to_nat count)).

(** The number of the integer [k] is printed in a template literal as a
    decimal numeral that reads back as [k]. *)
Definition decimal_check (k : Z) : bool :=
  match Convert.template_number (num_of_Z k) with
  | Some d => is_decimal d && (digits_value 10 d =? k)%Z
  | None => false
  end.

Lemma in_Zrange (n : nat) (z : Z) :
  (0 <= z < Z.of_nat n)%Z -> In z (Zrange n).
Proof.
  intros Hz. unfold Zrange.
  replace z with (Z.of_nat (Z.to_nat z)) by lia.
  apply in_map, in_seq. lia.
Qed.

(* ================================================================== *)
(** ** [rgbToHsl] on the RGB cube

    The 16 million triples are not enumerated.  [max] and [min] are found
    from the order of the channel indices; saturation and lightness depend
    on [max] and [min] only; the hue is a formula in the quotient of two
    differences of unit channels, and the differences of channels [k] apart
    take few values. *)

Section Cube.
Local Open Scope float_scope.

Lemma rgbToHsl_extremes (rv gv bv : Z) :
  rgbToHsl (rgb_of rv gv bv)
  = hsl_from_extremes
      (Math_max [unit_channel rv; unit_channel gv; unit_channel bv])
      (Math_min [unit_channel rv; unit_channel gv; unit_channel bv])
      (unit_channel rv) (unit_channel gv) (unit_channel bv).
Proof. reflexivity. Qed.

Lemma hsl_from_extremes_h (mx mn x y z : number) :
  (hsl_from_extremes mx mn x y z).(h)
  = Math_round (hue_turns mx mn x y z * 360).
Proof.
  unfold hsl_from_extremes, hue_turns.
  destruct (negb (mx - mn =? 0)); reflexivity.
Qed.

Lemma hsl_from_extremes_sl (mx mn x y z x' y' z' : number) :
  (hsl_from_extremes mx mn x y z).(s) = (hsl_from_extremes mx mn x' y' z').(s)
  /\ (hsl_from_extremes mx mn x y z).(l) = (hsl_from_extremes mx mn x' y' z').(l).
Proof.
  unfold hsl_from_extremes.
  destruct (negb (mx - mn =? 0)); split; reflexivity.
Qed.

Section Tables.
Variable table : list (Z * number).
Hypothesis table_ok : channel_table_check table = true.

Lemma channel_check_in (i : Z) (x : number) :
  In (i, x) table ->
  PrimFloat.is_nan x = false
  /\ PrimFloat.is_zero x = (i =? 0)%Z
  /\ (neg_infinity <? x) = true
  /\ (x <? infinity) = true.
Proof.
  intros Hin. pose proof table_ok as T. unfold channel_table_check in T.
  apply andb_prop in T. destruct T as [T _].
  rewrite forallb_forall in T. specialize (T _ Hin).
  unfold channel_check in T.
  repeat (apply andb_prop in T; destruct T as [T ?]).
  repeat split; try assumption.
  - now apply negb_true_iff.
  - now apply eqb_prop.
Qed.

Lemma channel_pair_check_in (i j : Z) (x y : number) :
  In (i, x) table -> In (j, y) table ->
  (x <? y) = (i <? j)%Z
  /\ (x =? y) = (i =? j)%Z
  /\ (x - y =? 0) = (i =? j)%Z
  /\ ((j <= i)%Z ->
      forall u v w,
        let c := hsl_from_extremes x y u v w in
        int_within 0 100 c.(s) = true /\ int_within 0 100 c.(l) = true).
Proof.
  intros Hi Hj. pose proof table_ok as T. unfold channel_table_check in T.
  apply andb_prop in T. destruct T as [_ T].
  rewrite forallb_forall in T. specialize (T _ Hi).
  rewrite forallb_forall in T. specialize (T _ Hj).
  unfold channel_pair_check in T.
  apply andb_prop in T. destruct T as [T Tsl].
  apply andb_prop in T. destruct T as [T Tz].
  apply andb_prop in T. destruct T as [Tlt Teq].
  repeat split; try (now apply eqb_prop).
  - destruct (Z.leb_spec j i) as [_|Hlt]; [|lia].
    apply andb_prop in Tsl.
    destruct (hsl_from_extremes_sl x y u v w x x x) as [Es _].
    rewrite Es. exact (proj1 Tsl).
  - destruct (Z.leb_spec j i) as [_|Hlt]; [|lia].
    apply andb_prop in Tsl.
    destruct (hsl_from_extremes_sl x y u v w x x x) as [_ El].
    rewrite El. exact (proj2 Tsl).
Qed.

End Tables.

Lemma channel_table : channel_table_check unit_channels = true.
Proof. vm_cast_no_check (@eq_refl bool true). Qed.

Lemma in_unit_channels (z : Z) :
  (0 <= z <= 255)%Z -> In (z, unit_channel z) unit_channels.
Proof.
  intros Hz. unfold unit_channels.
  apply (in_map (fun z => (z, unit_channel z))), in_Zrange. simpl. lia.
Qed.

Lemma channel_facts (z : Z) :
  (0 <= z <= 255)%Z ->
  PrimFloat.is_nan (unit_channel z) = false
  /\ PrimFloat.is_zero (unit_channel z) = (z =? 0)%Z
  /\ (neg_infinity <? unit_channel z) = true
  /\ (unit_channel z <? infinity) = true.
Proof.
  intros Hz.
  exact (channel_check_in unit_channels channel_table z _
           (in_unit_channels z Hz)).
Qed.

Lemma channel_pair_facts (i j : Z) :
  (0 <= i <= 255)%Z -> (0 <= j <= 255)%Z ->
  (unit_channel i <? unit_channel j) = (i <? j)%Z
  /\ (unit_channel i =? unit_channel j) = (i =? j)%Z
  /\ (unit_channel i - unit_channel j =? 0) = (i =? j)%Z
  /\ ((j <= i)%Z ->
      forall x y z,
        let c := hsl_from_extremes (unit_channel i) (unit_channel j) x y z in
        int_within 0 100 c.(s) = true /\ int_within 0 100 c.(l) = true).
Proof.
  intros Hi Hj.
  exact (channel_pair_check_in unit_channels channel_table i j _ _
           (in_unit_channels i Hi) (in_unit_channels j Hj)).
Qed.

Lemma max2_channels (i j : Z) :
  (0 <= i <= 255)%Z -> (0 <= j <= 255)%Z ->
  max2 (unit_channel i) (unit_channel j) = unit_channel (Z.max i j).
Proof.
  intros Hi Hj. unfold max2.
  destruct (channel_facts i Hi) as (_ & Zi & _).
  destruct (channel_facts j Hj) as (_ & Zj & _).
  destruct (channel_pair_facts i j Hi Hj) as (Lt & _).
  rewrite Zi, Zj, Lt.
  destruct (Z.eqb_spec j 0) as [->|Hj0]; destruct (Z.eqb_spec i 0) as [->|Hi0];
    cbn [andb].
  - destruct (get_sign (unit_channel 0)); reflexivity.
  - destruct (Z.ltb_spec i 0); [lia|]. now rewrite Z.max_l by lia.
  - destruct (Z.ltb_spec 0 j); [|lia]. now rewrite Z.max_r by lia.
  - destruct (Z.ltb_spec i j); [rewrite Z.max_r | rewrite Z.max_l];
      (lia || reflexivity).
Qed.

Lemma min2_channels (i j : Z) :
  (0 <= i <= 255)%Z -> (0 <= j <= 255)%Z ->
  min2 (unit_channel i) (unit_channel j) = unit_channel (Z.min i j).
Proof.
  intros Hi Hj. unfold min2.
  destruct (channel_facts i Hi) as (_ & Zi & _).
  destruct (channel_facts j Hj) as (_ & Zj & _).
  destruct (channel_pair_facts j i Hj Hi) as (Lt & _).
  rewrite Zi, Zj, Lt.
  destruct (Z.eqb_spec j 0) as [->|Hj0]; destruct (Z.eqb_spec i 0) as [->|Hi0];
    cbn [andb].
  - destruct (get_sign (unit_channel 0)); reflexivity.
  - destruct (Z.ltb_spec 0 i); [|lia]. now rewrite Z.min_r by lia.
  - destruct (Z.ltb_spec j 0); [lia|]. now rewrite Z.min_l by lia.
  - destruct (Z.ltb_spec j i); [rewrite Z.min_r | rewrite Z.min_l];
      (lia || reflexivity).
Qed.

Lemma Math_max_channels (i j k : Z) :
  (0 <= i <= 255)%Z -> (0 <= j <= 255)%Z -> (0 <= k <= 255)%Z ->
  Math_max [unit_channel i; unit_channel j; unit_channel k]
  = unit_channel (Z.max (Z.max i j) k).
Proof.
  intros Hi Hj Hk. unfold Math_max. cbn [existsb fold_left].
  destruct (channel_facts i Hi) as (Ni & _ & Li & _).
  destruct (channel_facts j Hj) as (Nj & _).
  destruct (channel_facts k Hk) as (Nk & _).
  rewrite Ni, Nj, Nk. cbn [orb].
  assert (E : max2 neg_infinity (unit_channel i) = unit_channel i).
  { unfold max2. change (PrimFloat.is_zero neg_infinity) with false.
    rewrite andb_false_r, Li. reflexivity. }
  rewrite E, max2_channels, max2_channels by lia. reflexivity.
Qed.

Lemma Math_min_channels (i j k : Z) :
  (0 <= i <= 255)%Z -> (0 <= j <= 255)%Z -> (0 <= k <= 255)%Z ->
  Math_min [unit_channel i; unit_channel j; unit_channel k]
  = unit_channel (Z.min (Z.min i j) k).
Proof.
  intros Hi Hj Hk. unfold Math_min. cbn [existsb fold_left].
  destruct (channel_facts i Hi) as (Ni & _ & _ & Li).
  destruct (channel_facts j Hj) as (Nj & _).
  destruct (channel_facts k Hk) as (Nk & _).
  rewrite Ni, Nj, Nk. cbn [orb].
  assert (E : min2 infinity (unit_channel i) = unit_channel i).
  { unfold min2. change (PrimFloat.is_zero infinity) with false.
    rewrite andb_false_r, Li. reflexivity. }
  rewrite E, min2_channels, min2_channels by lia. reflexivity.
Qed.


Lemma dedup_In (x : number) (xs : list number) : In x xs -> In x (dedup xs).
Proof.
  induction xs as [|y xs IH]; [easy|]. cbn [dedup].
  intros [->|Hin].
  - destruct (existsb (PrimFloat.Leibniz.eqb x) (dedup xs)) eqn:E.
    + apply existsb_exists in E. destruct E as (y & Hy & Exy).
      apply FloatAxioms.Leibniz.eqb_spec in Exy. now subst y.
    + now left.
  - destruct (existsb (PrimFloat.Leibniz.eqb y) (dedup xs)); [|right]; auto.
Qed.

Lemma nth_error_combine {A B : Type} (xs : list A) (ys : list B) (n : nat) a b' :
  nth_error xs n = Some a -> nth_error ys n = Some b' ->
  nth_error (combine xs ys) n = Some (a, b').
Proof.
  revert ys n. induction xs as [|x xs IH]; intros [|y ys] [|n]; simpl;
    try discriminate.
  - now intros [= ->] [= ->].
  - apply IH.
Qed.

Lemma in_zip_sub (xs ys : list number) (n : nat) (x y : number) :
  nth_error xs n = Some x -> nth_error ys n = Some y ->
  In (x - y) (zip_sub xs ys).
Proof.
  intros Hx Hy. unfold zip_sub.
  apply (in_map (fun p => fst p - snd p) _ (x, y)).
  eapply nth_error_In, nth_error_combine; eassumption.
Qed.

Lemma nth_error_unit_channels (z : Z) :
  (0 <= z <= 255)%Z ->
  nth_error (map unit_channel (Zrange 256)) (Z.to_nat z) = Some (unit_channel z).
Proof.
  intros Hz. unfold Zrange. rewrite !nth_error_map.
  rewrite nth_error_seq.
  destruct (Nat.ltb_spec (Z.to_nat z) 256) as [_|Hge]; [|lia].
  cbn [option_map Nat.add]. now rewrite Z2Nat.id by lia.
Qed.

Lemma in_differences (i j : Z) :
  (0 <= i <= 255)%Z -> (0 <= j <= 255)%Z ->
  In (unit_channel i - unit_channel j)
     (differences (map unit_channel (Zrange 256)) (i - j)).
Proof.
  intros Hi Hj. unfold differences. apply dedup_In.
  destruct (Z.ltb_spec (i - j) 0) as [Hneg|Hpos].
  - apply (in_zip_sub _ _ (Z.to_nat i)).
    + now apply nth_error_unit_channels.
    + rewrite nth_error_skipn.
      replace (Z.to_nat (- (i - j)) + Z.to_nat i)%nat with (Z.to_nat j) by lia.
      now apply nth_error_unit_channels.
  - apply (in_zip_sub _ _ (Z.to_nat j)).
    + rewrite nth_error_skipn.
      replace (Z.to_nat (i - j) + Z.to_nat j)%nat with (Z.to_nat i) by lia.
      now apply nth_error_unit_channels.
    + now apply nth_error_unit_channels.
Qed.

Lemma in_difference_table (k : Z) :
  (-255 <= k <= 255)%Z ->
  In (k, differences (map unit_channel (Zrange 256)) k) difference_table.
Proof.
  intros Hk. unfold difference_table.
  apply (in_map (fun k => (k, differences (map unit_channel (Zrange 256)) k))).
  unfold offsets.
  replace k with (Z.of_nat (Z.to_nat (k + 255)) - 255)%Z by lia.
  apply (in_map (fun n => (Z.of_nat n - 255)%Z)), in_seq. lia.
Qed.

Lemma hue_table_check_in (table : list (Z * list number))
    (m k : Z) (ds xs : list number) (d x : number) :
  hue_table_check table = true ->
  In (m, ds) table -> In (k, xs) table ->
  (1 <= m)%Z -> (Z.abs k <= m)%Z -> In d ds -> In x xs ->
  hue_check k x d = true.
Proof.
  intros T Hm Hk H1 Habs Hd Hx. unfold hue_table_check in T.
  rewrite forallb_forall in T. specialize (T _ Hm). cbn [fst snd] in T.
  destruct (Z.leb_spec 1 m) as [_|?]; [|lia].
  rewrite forallb_forall in T. specialize (T _ Hk). cbn [fst snd] in T.
  destruct (Z.leb_spec (Z.abs k) m) as [_|?]; [|lia].
  rewrite forallb_forall in T. specialize (T _ Hd).
  rewrite forallb_forall in T. exact (T _ Hx).
Qed.

Lemma hue_table : hue_table_check difference_table = true.
Proof. vm_cast_no_check (@eq_refl bool true). Qed.

(** The hue formulas at two channel differences: [x] of channels [k] apart
    over [d] of channels [m >= 1] apart, with [|k| <= m]. *)
Lemma hue_facts (i j i' j' : Z) :
  (0 <= i <= 255)%Z -> (0 <= j <= 255)%Z ->
  (0 <= i' <= 255)%Z -> (0 <= j' <= 255)%Z ->
  (1 <= i' - j')%Z -> (Z.abs (i - j) <= i' - j')%Z ->
  hue_check (i - j) (unit_channel i - unit_channel j)
            (unit_channel i' - unit_channel j') = true.
Proof.
  intros Hi Hj Hi' Hj' Hm Hk.
  apply (hue_table_check_in difference_table (i' - j') (i - j)
           (differences (map unit_channel (Zrange 256)) (i' - j'))
           (differences (map unit_channel (Zrange 256)) (i - j))).
  - exact hue_table.
  - apply in_difference_table. lia.
  - apply in_difference_table. lia.
  - exact Hm.
  - exact Hk.
  - now apply in_differences.
  - now apply in_differences.
Qed.

Lemma ltb_difference (i j : Z) : (i <? j)%Z = (i - j <? 0)%Z.
Proof. destruct (Z.ltb_spec i j), (Z.ltb_spec (i - j) 0); (reflexivity || lia). Qed.

Lemma hue_of_channels (rv gv bv : Z) :
  (0 <= rv <= 255)%Z -> (0 <= gv <= 255)%Z -> (0 <= bv <= 255)%Z ->
  int_within 0 360 (rgbToHsl (rgb_of rv gv bv)).(h) = true.
Proof.
  intros Hr Hg Hb.
  rewrite rgbToHsl_extremes, Math_max_channels, Math_min_channels by assumption.
  set (mx := Z.max (Z.max rv gv) bv). set (mn := Z.min (Z.min rv gv) bv).
  assert (Hmx : (0 <= mx <= 255)%Z) by lia.
  assert (Hmn : (0 <= mn <= 255)%Z) by lia.
  rewrite hsl_from_extremes_h. unfold hue_turns.
  destruct (channel_pair_facts mx mn Hmx Hmn) as (_ & _ & Zd & _).
  destruct (channel_pair_facts mx rv Hmx Hr) as (_ & Er & _).
  destruct (channel_pair_facts mx gv Hmx Hg) as (_ & Eg & _).
  destruct (channel_pair_facts mx bv Hmx Hb) as (_ & Eb & _).
  destruct (channel_pair_facts gv bv Hg Hb) as (Lgb & _).
  rewrite Zd, Er, Eg, Eb, Lgb.
  destruct (Z.eqb_spec mx mn) as [Heq|Hne]; cbn [negb].
  { vm_compute. reflexivity. }
  assert (Hm : (1 <= mx - mn)%Z) by lia.
  destruct (Z.eqb_spec mx rv) as [Hxr|Hxr].
  { pose proof (hue_facts gv bv mx mn Hg Hb Hmx Hmn Hm ltac:(lia)) as F.
    unfold hue_check in F. rewrite <- ltb_difference in F.
    apply andb_prop in F. destruct F as [F _].
    apply andb_prop in F. exact (proj1 F). }
  destruct (Z.eqb_spec mx gv) as [Hxg|Hxg].
  { pose proof (hue_facts bv rv mx mn Hb Hr Hmx Hmn Hm ltac:(lia)) as F.
    unfold hue_check in F.
    apply andb_prop in F. destruct F as [F _].
    apply andb_prop in F. exact (proj2 F). }
  destruct (Z.eqb_spec mx bv) as [Hxb|Hxb]; [|lia].
  pose proof (hue_facts rv gv mx mn Hr Hg Hmx Hmn Hm ltac:(lia)) as F.
  unfold hue_check in F.
  apply andb_prop in F. exact (proj2 F).
Qed.

Lemma saturation_lightness_of_channels (rv gv bv : Z) :
  (0 <= rv <= 255)%Z -> (0 <= gv <= 255)%Z -> (0 <= bv <= 255)%Z ->
  int_within 0 100 (rgbToHsl (rgb_of rv gv bv)).(s) = true
  /\ int_within 0 100 (rgbToHsl (rgb_of rv gv bv)).(l) = true.
Proof.
  intros Hr Hg Hb.
  rewrite rgbToHsl_extremes, Math_max_channels, Math_min_channels by assumption.
  apply channel_pair_facts; lia.
Qed.

End Cube.

(** C9, as amended: for every RGB triple of integers in [0,255], [rgbToHsl]
    returns an integer hue in the closed range [0,360] and integer saturation
    and lightness in [0,100]. *)
Theorem rgbToHsl_closed_domain (rv gv bv : Z) :
  (0 <= rv <= 255)%Z -> (0 <= gv <= 255)%Z -> (0 <= bv <= 255)%Z ->
  hsl_in_closed_domain (rgbToHsl (rgb_of rv gv bv)) = true.
Proof.
  intros Hr Hg Hb. unfold hsl_in_closed_domain.
  rewrite (hue_of_channels rv gv bv Hr Hg Hb).
  destruct (saturation_lightness_of_channels rv gv bv Hr Hg Hb) as [-> ->].
  reflexivity.
Qed.

Lemma rgbToHsl_closed_domain_witness :
  hsl_in_closed_domain (rgbToHsl (rgb_of 255 0 1)) = true.
Proof. apply (rgbToHsl_closed_domain 255 0 1); lia. Defined.

(** C9, as stated, fails: the hue of rgb(255, 0, 1) is 360, outside
    [0,360). *)
Lemma rgbToHsl_hue_reaches_360 :
  ~ (forall rv gv bv : Z,
        (0 <= rv <= 255)%Z -> (0 <= gv <= 255)%Z -> (0 <= bv <= 255)%Z ->
        hsl_in_domain (rgbToHsl (rgb_of rv gv bv)) = true).
Proof.
  intros claim.
  specialize (claim 255%Z 0%Z 1%Z ltac:(lia) ltac:(lia) ltac:(lia)).
  vm_compute in claim. discriminate claim.
Qed.

Example rgbToHsl_255_0_1 :
  rgbToHsl (rgb_of 255 0 1) = hsl_of 360 100 50.
Proof. vm_compute. reflexivity. Qed.

Lemma in_Zinterval (lo : Z) (n : nat) (z : Z) :
  (lo <= z < lo + Z.of_nat n)%Z -> In z (Zinterval lo n).
Proof.
  intros Hz. unfold Zinterval.
  replace z with (lo + Z.of_nat (Z.to_nat (z - lo)))%Z by lia.
  apply (in_map (fun k => (lo + Z.of_nat k)%Z)), in_seq. lia.
Qed.

(* ================================================================== *)
(** ** The round trip HSL -> RGB -> HSL

    Every cell (s, l) of the domain is run against its bit of the table
    [stable_rows], over all the hues. *)

Section Cells.
Variable hues : list number.
Variable ls : list Z.
Variable rows : list (Z * Z).
Hypothesis cells_ok : cells_check hues ls rows = true.

Lemma cell_check_in (sv row lv : Z) :
  In (sv, row) rows -> In lv ls ->
  cell_check hues row (num_of_Z sv) lv = true.
Proof.
  intros Hrow Hl. pose proof cells_ok as T. unfold cells_check in T.
  rewrite forallb_forall in T. specialize (T (sv, row) Hrow).
  cbv zeta in T. cbn [fst snd] in T.
  rewrite forallb_forall in T. exact (T lv Hl).
Qed.

End Cells.

Lemma cells_all :
  cells_check (map num_of_Z (Zrange 360)) (Zrange 101)
              (combine (Zrange 101) stable_rows) = true.
Proof. vm_cast_no_check (@eq_refl bool true). Qed.

Lemma nth_Zrange (n : nat) (k : nat) :
  (k < n)%nat -> nth k (Zrange n) 0%Z = Z.of_nat k.
Proof.
  intros Hk. unfold Zrange.
  change 0%Z with (Z.of_nat 0). rewrite map_nth, seq_nth by exact Hk.
  reflexivity.
Qed.

Lemma in_stable_rows (sv : Z) :
  (0 <= sv <= 100)%Z ->
  In (sv, nth (Z.to_nat sv) stable_rows 0%Z)
     (combine (Zrange 101) stable_rows).
Proof.
  intros Hs.
  assert (Hlen : List.length (Zrange 101) = List.length stable_rows)
    by reflexivity.
  assert (Hk : (Z.to_nat sv < 101)%nat) by lia.
  rewrite <- (Z2Nat.id sv) at 1 by lia.
  rewrite <- (nth_Zrange 101 (Z.to_nat sv) Hk).
  rewrite <- (combine_nth _ _ (Z.to_nat sv) 0%Z 0%Z Hlen).
  apply nth_In. rewrite length_combine, <- Hlen.
  unfold Zrange. rewrite length_map, length_seq. lia.
Qed.

Lemma cell_checked (sv lv : Z) :
  (0 <= sv <= 100)%Z -> (0 <= lv <= 100)%Z ->
  cell_check (map num_of_Z (Zrange 360))
             (nth (Z.to_nat sv) stable_rows 0%Z) (num_of_Z sv) lv = true.
Proof.
  intros Hs Hl.
  apply (cell_check_in _ _ _ cells_all sv _ lv (in_stable_rows sv Hs)).
  apply in_Zrange. simpl. lia.
Qed.

Lemma stable_block_in (s0 lo hi : Z) :
  stable_block s0 lo hi = true ->
  forall sv lv : Z,
    (s0 <= sv <= 100)%Z -> (0 <= sv)%Z -> (lo <= lv <= hi)%Z ->
    (0 <= lv <= 100)%Z -> stable sv lv = true.
Proof.
  unfold stable_block. intros T sv lv Hs Hs0 Hl Hl0.
  rewrite forallb_forall in T.
  specialize (T sv (in_Zrange 101 sv ltac:(simpl; lia))).
  rewrite forallb_forall in T.
  specialize (T lv (in_Zrange 101 lv ltac:(simpl; lia))).
  assert (E : ((s0 <=? sv) && (lo <=? lv) && (lv <=? hi))%Z = true).
  { rewrite !andb_true_iff, !Z.leb_le. lia. }
  now rewrite E in T.
Qed.

Lemma unstable_margin_in (sv lv : Z) :
  (0 <= sv <= 100)%Z -> (0 <= lv <= 100)%Z ->
  (sv <= 10 \/ lv <= 5 \/ 95 <= lv)%Z -> stable sv lv = false.
Proof.
  intros Hs Hl Hm.
  assert (T : unstable_margin = true) by (vm_compute; reflexivity).
  unfold unstable_margin in T. rewrite forallb_forall in T.
  specialize (T sv (in_Zrange 101 sv ltac:(simpl; lia))).
  rewrite forallb_forall in T.
  specialize (T lv (in_Zrange 101 lv ltac:(simpl; lia))).
  assert (E : ((sv <=? 10) || (lv <=? 5) || (95 <=? lv))%Z = true).
  { rewrite !orb_true_iff, !Z.leb_le. lia. }
  rewrite E in T. now apply negb_true_iff.
Qed.




Example hsl_200_50_0_roundtrip :
  hslToRgb (hsl_of 200 50 0) = rgb_of 0 0 0
  /\ rgbToHsl (rgb_of 0 0 0) = hsl_of 0 0 0.
Proof. split; vm_compute; reflexivity. Qed.

(* ================================================================== *)
(** ** Strings and patterns *)

(** Case analysis on a character [c] constrained by [H : f c = true]. *)
Ltac ascii_cases H c :=
  destruct c as [[] [] [] [] [] [] [] []];
  vm_compute in H; try discriminate H; clear H.

Lemma append_assoc (x y z : string) :
  ((x ++ y) ++ z)%string = (x ++ (y ++ z))%string.
Proof. induction x as [|c x IH]; simpl; [reflexivity | now rewrite IH]. Qed.

Lemma append_empty_r (x : string) : (x ++ EmptyString)%string = x.
Proof. induction x as [|c x IH]; simpl; [reflexivity | now rewrite IH]. Qed.

Lemma trimEnd_last (x : string) (c : ascii) :
  is_whitespace c = false ->
  trimEnd (x ++ String c EmptyString) = (x ++ String c EmptyString)%string.
Proof.
  intros Hc. induction x as [|a x IH]; simpl.
  - now rewrite Hc.
  - rewrite IH. destruct x; reflexivity.
Qed.

Section Loops.
Variable k : char_class.
Variable cont : string -> option (list string).

Lemma star_loop_stop (str : string) :
  starts_outside k str = true -> star_loop k cont str = cont str.
Proof.
  destruct str as [|c rest]; simpl; [reflexivity|].
  intros Hc. apply negb_true_iff in Hc. now rewrite Hc.
Qed.

Lemma star_loop_take (w rest : string) (caps : list string) :
  all_in k w = true -> starts_outside k rest = true ->
  cont rest = Some caps ->
  star_loop k cont (w ++ rest) = Some caps.
Proof.
  intros Hw Hrest Hcont. induction w as [|c w IH].
  - simpl. now rewrite star_loop_stop.
  - unfold all_in in Hw. simpl in Hw. apply andb_prop in Hw.
    destruct Hw as [Hc Hw]. simpl. rewrite Hc, (IH Hw). reflexivity.
Qed.

Lemma plus_loop_stop (taken str : string) :
  starts_outside k str = true -> plus_loop k cont taken str = None.
Proof.
  destruct str as [|c rest]; simpl; [reflexivity|].
  intros Hc. apply negb_true_iff in Hc. now rewrite Hc.
Qed.

Lemma plus_loop_take (d : string) :
  forall (taken rest : string) (caps : list string),
  d <> EmptyString -> all_in k d = true -> starts_outside k rest = true ->
  cont rest = Some caps ->
  plus_loop k cont taken (d ++ rest) = Some ((taken ++ d)%string :: caps).
Proof.
  induction d as [|c d IH]; intros taken rest caps Hne Hd Hrest Hcont.
  - now contradiction Hne.
  - unfold all_in in Hd. simpl in Hd. apply andb_prop in Hd.
    destruct Hd as [Hc Hd]. simpl. rewrite Hc.
    destruct d as [|c' d'].
    + simpl. rewrite (plus_loop_stop _ _ Hrest), Hcont. reflexivity.
    + rewrite (IH (taken ++ String c EmptyString)%string rest caps);
        [|discriminate|exact Hd|exact Hrest|exact Hcont].
      rewrite append_assoc. reflexivity.
Qed.

End Loops.

Lemma regex_match_here (p : regex) (str : string) (caps : list string) :
  match_here p str = Some caps -> regex_match p str = Some caps.
Proof. intros H. destruct str; simpl; now rewrite H. Qed.

Lemma is_decimal_inv (d : string) :
  is_decimal d = true -> d <> EmptyString /\ all_in Digit d = true.
Proof.
  unfold is_decimal. intros H. apply andb_prop in H. destruct H as [Hne Hall].
  split; [|exact Hall]. intros ->. discriminate Hne.
Qed.

Lemma digit_not_space (c : ascii) : is_digit c = true -> is_whitespace c = false.
Proof. intros H. ascii_cases H c; reflexivity. Qed.

Lemma decimal_starts_outside_space (d rest : string) :
  is_decimal d = true -> starts_outside Space (d ++ rest) = true.
Proof.
  intros H. apply is_decimal_inv in H. destruct H as [Hne Hall].
  destruct d as [|c d]; [now contradiction Hne|].
  unfold all_in in Hall. simpl in Hall. apply andb_prop in Hall.
  simpl. now rewrite (digit_not_space c (proj1 Hall)).
Qed.

(** The rgb pattern on a text of its own form: the three numerals are the
    captures. *)
Lemma match_rgb_text (d1 d2 d3 w1 w2 : string) :
  is_decimal d1 = true -> is_decimal d2 = true -> is_decimal d3 = true ->
  all_in Space w1 = true -> all_in Space w2 = true ->
  regex_match rgb_pattern
    ("rgb(" ++ d1 ++ "," ++ w1 ++ d2 ++ "," ++ w2 ++ d3 ++ ")")
  = Some [d1; d2; d3].
Proof.
  intros H1 H2 H3 Hw1 Hw2. apply regex_match_here.
  pose proof (is_decimal_inv _ H1) as [N1 A1].
  pose proof (is_decimal_inv _ H2) as [N2 A2].
  pose proof (is_decimal_inv _ H3) as [N3 A3].
  change (plus_loop Digit
            (match_here (Lit "," :: Star Space :: CapturePlus Digit
                         :: Lit "," :: Star Space :: CapturePlus Digit
                         :: [Lit ")"]))
            EmptyString
            (d1 ++ "," ++ w1 ++ d2 ++ "," ++ w2 ++ d3 ++ ")")
          = Some [d1; d2; d3]).
  apply (plus_loop_take Digit _ d1 EmptyString); [exact N1|exact A1|reflexivity|].
  change (star_loop Space
            (match_here (CapturePlus Digit :: Lit "," :: Star Space
                         :: CapturePlus Digit :: [Lit ")"]))
            (w1 ++ d2 ++ "," ++ w2 ++ d3 ++ ")")
          = Some [d2; d3]).
  apply star_loop_take;
    [exact Hw1 | now apply decimal_starts_outside_space |].
  apply (plus_loop_take Digit _ d2 EmptyString); [exact N2|exact A2|reflexivity|].
  change (star_loop Space
            (match_here (CapturePlus Digit :: [Lit ")"]))
            (w2 ++ d3 ++ ")")
          = Some [d3]).
  apply star_loop_take;
    [exact Hw2 | now apply decimal_starts_outside_space |].
  apply (plus_loop_take Digit _ d3 EmptyString); [exact N3|exact A3|reflexivity|].
  reflexivity.
Qed.

Lemma digit_is_radix10 (c : ascii) :
  is_digit c = true -> is_radix_digit 10 c = true.
Proof. intros H. ascii_cases H c; reflexivity. Qed.

Lemma take_digits_decimal (d : string) :
  all_in Digit d = true -> take_digits 10 d = d.
Proof.
  induction d as [|c d IH]; [reflexivity|].
  unfold all_in. simpl. intros H. apply andb_prop in H. destruct H as [Hc Hd].
  rewrite (digit_is_radix10 c Hc). f_equal. exact (IH Hd).
Qed.

(** [parseInt] of a decimal numeral, with no radix given, is the Number value
    of the integer it denotes. *)
Lemma parseInt_decimal (d : string) :
  is_decimal d = true -> parseInt d 0 = num_of_Z (digits_value 10 d).
Proof.
  intros H. apply is_decimal_inv in H. destruct H as [Hne Hall].
  assert (Htake : take_digits 10 d = d) by now apply take_digits_decimal.
  assert (Hend : match d with
                 | EmptyString => nan
                 | _ => if Z.eqb (digits_value 10 d) 0 then zero
                        else num_of_Z (digits_value 10 d)
                 end = num_of_Z (digits_value 10 d)).
  { destruct d; [now contradiction Hne|].
    destruct (Z.eqb_spec (digits_value 10 (String a d)) 0) as [E|E];
      [rewrite E|]; reflexivity. }
  destruct d as [|c d]; [now contradiction Hne|].
  unfold all_in in Hall. simpl in Hall. apply andb_prop in Hall.
  destruct Hall as [Hc Hd].
  unfold parseInt.
  assert (Hts : trimStart (String c d) = String c d).
  { simpl. now rewrite (digit_not_space c Hc). }
  rewrite Hts. clear Hts.
  assert (Hc' := Hc).
  assert (Hsign : match String c d with
                  | String "-" rest => (true, rest)
                  | String "+" rest => (false, rest)
                  | _ => (false, String c d)
                  end = (false, String c d)).
  { ascii_cases Hc' c; reflexivity. }
  rewrite Hsign. clear Hsign. cbv beta iota zeta.
  change (negb (Z.eqb 0 0) && (Z.ltb 0 2 || Z.ltb 36 0)) with false.
  change (Z.eqb 0 0 || Z.eqb 0 16) with true.
  cbv beta iota zeta. change (if Z.eqb 0 0 then 10%Z else 0%Z) with 10%Z.
  assert (Hpre : match String c d with
                 | String "0" (String x rest) =>
                     if true && (Ascii.eqb x "x" || Ascii.eqb x "X")
                     then (16%Z, rest) else (10%Z, String c d)
                 | _ => (10%Z, String c d)
                 end = (10%Z, String c d)).
  { destruct d as [|x d'].
    - ascii_cases Hc c; reflexivity.
    - simpl in Hd. apply andb_prop in Hd. destruct Hd as [Hx _].
      assert (Hxx : Ascii.eqb x "x" || Ascii.eqb x "X" = false)
        by (ascii_cases Hx x; reflexivity).
      rewrite Hxx. ascii_cases Hc c; reflexivity. }
  rewrite Hpre. clear Hpre. rewrite Htake. exact Hend.
Qed.

(** ** [parseColor] on rgb(...) text *)

Lemma parse_rgb_decimals (d1 d2 d3 : string) :
  is_decimal d1 = true -> is_decimal d2 = true -> is_decimal d3 = true ->
  let rgb := rgb_of (digits_value 10 d1) (digits_value 10 d2)
                    (digits_value 10 d3) in
  parseColor ("rgb(" ++ d1 ++ ", " ++ d2 ++ ", " ++ d3 ++ ")")
  = Some (Return (color_of (rgbToHex rgb) rgb (rgbToHsl rgb))).
Proof.
  intros H1 H2 H3 rgb.
  unfold parseColor, parseColor_fuel.
  assert (Htrim : trim ("rgb(" ++ d1 ++ ", " ++ d2 ++ ", " ++ d3 ++ ")")
                  = ("rgb(" ++ d1 ++ ", " ++ d2 ++ ", " ++ d3 ++ ")")%string).
  { unfold trim.
    change (trimStart ("rgb(" ++ d1 ++ ", " ++ d2 ++ ", " ++ d3 ++ ")"))
      with ("rgb(" ++ d1 ++ ", " ++ d2 ++ ", " ++ d3 ++ ")")%string.
    rewrite <- !append_assoc. apply trimEnd_last. reflexivity. }
  rewrite Htrim.
  change (startsWith ("rgb(" ++ d1 ++ ", " ++ d2 ++ ", " ++ d3 ++ ")") "#")
    with false.
  cbv iota.
  pose proof (match_rgb_text d1 d2 d3 " " " " H1 H2 H3 eq_refl eq_refl) as Hm.
  change ("," ++ " " ++ d2 ++ "," ++ " " ++ d3 ++ ")")%string
    with (", " ++ d2 ++ ", " ++ d3 ++ ")")%string in Hm.
  rewrite Hm.
  cbn [group Nat.sub nth].
  rewrite (parseInt_decimal d1 H1), (parseInt_decimal d2 H2),
    (parseInt_decimal d3 H3).
  reflexivity.
Qed.

Example parseColor_rgb_999 :
  parseColor "rgb(999, 0, 0)"
  = Some (Return (color_of "#3E70000" (rgb_of 999 0 0) (hsl_of 0 (-204) 196))).
Proof. vm_compute. reflexivity. Qed.

(* ================================================================== *)
(** ** Decimal numerals and the numbers they denote *)

(* ---- numerals ---- *)

Lemma numeral_digits (u : Decimal.uint) : all_in Digit (numeral u) = true.
Proof.
  unfold all_in. induction u; cbn [numeral DecimalString.NilEmpty.string_of_uint
    list_ascii_of_string forallb]; try reflexivity; exact IHu.
Qed.

Lemma numeral_is_decimal (u : Decimal.uint) :
  u <> Decimal.Nil -> is_decimal (numeral u) = true.
Proof.
  intros Hu. unfold is_decimal. rewrite numeral_digits.
  destruct u; [now contradiction Hu| reflexivity ..].
Qed.

Lemma digits_value_from_numeral (u : Decimal.uint) :
  forall p : positive,
    digits_value_from 10 (Zpos p) (numeral u) = Zpos (Pos.of_uint_acc u p).
Proof.
  induction u; intros p;
    cbn [numeral DecimalString.NilEmpty.string_of_uint digits_value_from
         Pos.of_uint_acc];
    try reflexivity;
    match goal with
    | |- context [digit_value ?c] =>
        let v := eval vm_compute in (digit_value c) in
        change (digit_value c) with v
    end;
    cbv iota beta;
    fold (numeral u); rewrite <- IHu; f_equal; lia.
Qed.

Lemma digits_value_numeral (u : Decimal.uint) :
  digits_value 10 (numeral u) = Z.of_uint u.
Proof.
  unfold digits_value, Z.of_uint.
  induction u;
    cbn [numeral DecimalString.NilEmpty.string_of_uint digits_value_from
         Pos.of_uint];
    try reflexivity;
    match goal with
    | |- context [digit_value ?c] =>
        let v := eval vm_compute in (digit_value c) in
        change (digit_value c) with v
    end;
    cbv iota beta; fold (numeral u);
    try exact IHu;
    match goal with
    | |- digits_value_from 10 ?a _ = _ =>
        let v := eval vm_compute in a in change a with v
    end;
    rewrite digits_value_from_numeral; reflexivity.
Qed.

(* ---- integers below 2^53 are numbers ---- *)

Lemma iter_xO_value (p k : positive) :
  Zpos (Pos.iter xO p k) = (Zpos p * Zpos (Pos.iter xO 1%positive k))%Z.
Proof.
  induction k as [|k IH] using Pos.peano_ind.
  - cbn [Pos.iter]. lia.
  - rewrite !Pos.iter_succ.
    rewrite (Pos2Z.inj_xO (Pos.iter xO p k)),
      (Pos2Z.inj_xO (Pos.iter xO 1%positive k)), IH. lia.
Qed.

Lemma digits_iter_xO (p k : positive) :
  digits2_pos (Pos.iter xO p k) = (digits2_pos p + k)%positive.
Proof.
  induction k as [|k IH] using Pos.peano_ind.
  - cbn [Pos.iter digits2_pos]. lia.
  - rewrite Pos.iter_succ. cbn [digits2_pos]. rewrite IH. lia.
Qed.

Lemma digits_lower (p : positive) :
  (2 ^ (Zpos (digits2_pos p) - 1) <= Zpos p)%Z.
Proof.
  induction p as [p IH|p IH|]; cbn [digits2_pos].
  - rewrite Pos2Z.inj_succ.
    replace (Z.succ (Zpos (digits2_pos p)) - 1)%Z
      with (Z.succ (Zpos (digits2_pos p) - 1))%Z by lia.
    rewrite Z.pow_succ_r by lia. lia.
  - rewrite Pos2Z.inj_succ.
    replace (Z.succ (Zpos (digits2_pos p)) - 1)%Z
      with (Z.succ (Zpos (digits2_pos p) - 1))%Z by lia.
    rewrite Z.pow_succ_r by lia. lia.
  - reflexivity.
Qed.

Lemma digits_below (p : positive) :
  (Zpos p < 2 ^ 53)%Z -> (Zpos (digits2_pos p) <= 53)%Z.
Proof.
  intros Hp. pose proof (digits_lower p) as Hl.
  destruct (Z_le_gt_dec (Zpos (digits2_pos p)) 53) as [H|H]; [exact H|].
  assert (Hpow : (2 ^ 53 <= 2 ^ (Zpos (digits2_pos p) - 1))%Z)
    by (apply Z.pow_le_mono_r; lia).
  lia.
Qed.

Lemma round_exact (m : positive) (e : Z) :
  Zpos (digits2_pos m) = 53%Z -> (-1074 <= e <= 971)%Z ->
  binary_round_aux prec emax false (Zpos m) e loc_Exact
  = S754_finite false m e.
Proof.
  intros Hd He.
  assert (Hf : fexp prec emax (53 + e) = e)
    by (unfold fexp, emin, prec, emax; lia).
  unfold binary_round_aux, shr_fexp.
  cbn [Zdigits2 shr_record_of_loc]. rewrite Hd, Hf, Z.sub_diag.
  cbn [shr shr_m loc_of_shr_record round_nearest_even Zdigits2
       shr_record_of_loc].
  rewrite Hd, Hf, Z.sub_diag. cbn [shr shr_m].
  assert (Hle : (e <=? emax - prec)%Z = true)
    by (apply Z.leb_le; unfold prec, emax; lia).
  now rewrite Hle.
Qed.

Lemma normalize_exact (p : positive) :
  (Zpos p < 2 ^ 53)%Z ->
  exists (m : positive) (e : Z),
    binary_normalize prec emax (Zpos p) 0 false = S754_finite false m e
    /\ FloatAxioms.valid_binary (S754_finite false m e) = true
    /\ ((e = 0%Z /\ m = p)
        \/ exists k : positive,
             e = Zneg k
             /\ Zpos m = (Zpos p * Zpos (Pos.iter xO 1%positive k))%Z).
Proof.
  intros Hp. pose proof (digits_below p Hp) as Hd.
  set (d := Zpos (digits2_pos p)) in *.
  assert (Hd0 : (1 <= d)%Z) by (unfold d; lia).
  assert (Hf : fexp prec emax (d + 0) = (d - 53)%Z)
    by (unfold fexp, emin, prec, emax; lia).
  assert (Hvalid : forall (m : positive) (e : Z),
             Zpos (digits2_pos m) = 53%Z -> (-1074 <= e <= 971)%Z ->
             FloatAxioms.valid_binary (S754_finite false m e) = true).
  { intros m e Hm He. unfold FloatAxioms.valid_binary.
    cbn [SpecFloat.valid_binary]. unfold bounded, canonical_mantissa.
    rewrite Hm.
    replace (fexp prec emax (53 + e)) with e
      by (unfold fexp, emin, prec, emax; lia).
    rewrite Z.eqb_refl. apply Z.leb_le. unfold prec, emax. lia. }
  cbn [binary_normalize]. unfold binary_round. fold d. rewrite Hf.
  unfold shl_align. rewrite Z.sub_0_r.
  destruct (d - 53)%Z as [|k|k] eqn:Ek; [| lia |].
  - assert (Hd53 : Zpos (digits2_pos p) = 53%Z) by (fold d; lia).
    exists p, 0%Z. split; [now apply round_exact; [|lia]|].
    split; [apply Hvalid; [exact Hd53 | lia] | left; split; reflexivity].
  - assert (Hm : Zpos (digits2_pos (Pos.iter xO p k)) = 53%Z).
    { rewrite digits_iter_xO, Pos2Z.inj_add. fold d. lia. }
    exists (Pos.iter xO p k), (Zneg k).
    split; [apply round_exact; [exact Hm | lia]|].
    split; [apply Hvalid; [exact Hm | lia]|].
    right. exists k. split; [reflexivity | apply iter_xO_value].
Qed.

Lemma num_of_Z_exact (n : Z) :
  (0 <= n < 2 ^ 53)%Z -> carries (num_of_Z n) n.
Proof.
  intros Hn. unfold carries, exact_value, num_of_Z.
  destruct n as [|p|p]; [| |lia].
  - exists 0%Q. split; reflexivity.
  - destruct (normalize_exact p (proj2 Hn)) as (m & e & -> & Hv & Hme).
    rewrite (Prim2SF_SF2Prim _ Hv).
    destruct Hme as [[-> ->]|(k & -> & Hm)].
    + exists (inject_Z (Zpos p)). split; [reflexivity|]. reflexivity.
    + eexists. split; [reflexivity|].
      unfold Qeq. cbn [Qnum Qden inject_Z Pos.shiftl]. lia.
Qed.

(* ================================================================== *)
(** ** No range check on rgb(...) text *)

Lemma of_uint_nonneg (u : Decimal.uint) : (0 <= Z.of_uint u)%Z.
Proof. unfold Z.of_uint. lia. Qed.

Lemma parse_rgb_numerals (u1 u2 u3 : Decimal.uint) :
  u1 <> Decimal.Nil -> u2 <> Decimal.Nil -> u3 <> Decimal.Nil ->
  let rgb := rgb_of (Z.of_uint u1) (Z.of_uint u2) (Z.of_uint u3) in
  parseColor ("rgb(" ++ numeral u1 ++ ", " ++ numeral u2 ++ ", "
                ++ numeral u3 ++ ")")
  = Some (Return (color_of (rgbToHex rgb) rgb (rgbToHsl rgb))).
Proof.
  intros H1 H2 H3 rgb.
  pose proof (parse_rgb_decimals (numeral u1) (numeral u2) (numeral u3)
                (numeral_is_decimal u1 H1) (numeral_is_decimal u2 H2)
                (numeral_is_decimal u3 H3)) as Hp.
  cbv zeta in Hp. rewrite !digits_value_numeral in Hp. exact Hp.
Qed.

(** C10, as amended: [parseColor] does not validate the numbers of an
    rgb(r, g, b) text.  For all decimal numerals r, g and b, whatever their
    values and with any leading zeros, it returns the ColorInfo whose rgb
    field holds the Number values of the three numerals, with the hex and
    the hsl derived from them.  A numeral below 2^53 is carried unchanged:
    the channel is exactly that integer. *)
Theorem parseColor_rgb_unvalidated (u1 u2 u3 : Decimal.uint) :
  u1 <> Decimal.Nil -> u2 <> Decimal.Nil -> u3 <> Decimal.Nil ->
  let rgb := rgb_of (Z.of_uint u1) (Z.of_uint u2) (Z.of_uint u3) in
  parseColor ("rgb(" ++ numeral u1 ++ ", " ++ numeral u2 ++ ", "
                ++ numeral u3 ++ ")")
  = Some (Return (color_of (rgbToHex rgb) rgb (rgbToHsl rgb)))
  /\ ((Z.of_uint u1 < 2 ^ 53)%Z -> carries rgb.(r) (Z.of_uint u1))
  /\ ((Z.of_uint u2 < 2 ^ 53)%Z -> carries rgb.(g) (Z.of_uint u2))
  /\ ((Z.of_uint u3 < 2 ^ 53)%Z -> carries rgb.(b) (Z.of_uint u3)).
Proof.
  intros H1 H2 H3 rgb.
  split; [exact (parse_rgb_numerals u1 u2 u3 H1 H2 H3)|].
  repeat split; intros Hlt; apply num_of_Z_exact;
    (split; [apply of_uint_nonneg | exact Hlt]).
Qed.

(** The numeral of a concrete number, kept abstract. *)
Ltac concrete_numeral n d z u :=
  let Hn := fresh "N" u in
  let Hs := fresh "S" u in
  let Hv := fresh "V" u in
  set (u := N.to_uint n);
  assert (Hn : u <> Decimal.Nil) by (vm_compute; discriminate);
  assert (Hs : numeral u = d) by reflexivity;
  assert (Hv : Z.of_uint u = z) by reflexivity;
  clearbody u.

Lemma parseColor_rgb_unvalidated_witness :
  let rgb := rgb_of 999 0 0 in
  parseColor "rgb(999, 0, 0)"
  = Some (Return (color_of (rgbToHex rgb) rgb (rgbToHsl rgb)))
  /\ carries rgb.(r) 999 /\ carries rgb.(g) 0 /\ carries rgb.(b) 0.
Proof.
  concrete_numeral 999%N "999"%string 999%Z u1.
  concrete_numeral 0%N "0"%string 0%Z u0.
  destruct (parseColor_rgb_unvalidated u1 u0 u0 Nu1 Nu0 Nu0)
    as (P & R & G & B).
  cbv zeta in P. rewrite Su1, Su0, Vu1, Vu0 in P. rewrite Vu1 in R.
  rewrite Vu0 in G, B.
  split; [exact P|].
  repeat split; [apply R | apply G | apply B]; reflexivity.
Defined.

(** C10, as stated, fails: a numeral from 2^53 on is not always carried
    unchanged.  rgb(9007199254740993, 0, 0) is accepted with
    rgb.r = 9007199254740992. *)
Lemma parseColor_rgb_rounds :
  ~ (forall u1 u2 u3 : Decimal.uint,
        u1 <> Decimal.Nil -> u2 <> Decimal.Nil -> u3 <> Decimal.Nil ->
        exists ci : ColorInfo,
          parseColor ("rgb(" ++ numeral u1 ++ ", " ++ numeral u2 ++ ", "
                        ++ numeral u3 ++ ")")
          = Some (Return ci)
          /\ carries ci.(rgb).(r) (Z.of_uint u1)
          /\ carries ci.(rgb).(g) (Z.of_uint u2)
          /\ carries ci.(rgb).(b) (Z.of_uint u3)).
Proof.
  intros claim.
  concrete_numeral 9007199254740993%N "9007199254740993"%string
    9007199254740993%Z u1.
  concrete_numeral 0%N "0"%string 0%Z u0.
  destruct (claim u1 u0 u0 Nu1 Nu0 Nu0) as (ci & Hp & (q & Hq & Hv) & _).
  pose proof (parse_rgb_numerals u1 u0 u0 Nu1 Nu0 Nu0) as P.
  cbv zeta in P. rewrite P in Hp. injection Hp as <-.
  cbn [rgb r color_of rgb_of] in Hq. rewrite Vu1 in Hq, Hv.
  vm_compute in Hq. injection Hq as <-.
  vm_compute in Hv. discriminate Hv.
Qed.

Example parseColor_rgb_big :
  parseColor "rgb(9007199254740993, 0, 0)"
  = Some (Return (color_of "#200000000000000000"
                    (rgb_of 9007199254740992 0 0)
                    (rgbToHsl (rgb_of 9007199254740992 0 0)))).
Proof. vm_compute. reflexivity. Qed.

(* ================================================================== *)
(** ** HEX and RGB *)

Lemma hexToRgb_six (a1 a2 a3 a4 a5 a6 : ascii) :
  hexToRgb (String "#" (String a1 (String a2 (String a3 (String a4
             (String a5 (String a6 EmptyString)))))))
  = mkRGB (parseInt (String a1 (String a2 EmptyString)) 16)
          (parseInt (String a3 (String a4 EmptyString)) 16)
          (parseInt (String a5 (String a6 EmptyString)) 16).
Proof. reflexivity. Qed.

Ltac solve_hex_pair :=
  match goal with
  | |- exists c1 c2, hex_pair ?x c1 c2 =>
      let t := eval vm_compute in (toHex x) in
      match t with
      | String ?c1 (String ?c2 EmptyString) =>
          exists c1, c2; repeat split; vm_compute; reflexivity
      end
  end.

Lemma toHex_channels :
  Forall (fun x => exists c1 c2, hex_pair x c1 c2) channels.
Proof.
  cbv [channels Zrange seq map].
  repeat (apply Forall_cons; [solve_hex_pair|]).
  apply Forall_nil.
Qed.

Lemma in_channels (z : Z) : (0 <= z <= 255)%Z -> In (num_of_Z z) channels.
Proof. intros Hz. apply in_map, in_Zrange. simpl. lia. Qed.

Lemma toHex_channel (z : Z) :
  (0 <= z <= 255)%Z -> exists c1 c2, hex_pair (num_of_Z z) c1 c2.
Proof.
  intros Hz. pose proof toHex_channels as Hall.
  rewrite Forall_forall in Hall. now apply Hall, in_channels.
Qed.

Lemma rgbToHex_channels (rv gv bv : Z) :
  (0 <= rv <= 255)%Z -> (0 <= gv <= 255)%Z -> (0 <= bv <= 255)%Z ->
  is_canonical_hex (rgbToHex (rgb_of rv gv bv)) = true
  /\ hexToRgb (rgbToHex (rgb_of rv gv bv)) = rgb_of rv gv bv.
Proof.
  intros Hr Hg Hb.
  destruct (toHex_channel rv Hr) as (r1 & r2 & Er & Pr & Ur1 & Ur2).
  destruct (toHex_channel gv Hg) as (g1 & g2 & Eg & Pg & Ug1 & Ug2).
  destruct (toHex_channel bv Hb) as (b1 & b2 & Eb & Pb & Ub1 & Ub2).
  unfold rgbToHex, rgb_of. cbn [r g b]. rewrite Er, Eg, Eb.
  cbn [toUpperCase String.append].
  change (upper "#") with "#"%char.
  split.
  - cbn [is_canonical_hex String.length list_ascii_of_string forallb Nat.eqb].
    rewrite Ur1, Ur2, Ug1, Ug2, Ub1, Ub2. reflexivity.
  - rewrite hexToRgb_six, Pr, Pg, Pb. reflexivity.
Qed.

(** C2: for every RGB triple of integers in [0,255], reading back the HEX
    string of the triple gives the triple again. *)
Theorem hexToRgb_rgbToHex (rv gv bv : Z) :
  (0 <= rv <= 255)%Z -> (0 <= gv <= 255)%Z -> (0 <= bv <= 255)%Z ->
  hexToRgb (rgbToHex (rgb_of rv gv bv)) = rgb_of rv gv bv.
Proof. intros Hr Hg Hb. now apply rgbToHex_channels. Qed.

Lemma hexToRgb_rgbToHex_witness :
  hexToRgb (rgbToHex (rgb_of 18 171 255)) = rgb_of 18 171 255.
Proof. apply (hexToRgb_rgbToHex 18 171 255); lia. Defined.

Example rgbToHex_18_171_255 : rgbToHex (rgb_of 18 171 255) = "#12ABFF"%string.
Proof. vm_compute. reflexivity. Qed.

(* ================================================================== *)
(** ** [parseColor] on the four notations of red *)

(** C1: the four notations of red parse to the same ColorInfo, with hex
    "#FF0000", rgb (255, 0, 0) and hsl (0, 100, 50). *)
Theorem parseColor_red :
  parseColor "#FF0000" = Some (Return red)
  /\ parseColor "FF0000" = Some (Return red)
  /\ parseColor "rgb(255, 0, 0)" = Some (Return red)
  /\ parseColor "hsl(0, 100%, 50%)" = Some (Return red).
Proof. repeat split; vm_compute; reflexivity. Qed.

(* ================================================================== *)
(** ** Hue palettes *)

Lemma hsl_derive (c : HSL) : (derive c).(hsl) = c.
Proof. reflexivity. Qed.

Lemma hue_wrap_all : forallb hue_wrap_check (Zrange 360) = true.
Proof. vm_cast_no_check (@eq_refl bool true). Qed.

Lemma wraps_wrapped (hv delta : Z) (y : number) :
  PrimFloat.Leibniz.eqb y (num_of_Z ((hv + delta) mod 360))
  && int_below 0%float 360%float y = true ->
  wrapped_hue y.
Proof.
  intros H. apply andb_prop in H. destruct H as [E B].
  apply FloatAxioms.Leibniz.eqb_spec in E. split; [|exact B].
  exists ((hv + delta) mod 360)%Z. split; [|exact E].
  apply Z.mod_pos_bound. lia.
Qed.

Lemma hue_wraps (hv : Z) :
  (0 <= hv < 360)%Z ->
  let x := num_of_Z hv in
  (wrapped_hue ((x + 180) %% 360)
   /\ wrapped_hue ((x + -30 + 360) %% 360)
   /\ wrapped_hue ((x + 0 + 360) %% 360)
   /\ wrapped_hue ((x + 30 + 360) %% 360)
   /\ wrapped_hue ((x + 0) %% 360)
   /\ wrapped_hue ((x + 120) %% 360)
   /\ wrapped_hue ((x + 240) %% 360)
   /\ wrapped_hue ((x + 90) %% 360)
   /\ wrapped_hue ((x + 270) %% 360))%float.
Proof.
  intros Hh x. pose proof hue_wrap_all as T.
  rewrite forallb_forall in T.
  specialize (T hv (in_Zrange 360 hv ltac:(simpl; lia))).
  unfold hue_wrap_check in T. fold x in T. cbv beta zeta in T.
  do 8 (apply andb_prop in T; destruct T as [T ?]).
  repeat match goal with |- _ /\ _ => split end;
    eapply wraps_wrapped; eassumption.
Qed.

Section HuePalettes.
Variable base : ColorInfo.
Variable hv : Z.
Hypothesis hv_range : (0 <= hv < 360)%Z.
Hypothesis base_hue : base.(hsl).(h) = num_of_Z hv.

Lemma rotated_derive (x : number) :
  wrapped_hue x -> rotated base (derive (with_h base.(hsl) x)).
Proof.
  intros Hx. unfold rotated. rewrite hsl_derive. unfold with_h. cbn [h s l].
  split; [exact Hx | split; reflexivity].
Qed.

Lemma getComplementary_rotated : rotated base (getComplementary base).
Proof.
  unfold getComplementary. apply rotated_derive. rewrite base_hue.
  apply (hue_wraps hv hv_range).
Qed.

Lemma getAnalogous_rotated : Forall (rotated base) (getAnalogous base).
Proof.
  unfold getAnalogous. cbn [fold_left app]. rewrite base_hue.
  repeat apply Forall_cons; try apply Forall_nil;
    apply rotated_derive, (hue_wraps hv hv_range).
Qed.

Lemma getTriadic_rotated : Forall (rotated base) (getTriadic base).
Proof.
  unfold getTriadic. cbn [fold_left app]. rewrite base_hue.
  repeat apply Forall_cons; try apply Forall_nil;
    apply rotated_derive, (hue_wraps hv hv_range).
Qed.

Lemma getTetradic_rotated : Forall (rotated base) (getTetradic base).
Proof.
  unfold getTetradic. cbn [fold_left app]. rewrite base_hue.
  repeat apply Forall_cons; try apply Forall_nil;
    apply rotated_derive, (hue_wraps hv hv_range).
Qed.

End HuePalettes.

(** C6: for a base colour whose hue is an integer of [0,360), every colour of
    the complementary, analogous, triadic and tetradic palettes has a hue
    that is an integer of [0,360), and the saturation and lightness of the
    base. *)
Theorem hue_palettes_wrap (base : ColorInfo) (hv : Z) :
  (0 <= hv < 360)%Z -> base.(hsl).(h) = num_of_Z hv ->
  forall c : ColorInfo,
    In c (getComplementary base :: getAnalogous base
            ++ getTriadic base ++ getTetradic base) ->
    ((exists z : Z, (0 <= z < 360)%Z /\ c.(hsl).(h) = num_of_Z z)
     /\ int_below 0%float 360%float c.(hsl).(h) = true)
    /\ c.(hsl).(s) = base.(hsl).(s)
    /\ c.(hsl).(l) = base.(hsl).(l).
Proof.
  intros Hh Hb c Hin.
  assert (Hall : Forall (rotated base)
                   (getComplementary base :: getAnalogous base
                      ++ getTriadic base ++ getTetradic base)).
  { apply Forall_cons; [now apply (getComplementary_rotated base hv)|].
    apply Forall_app. split; [now apply (getAnalogous_rotated base hv)|].
    apply Forall_app. split; [now apply (getTriadic_rotated base hv)|].
    now apply (getTetradic_rotated base hv). }
  rewrite Forall_forall in Hall. exact (Hall c Hin).
Qed.

Lemma hue_palettes_wrap_witness :
  ((exists z : Z,
       (0 <= z < 360)%Z
       /\ (getComplementary (derive (hsl_of 350 80 40))).(hsl).(h) = num_of_Z z)
   /\ int_below 0%float 360%float
        (getComplementary (derive (hsl_of 350 80 40))).(hsl).(h) = true)
  /\ (getComplementary (derive (hsl_of 350 80 40))).(hsl).(s)
     = (derive (hsl_of 350 80 40)).(hsl).(s)
  /\ (getComplementary (derive (hsl_of 350 80 40))).(hsl).(l)
     = (derive (hsl_of 350 80 40)).(hsl).(l).
Proof.
  apply (hue_palettes_wrap (derive (hsl_of 350 80 40)) 350);
    [lia | reflexivity | left; reflexivity].
Defined.

Example getComplementary_red :
  getComplementary (color_of "#FF0000" (rgb_of 255 0 0) (hsl_of 0 100 50))
  = color_of "#00FFFF" (rgb_of 0 255 255) (hsl_of 180 100 50).
Proof. vm_compute. reflexivity. Qed.

Example getAnalogous_hues_350 :
  map (fun c => c.(hsl).(h)) (getAnalogous (derive (hsl_of 350 80 40)))
  = map num_of_Z [320; 350; 20]%Z.
Proof. vm_compute. reflexivity. Qed.


(* ================================================================== *)
(** ** The monochromatic palette *)

Lemma monochromatic_loop_steps (color : ColorInfo) (count step : number)
    (fuel : nat) :
  forall (i : number) (colors : list ColorInfo),
    monochromatic_loop fuel color count step i colors
    = option_map
        (fun ls => colors ++ map (fun lx => derive (with_l color.(hsl) lx)) ls)
        (lightness_steps fuel count step i).
Proof.
  induction fuel as [|fuel IH]; intros i colors; [reflexivity|].
  cbn [monochromatic_loop lightness_steps].
  destruct (i <? count)%float.
  - rewrite IH. destruct (lightness_steps fuel count step (i + 1)%float);
      cbn [option_map map]; [|reflexivity].
    now rewrite <- app_assoc.
  - cbn [option_map map]. now rewrite app_nil_r.
Qed.

Lemma lightness_steps_S (count step i : number) (fuel : nat) :
  lightness_steps (S fuel) count step i
  = if (i <? count)%float then
      option_map (cons (Math_round (10 + step * i)%float))
        (lightness_steps fuel count step (i + 1)%float)
    else Some [].
Proof. reflexivity. Qed.

Lemma lightness_steps_more (count step : number) (fuel : nat) :
  forall (i : number) (ls : list number),
    lightness_steps fuel count step i = Some ls ->
    lightness_steps (S fuel) count step i = Some ls.
Proof.
  induction fuel as [|fuel IH]; intros i ls H; [discriminate H|].
  rewrite lightness_steps_S in H. rewrite (lightness_steps_S _ _ _ (S fuel)).
  destruct (i <? count)%float; [|exact H].
  destruct (lightness_steps fuel count step (i + 1)%float) as [rest|] eqn:E;
    [|discriminate H].
  rewrite (IH _ _ E). exact H.
Qed.

Lemma lightness_steps_enough (count step i : number) (ls : list number)
    (fuel extra : nat) :
  lightness_steps fuel count step i = Some ls ->
  lightness_steps (extra + fuel) count step i = Some ls.
Proof.
  intros H. induction extra as [|extra IH]; [exact H|].
  now apply lightness_steps_more.
Qed.

Lemma lightness_steps_ramp (count : Z) :
  (3 <= count <= 10)%Z ->
  lightness_steps 12 (num_of_Z count) (80 / (num_of_Z count - 1))%float 0%float
  = Some (rounded_ramp count).
Proof.
  intros Hc.
  assert (Hcases : (count = 3 \/ count = 4 \/ count = 5 \/ count = 6
                    \/ count = 7 \/ count = 8 \/ count = 9 \/ count = 10)%Z)
    by lia.
  repeat (destruct Hcases as [->|Hcases]; [vm_compute; reflexivity|]).
  subst count. vm_compute. reflexivity.
Qed.

(** C7, as amended: for every base colour and every count from 3 to 10,
    [getMonochromatic] returns exactly [count] colours with the hue and the
    saturation of the base, whose lightness values are the linear ramp
    10 + i * 80/(count-1) rounded to the nearest integer; any fuel of 12 or
    more gives that result.  With the default count of 5 the lightness
    values are 10, 30, 50, 70, 90. *)
Theorem getMonochromatic_ramp (base : ColorInfo) (count : Z) :
  (3 <= count <= 10)%Z ->
  let palette :=
    map (fun lx => derive (with_l base.(hsl) lx)) (rounded_ramp count) in
  (forall fuel : nat,
      (12 <= fuel)%nat ->
      getMonochromatic_fuel fuel base (num_of_Z count) = Some palette)
  /\ getMonochromatic base (Some (num_of_Z count)) = Some palette
  /\ List.length palette = Z.to_nat count
  /\ Forall (fun c => c.(hsl).(h) = base.(hsl).(h)
                      /\ c.(hsl).(s) = base.(hsl).(s)) palette
  /\ getMonochromatic base None
     = Some (map (fun lx => derive (with_l base.(hsl) lx))
               (map num_of_Z [10; 30; 50; 70; 90]%Z)).
Proof.
  intros Hc palette.
  assert (Hfuel : forall fuel : nat,
             (12 <= fuel)%nat ->
             getMonochromatic_fuel fuel base (num_of_Z count) = Some palette).
  { intros fuel Hf. unfold getMonochromatic_fuel.
    rewrite monochromatic_loop_steps.
    replace fuel with ((fuel - 12) + 12)%nat by lia.
    rewrite (lightness_steps_enough _ _ _ _ 12 (fuel - 12)
               (lightness_steps_ramp count Hc)).
    reflexivity. }
  split; [exact Hfuel|]. split; [exact (Hfuel 12%nat (le_n 12))|].
  split; [|split].
  - unfold palette, rounded_ramp, Zrange.
    now rewrite !length_map, length_seq.
  - unfold palette. apply Forall_forall. intros c Hin.
    apply in_map_iff in Hin. destruct Hin as (lx & <- & _).
    rewrite hsl_derive. split; reflexivity.
  - unfold getMonochromatic, getMonochromatic_fuel.
    rewrite monochromatic_loop_steps.
    change (lightness_steps 12 5 (80 / (5 - 1)) 0)%float
      with (Some (map num_of_Z [10; 30; 50; 70; 90]%Z)).
    reflexivity.
Qed.

Lemma getMonochromatic_ramp_witness :
  let base := derive (hsl_of 210 60 40) in
  let palette :=
    map (fun lx => derive (with_l base.(hsl) lx)) (rounded_ramp 4) in
  (forall fuel : nat,
      (12 <= fuel)%nat ->
      getMonochromatic_fuel fuel base (num_of_Z 4) = Some palette)
  /\ getMonochromatic base (Some (num_of_Z 4)) = Some palette
  /\ List.length palette = Z.to_nat 4
  /\ Forall (fun c => c.(hsl).(h) = base.(hsl).(h)
                      /\ c.(hsl).(s) = base.(hsl).(s)) palette
  /\ getMonochromatic base None
     = Some (map (fun lx => derive (with_l base.(hsl) lx))
               (map num_of_Z [10; 30; 50; 70; 90]%Z)).
Proof. apply (getMonochromatic_ramp (derive (hsl_of 210 60 40)) 4); lia. Defined.

Example rounded_ramp_4 : rounded_ramp 4 = map num_of_Z [10; 37; 63; 90]%Z.
Proof. vm_compute. reflexivity. Qed.

(** C7, as stated, fails: with four samples the step 80/3 is no integer, and
    the second lightness is 37, not 10 + 80/3. *)
Lemma getMonochromatic_off_ramp :
  ~ (forall (base : ColorInfo) (count : Z),
        (3 <= count <= 10)%Z ->
        exists colors : list ColorInfo,
          getMonochromatic base (Some (num_of_Z count)) = Some colors
          /\ List.length colors = Z.to_nat count
          /\ forall (i : nat) (c : ColorInfo),
               nth_error colors i = Some c ->
               c.(hsl).(h) = base.(hsl).(h)
               /\ c.(hsl).(s) = base.(hsl).(s)
               /\ exists q : Q,
                    exact_value c.(hsl).(l) = Some q
                    /\ Qeq q (ramp count (Z.of_nat i))).
Proof.
  intros claim.
  destruct (claim (derive (hsl_of 0 100 50)) 4%Z ltac:(lia))
    as (colors & Hget & _ & Hall).
  vm_compute in Hget. injection Hget as <-.
  destruct (Hall 1%nat _ eq_refl) as (_ & _ & q & Hq & Hramp).
  vm_compute in Hq. injection Hq as <-.
  vm_compute in Hramp. discriminate Hramp.
Qed.

(* ================================================================== *)
(** ** Naming *)

Lemma hue_band_find (hx : number) :
  name_or_red (find (fun range => (hx <=? range.(max))%float) hueNames)
  = hue_band hx.
Proof.
  unfold hue_band, hueNames. cbn [find max].
  repeat (match goal with
          | |- context [(hx <=? ?m)%float] => destruct (hx <=? m)%float
          end; [reflexivity|]).
  reflexivity.
Qed.

(** C8: with a saturation below 10 [getColorName] returns the lightness band
    alone; otherwise the hue band after exactly one prefix, chosen by the
    first test that holds of l < 30, l > 70, s < 40, s > 80, or none.  Thus
    hsl(0, 0, 50) is "Gray" and hsl(0, 100, 50) is "Vivid Red". *)
Theorem getColorName_bands :
  (forall c : ColorInfo,
      getColorName c
      = if (c.(hsl).(s) <? 10)%float then lightness_band c.(hsl).(l)
        else (name_prefix c.(hsl).(s) c.(hsl).(l) ++ hue_band c.(hsl).(h))%string)
  /\ (forall (hex : string) (rgb : RGB),
        getColorName (color_of hex rgb (hsl_of 0 0 50)) = "Gray"%string
        /\ getColorName (color_of hex rgb (hsl_of 0 100 50)) = "Vivid Red"%string).
Proof.
  split.
  - intros c. unfold getColorName. rewrite hue_band_find.
    unfold lightness_band, name_prefix. reflexivity.
  - intros hex rgb. split; vm_compute; reflexivity.
Qed.

(* ================================================================== *)
(** ** The branches of [parseColor] *)

Lemma trimEnd_no_space (str : string) :
  forallb (fun c => negb (is_whitespace c)) (list_ascii_of_string str) = true ->
  trimEnd str = str.
Proof.
  induction str as [|c rest IH]; [reflexivity|].
  cbn [list_ascii_of_string forallb]. intros H. apply andb_prop in H.
  destruct H as [Hc Hrest]. apply negb_true_iff in Hc.
  cbn [trimEnd]. rewrite (IH Hrest), Hc. destruct rest; reflexivity.
Qed.

Lemma hex_digit_not_space (c : ascii) :
  is_radix_digit 16 c = true -> negb (is_whitespace c) = true.
Proof. intros H. ascii_cases H c; reflexivity. Qed.

Lemma bare_hex6_no_space (str : string) :
  is_bare_hex6 str = true ->
  forallb (fun c => negb (is_whitespace c)) (list_ascii_of_string str) = true.
Proof.
  unfold is_bare_hex6. intros H. apply andb_prop in H. destruct H as [_ H].
  rewrite forallb_forall in H |- *. intros c Hc.
  apply hex_digit_not_space. exact (H c Hc).
Qed.

Lemma trim_hash_hex6 (str : string) :
  is_bare_hex6 str = true -> trim (String "#" str) = String "#" str.
Proof.
  intros H. unfold trim. change (trimStart (String "#" str)) with (String "#" str).
  apply trimEnd_no_space. cbn [list_ascii_of_string forallb].
  now rewrite (bare_hex6_no_space str H).
Qed.

Lemma parseColor_fuel_S (fuel : nat) (color : string) :
  parseColor_fuel (S fuel) color
  = if startsWith (trim color) "#" then Some (Return (hash_result (trim color)))
    else
      match regex_match rgb_pattern (trim color) with
      | Some m => Some (Return (rgb_result m))
      | None =>
          match regex_match hsl_pattern (trim color) with
          | Some m => Some (Return (hsl_result m))
          | None =>
              if is_bare_hex6 (trim color)
              then parseColor_fuel fuel (String "#" (trim color))
              else Some InvalidFormat
          end
      end.
Proof. reflexivity. Qed.

Lemma startsWith_hash (str : string) : startsWith (String "#" str) "#" = true.
Proof. unfold startsWith. destruct str; reflexivity. Qed.

(** The call of [parseColor] on ['#' + color] returns at once. *)
Lemma parseColor_fuel_bare (fuel : nat) (text : string) :
  is_bare_hex6 text = true ->
  parseColor_fuel (S fuel) (String "#" text)
  = Some (Return (hash_result (String "#" text))).
Proof.
  intros H.
  rewrite parseColor_fuel_S, (trim_hash_hex6 text H), startsWith_hash.
  reflexivity.
Qed.

Lemma parseColor_branches (color : string) :
  parseColor color
  = if startsWith (trim color) "#" then Some (Return (hash_result (trim color)))
    else
      match regex_match rgb_pattern (trim color) with
      | Some m => Some (Return (rgb_result m))
      | None =>
          match regex_match hsl_pattern (trim color) with
          | Some m => Some (Return (hsl_result m))
          | None =>
              if is_bare_hex6 (trim color)
              then Some (Return (hash_result (String "#" (trim color))))
              else Some InvalidFormat
          end
      end.
Proof.
  unfold parseColor. rewrite parseColor_fuel_S.
  destruct (is_bare_hex6 (trim color)) eqn:E; [|reflexivity].
  now rewrite (parseColor_fuel_bare 0 _ E).
Qed.

(** ** Hexadecimal text *)

Lemma hex_digit_upper (a : ascii) :
  is_radix_digit 16 a = true -> is_upper_hex_digit (upper a) = true.
Proof. intros H. ascii_cases H a; reflexivity. Qed.

Lemma hex_pair_upper (a c : ascii) :
  is_radix_digit 16 a = true -> is_radix_digit 16 c = true ->
  parseInt (String (upper a) (String (upper c) EmptyString)) 16
  = parseInt (String a (String c EmptyString)) 16.
Proof. intros Ha Hc. ascii_cases Ha a; ascii_cases Hc c; reflexivity. Qed.

Lemma hash_hex6_result (text : string) :
  is_hash_hex6 text = true ->
  is_canonical_hex (toUpperCase text) = true
  /\ hexToRgb text = hexToRgb (toUpperCase text).
Proof.
  destruct text as [|c0 rest]; [discriminate|].
  unfold is_hash_hex6.
  destruct (Ascii.eqb_spec c0 "#") as [->|Hne];
    [|now destruct c0 as [[] [] [] [] [] [] [] []]].
  unfold is_bare_hex6. intros H. apply andb_prop in H. destruct H as [Hlen Hall].
  destruct rest as [|a1 [|a2 [|a3 [|a4 [|a5 [|a6 [|a7 rest]]]]]]];
    try discriminate Hlen.
  cbn [list_ascii_of_string forallb in_class] in Hall.
  repeat (apply andb_prop in Hall; destruct Hall as [? Hall]).
  cbn [toUpperCase]. change (upper "#") with "#"%char. split.
  - cbn [is_canonical_hex String.length list_ascii_of_string forallb Nat.eqb].
    now rewrite !hex_digit_upper.
  - rewrite !hexToRgb_six, !hex_pair_upper by assumption. reflexivity.
Qed.

(** Text of hexadecimal digits has no parenthesis, which both patterns
    need. *)
Lemma paren_not_hex (c : ascii) :
  is_radix_digit 16 c = true -> same_letter "(" c = false.
Proof. intros H. ascii_cases H c; reflexivity. Qed.

Lemma match_here_needs_paren (a1 a2 a3 : ascii) (p : regex) (str : string) :
  all_in HexDigit str = true ->
  match_here (Lit a1 :: Lit a2 :: Lit a3 :: Lit "(" :: p) str = None.
Proof.
  intros H. unfold all_in in H.
  destruct str as [|c1 [|c2 [|c3 [|c4 rest]]]]; cbn [match_here];
    repeat match goal with
           | |- (if ?t then _ else None) = None =>
               destruct t eqn:?; [|reflexivity]
           end; try reflexivity.
  cbn [list_ascii_of_string forallb in_class] in H.
  repeat (apply andb_prop in H; destruct H as [? H]).
  match goal with
  | E : same_letter "(" c4 = true |- _ =>
      rewrite paren_not_hex in E by assumption; discriminate E
  end.
Qed.

Lemma regex_match_needs_paren (a1 a2 a3 : ascii) (p : regex) (str : string) :
  all_in HexDigit str = true ->
  regex_match (Lit a1 :: Lit a2 :: Lit a3 :: Lit "(" :: p) str = None.
Proof.
  induction str as [|c rest IH]; intros H.
  - reflexivity.
  - cbn [regex_match]. rewrite (match_here_needs_paren _ _ _ _ _ H).
    apply IH. unfold all_in in H |- *.
    cbn [list_ascii_of_string forallb] in H. apply andb_prop in H. apply H.
Qed.

Lemma bare_hex6_no_pattern (text : string) :
  is_bare_hex6 text = true ->
  regex_match rgb_pattern text = None /\ regex_match hsl_pattern text = None.
Proof.
  unfold is_bare_hex6. intros H. apply andb_prop in H. destruct H as [_ H].
  split; now apply regex_match_needs_paren.
Qed.

(* ================================================================== *)
(** ** Rejection *)

(** C5, at the inputs where the code departs from it: text that begins
    with '#' is never checked.  "#GGGGGG" (no hexadecimal digit) and "#12"
    (two digits) are returned as colours with NaN channels instead of
    failing with InvalidFormat; "notacolor" does fail. *)
Theorem parseColor_hash_unchecked :
  parseColor "#GGGGGG"
  = Some (Return (color_of "#GGGGGG" (mkRGB nan nan nan)
                    (mkHSL 0%float nan nan)))
  /\ parseColor "#12"
     = Some (Return (color_of "#12" (mkRGB 18%float nan nan)
                       (mkHSL 0%float nan nan)))
  /\ parseColor "notacolor" = Some InvalidFormat.
Proof. repeat split; vm_compute; reflexivity. Qed.

(* ================================================================== *)
(** ** Acceptance and rejection by [parseColor] *)

Lemma parseColor_rejects_cases (color : string) :
  parseColor color = Some InvalidFormat
  \/ exists ci : ColorInfo, parseColor color = Some (Return ci).
Proof.
  rewrite parseColor_branches.
  destruct (startsWith (trim color) "#"); [right; eauto|].
  destruct (regex_match rgb_pattern (trim color)); [right; eauto|].
  destruct (regex_match hsl_pattern (trim color)); [right; eauto|].
  destruct (is_bare_hex6 (trim color)); [right; eauto | now left].
Qed.

(** X1: [parseColor] always ends within its two levels of calls, more fuel
    changes nothing, and the only failure is InvalidFormat, thrown exactly
    when the trimmed text neither begins with '#', nor contains a match of
    the rgb or of the hsl pattern, nor is six bare hexadecimal digits. *)
Theorem parseColor_rejects_iff (color : string) :
  (forall fuel : nat, parseColor_fuel (2 + fuel) color = parseColor color)
  /\ (parseColor color = Some InvalidFormat
      \/ exists ci : ColorInfo, parseColor color = Some (Return ci))
  /\ (parseColor color = Some InvalidFormat <->
      startsWith (trim color) "#" = false
      /\ regex_match rgb_pattern (trim color) = None
      /\ regex_match hsl_pattern (trim color) = None
      /\ is_bare_hex6 (trim color) = false).
Proof.
  split; [|split].
  - intros fuel. unfold parseColor.
    change (2 + fuel)%nat with (S (S fuel)).
    rewrite (parseColor_fuel_S (S fuel) color), (parseColor_fuel_S 1 color).
    destruct (is_bare_hex6 (trim color)) eqn:E; [|reflexivity].
    now rewrite (parseColor_fuel_bare fuel _ E), (parseColor_fuel_bare 0 _ E).
  - rewrite parseColor_branches.
    destruct (startsWith (trim color) "#"); [right; eauto|].
    destruct (regex_match rgb_pattern (trim color)); [right; eauto|].
    destruct (regex_match hsl_pattern (trim color)); [right; eauto|].
    destruct (is_bare_hex6 (trim color)); [right; eauto | now left].
  - rewrite parseColor_branches. unfold InvalidFormat.
    destruct (startsWith (trim color) "#");
      [split; [discriminate | intros (H & _); discriminate H]|].
    destruct (regex_match rgb_pattern (trim color));
      [split; [discriminate | intros (_ & H & _); discriminate H]|].
    destruct (regex_match hsl_pattern (trim color));
      [split; [discriminate | intros (_ & _ & H & _); discriminate H]|].
    destruct (is_bare_hex6 (trim color));
      [split; [discriminate | intros (_ & _ & _ & H); discriminate H]|].
    split; [now repeat split | reflexivity].
Qed.

(** ** White space around the text *)

Lemma trimStart_spaces (w str : string) :
  all_in Space w = true -> trimStart (w ++ str) = trimStart str.
Proof.
  induction w as [|c w IH]; [reflexivity|].
  unfold all_in. cbn [list_ascii_of_string forallb in_class]. intros H.
  apply andb_prop in H. destruct H as [Hc Hw].
  cbn [String.append trimStart]. rewrite Hc. exact (IH Hw).
Qed.

Lemma trimEnd_all_spaces (w : string) :
  all_in Space w = true -> trimEnd w = EmptyString.
Proof.
  induction w as [|c w IH]; [reflexivity|].
  unfold all_in. cbn [list_ascii_of_string forallb in_class]. intros H.
  apply andb_prop in H. destruct H as [Hc Hw].
  cbn [trimEnd]. now rewrite (IH Hw), Hc.
Qed.

Lemma trimEnd_spaces (str w : string) :
  all_in Space w = true -> trimEnd (str ++ w) = trimEnd str.
Proof.
  intros Hw. induction str as [|c str IH].
  - cbn [String.append trimEnd]. now apply trimEnd_all_spaces.
  - cbn [String.append trimEnd]. now rewrite IH.
Qed.

Lemma trimStart_append_spaces (str w : string) :
  all_in Space w = true ->
  exists w' : string,
    all_in Space w' = true /\ trimStart (str ++ w) = (trimStart str ++ w')%string.
Proof.
  intros Hw. induction str as [|c str IH].
  - cbn [String.append trimStart]. exists EmptyString. split; [reflexivity|].
    cbn [String.append].
    assert (H : trimStart w = EmptyString).
    { clear -Hw. induction w as [|c w IH]; [reflexivity|].
      unfold all_in in Hw. cbn [list_ascii_of_string forallb in_class] in Hw.
      apply andb_prop in Hw. destruct Hw as [Hc Hw].
      cbn [trimStart]. rewrite Hc. exact (IH Hw). }
    exact H.
  - cbn [String.append trimStart]. destruct (is_whitespace c).
    + exact IH.
    + exists w. split; [exact Hw | reflexivity].
Qed.

Lemma trim_spaces (w1 str w2 : string) :
  all_in Space w1 = true -> all_in Space w2 = true ->
  trim (w1 ++ str ++ w2) = trim str.
Proof.
  intros H1 H2. unfold trim. rewrite (trimStart_spaces _ _ H1).
  destruct (trimStart_append_spaces str w2 H2) as (w' & Hw' & ->).
  now apply trimEnd_spaces.
Qed.

(** X2: white space before and after the text is ignored. *)
Theorem parseColor_ignores_spaces (w1 color w2 : string) :
  all_in Space w1 = true -> all_in Space w2 = true ->
  parseColor (w1 ++ color ++ w2) = parseColor color.
Proof.
  intros H1 H2. rewrite !parseColor_branches.
  now rewrite (trim_spaces w1 color w2 H1 H2).
Qed.

Lemma parseColor_ignores_spaces_witness :
  parseColor ("  " ++ "hsl(210, 40%, 60%)" ++ String "009" (String "010" ""))
  = parseColor "hsl(210, 40%, 60%)".
Proof.
  apply (parseColor_ignores_spaces "  " "hsl(210, 40%, 60%)"
           (String "009" (String "010" ""))); reflexivity.
Defined.

(* ================================================================== *)
(** ** Hexadecimal text and [hexToRgb] *)

Lemma hexToRgb_three (a c e : ascii) :
  hexToRgb (String "#" (String a (String c (String e EmptyString))))
  = mkRGB (parseInt (String a (String a EmptyString)) 16)
          (parseInt (String c (String c EmptyString)) 16)
          (parseInt (String e (String e EmptyString)) 16).
Proof. reflexivity. Qed.

Lemma doubled_digit (a : ascii) :
  is_radix_digit 16 a = true ->
  parseInt (String a (String a EmptyString)) 16 = num_of_Z (17 * hex_value a)
  /\ (0 <= hex_value a <= 15)%Z.
Proof. intros H. ascii_cases H a; (split; [reflexivity | vm_compute; split; discriminate]). Qed.

(** X3: the shorthand '#' and three hexadecimal digits reads as the six-digit
    form with every digit doubled; each channel is 17 times its digit. *)
Theorem hexToRgb_shorthand (a c e : ascii) :
  is_radix_digit 16 a = true -> is_radix_digit 16 c = true ->
  is_radix_digit 16 e = true ->
  hexToRgb (String "#" (String a (String c (String e EmptyString))))
  = hexToRgb (String "#" (String a (String a (String c (String c
                (String e (String e EmptyString)))))))
  /\ hexToRgb (String "#" (String a (String c (String e EmptyString))))
     = rgb_of (17 * hex_value a) (17 * hex_value c) (17 * hex_value e)
  /\ (0 <= 17 * hex_value a <= 255)%Z /\ (0 <= 17 * hex_value c <= 255)%Z
  /\ (0 <= 17 * hex_value e <= 255)%Z.
Proof.
  intros Ha Hc He.
  destruct (doubled_digit a Ha) as [Ea Ra].
  destruct (doubled_digit c Hc) as [Ec Rc].
  destruct (doubled_digit e He) as [Ee Re].
  split; [reflexivity|]. split; [|lia].
  rewrite hexToRgb_three, Ea, Ec, Ee. reflexivity.
Qed.

Lemma hexToRgb_shorthand_witness :
  hexToRgb "#f0a" = hexToRgb "#ff00aa"
  /\ hexToRgb "#f0a" = rgb_of (17 * hex_value "f") (17 * hex_value "0")
                              (17 * hex_value "a")
  /\ (0 <= 17 * hex_value "f" <= 255)%Z /\ (0 <= 17 * hex_value "0" <= 255)%Z
  /\ (0 <= 17 * hex_value "a" <= 255)%Z.
Proof. apply (hexToRgb_shorthand "f" "0" "a"); reflexivity. Defined.

Lemma toUpperCase_append (x y : string) :
  toUpperCase (x ++ y) = (toUpperCase x ++ toUpperCase y)%string.
Proof. induction x as [|c x IH]; cbn [String.append toUpperCase]; [|rewrite IH]; reflexivity. Qed.

Lemma hex_pair_value (a c : ascii) :
  is_radix_digit 16 a = true -> is_radix_digit 16 c = true ->
  (0 <= 16 * hex_value a + hex_value c <= 255)%Z
  /\ parseInt (String a (String c EmptyString)) 16
     = num_of_Z (16 * hex_value a + hex_value c)
  /\ toUpperCase (toHex (num_of_Z (16 * hex_value a + hex_value c)))
     = String (upper a) (String (upper c) EmptyString).
Proof.
  intros Ha Hc. ascii_cases Ha a; ascii_cases Hc c;
    (split; [vm_compute; split; discriminate | split; vm_compute; reflexivity]).
Qed.

Lemma hex_text_channels (text : string) :
  is_hash_hex6 text = true ->
  rgbToHex (hexToRgb text) = toUpperCase text
  /\ exists rv gv bv : Z,
       hexToRgb text = rgb_of rv gv bv
       /\ (0 <= rv <= 255)%Z /\ (0 <= gv <= 255)%Z /\ (0 <= bv <= 255)%Z.
Proof.
  destruct text as [|c0 rest]; [discriminate|].
  unfold is_hash_hex6.
  destruct (Ascii.eqb_spec c0 "#") as [->|Hne];
    [|now destruct c0 as [[] [] [] [] [] [] [] []]].
  unfold is_bare_hex6. intros H. apply andb_prop in H. destruct H as [Hlen Hall].
  destruct rest as [|a1 [|a2 [|a3 [|a4 [|a5 [|a6 [|a7 rest]]]]]]];
    try discriminate Hlen.
  cbn [list_ascii_of_string forallb in_class] in Hall.
  repeat (apply andb_prop in Hall; destruct Hall as [? Hall]).
  destruct (hex_pair_value a1 a2) as (R1 & P1 & U1); try assumption.
  destruct (hex_pair_value a3 a4) as (R2 & P2 & U2); try assumption.
  destruct (hex_pair_value a5 a6) as (R3 & P3 & U3); try assumption.
  rewrite hexToRgb_six, P1, P2, P3. split.
  - unfold rgbToHex. cbn [r g b toUpperCase].
    rewrite !toUpperCase_append, U1, U2, U3. reflexivity.
  - exists (16 * hex_value a1 + hex_value a2)%Z,
           (16 * hex_value a3 + hex_value a4)%Z,
           (16 * hex_value a5 + hex_value a6)%Z.
    repeat split; lia.
Qed.

(** X4: the round trip HEX -> RGB -> HEX.  For '#' and six hexadecimal
    digits of either case, the channels read are integers of [0,255] and
    printing them gives the text back in upper case. *)
Theorem rgbToHex_hexToRgb (text : string) :
  is_hash_hex6 text = true ->
  rgbToHex (hexToRgb text) = toUpperCase text
  /\ exists rv gv bv : Z,
       hexToRgb text = rgb_of rv gv bv
       /\ (0 <= rv <= 255)%Z /\ (0 <= gv <= 255)%Z /\ (0 <= bv <= 255)%Z.
Proof. exact (hex_text_channels text). Qed.

Lemma rgbToHex_hexToRgb_witness :
  rgbToHex (hexToRgb "#12abFF") = toUpperCase "#12abFF"
  /\ exists rv gv bv : Z,
       hexToRgb "#12abFF" = rgb_of rv gv bv
       /\ (0 <= rv <= 255)%Z /\ (0 <= gv <= 255)%Z /\ (0 <= bv <= 255)%Z.
Proof. apply (rgbToHex_hexToRgb "#12abFF"). reflexivity. Defined.

(* ================================================================== *)
(** ** Printing a colour and parsing it again *)

Lemma upper_hex_digit_facts (u : ascii) :
  is_upper_hex_digit u = true ->
  upper u = u /\ is_radix_digit 16 u = true.
Proof. intros H. ascii_cases H u; split; reflexivity. Qed.

(** The HEX string of an in-range triple, digit by digit. *)
Lemma rgbToHex_digits (rv gv bv : Z) :
  (0 <= rv <= 255)%Z -> (0 <= gv <= 255)%Z -> (0 <= bv <= 255)%Z ->
  exists u1 u2 u3 u4 u5 u6 : ascii,
    rgbToHex (rgb_of rv gv bv)
    = String "#" (String u1 (String u2 (String u3 (String u4
                   (String u5 (String u6 EmptyString))))))
    /\ Forall (fun u => is_upper_hex_digit u = true) [u1; u2; u3; u4; u5; u6].
Proof.
  intros Hr Hg Hb.
  destruct (toHex_channel rv Hr) as (r1 & r2 & Er & _ & Ur1 & Ur2).
  destruct (toHex_channel gv Hg) as (g1 & g2 & Eg & _ & Ug1 & Ug2).
  destruct (toHex_channel bv Hb) as (b1 & b2 & Eb & _ & Ub1 & Ub2).
  exists (upper r1), (upper r2), (upper g1), (upper g2), (upper b1), (upper b2).
  split.
  - unfold rgbToHex, rgb_of. cbn [r g b]. rewrite Er, Eg, Eb. reflexivity.
  - repeat apply Forall_cons; try apply Forall_nil; assumption.
Qed.

Lemma parse_printed (rv gv bv : Z) :
  (0 <= rv <= 255)%Z -> (0 <= gv <= 255)%Z -> (0 <= bv <= 255)%Z ->
  let rgb := rgb_of rv gv bv in
  parseColor (rgbToHex rgb)
  = Some (Return (color_of (rgbToHex rgb) rgb (rgbToHsl rgb))).
Proof.
  intros Hr Hg Hb rgb.
  destruct (rgbToHex_channels rv gv bv Hr Hg Hb) as [_ Hback].
  destruct (rgbToHex_digits rv gv bv Hr Hg Hb)
    as (u1 & u2 & u3 & u4 & u5 & u6 & Ehex & Hup).
  fold rgb in Hback, Ehex.
  repeat match goal with
         | H : Forall _ (_ :: _) |- _ => inversion H; subst; clear H
         end.
  repeat match goal with
         | H : is_upper_hex_digit ?u = true |- _ =>
             apply upper_hex_digit_facts in H; destruct H as [? ?]
         end.
  assert (Hbare : is_bare_hex6
                    (String u1 (String u2 (String u3 (String u4
                       (String u5 (String u6 EmptyString)))))) = true).
  { unfold is_bare_hex6.
    cbn [String.length Nat.eqb list_ascii_of_string forallb in_class andb].
    repeat match goal with
           | H : is_radix_digit 16 _ = true |- _ => rewrite H; clear H
           end.
    reflexivity. }
  rewrite parseColor_branches, Ehex, (trim_hash_hex6 _ Hbare), startsWith_hash.
  unfold hash_result. rewrite <- Ehex, Hback.
  rewrite Ehex at 1. cbn [toUpperCase]. change (upper "#") with "#"%char.
  repeat match goal with
         | H : upper _ = _ |- _ => rewrite H; clear H
         end.
  rewrite <- Ehex. reflexivity.
Qed.

(** X5: the HEX string that [rgbToHex] prints for integers of [0,255] parses
    back, through [parseColor], to the ColorInfo of that triple. *)
Theorem parseColor_rgbToHex (rv gv bv : Z) :
  (0 <= rv <= 255)%Z -> (0 <= gv <= 255)%Z -> (0 <= bv <= 255)%Z ->
  let rgb := rgb_of rv gv bv in
  parseColor (rgbToHex rgb)
  = Some (Return (color_of (rgbToHex rgb) rgb (rgbToHsl rgb))).
Proof. exact (parse_printed rv gv bv). Qed.

Lemma parseColor_rgbToHex_witness :
  let rgb := rgb_of 18 171 255 in
  parseColor (rgbToHex rgb)
  = Some (Return (color_of (rgbToHex rgb) rgb (rgbToHsl rgb))).
Proof. apply (parseColor_rgbToHex 18 171 255); lia. Defined.

(* ================================================================== *)
(** ** The rgb pattern is not anchored *)

Lemma trimEnd_after (x y : string) (c : ascii) :
  is_whitespace c = false ->
  trimEnd (x ++ String c y) = (x ++ String c (trimEnd y))%string.
Proof.
  intros Hc. induction x as [|a x IH].
  - cbn [String.append trimEnd]. rewrite Hc. now destruct (trimEnd y).
  - cbn [String.append trimEnd]. rewrite IH. now destruct x.
Qed.

Lemma match_rgb_text_then (d1 d2 d3 w1 w2 post : string) :
  is_decimal d1 = true -> is_decimal d2 = true -> is_decimal d3 = true ->
  all_in Space w1 = true -> all_in Space w2 = true ->
  regex_match rgb_pattern
    ("rgb(" ++ d1 ++ "," ++ w1 ++ d2 ++ "," ++ w2 ++ d3 ++ String ")" post)
  = Some [d1; d2; d3].
Proof.
  intros H1 H2 H3 Hw1 Hw2. apply regex_match_here.
  pose proof (is_decimal_inv _ H1) as [N1 A1].
  pose proof (is_decimal_inv _ H2) as [N2 A2].
  pose proof (is_decimal_inv _ H3) as [N3 A3].
  change (plus_loop Digit
            (match_here (Lit "," :: Star Space :: CapturePlus Digit
                         :: Lit "," :: Star Space :: CapturePlus Digit
                         :: [Lit ")"]))
            EmptyString
            (d1 ++ "," ++ w1 ++ d2 ++ "," ++ w2 ++ d3 ++ String ")" post)
          = Some [d1; d2; d3]).
  apply (plus_loop_take Digit _ d1 EmptyString); [exact N1|exact A1|reflexivity|].
  change (star_loop Space
            (match_here (CapturePlus Digit :: Lit "," :: Star Space
                         :: CapturePlus Digit :: [Lit ")"]))
            (w1 ++ d2 ++ "," ++ w2 ++ d3 ++ String ")" post)
          = Some [d2; d3]).
  apply star_loop_take;
    [exact Hw1 | now apply decimal_starts_outside_space |].
  apply (plus_loop_take Digit _ d2 EmptyString); [exact N2|exact A2|reflexivity|].
  change (star_loop Space
            (match_here (CapturePlus Digit :: [Lit ")"]))
            (w2 ++ d3 ++ String ")" post)
          = Some [d3]).
  apply star_loop_take;
    [exact Hw2 | now apply decimal_starts_outside_space |].
  apply (plus_loop_take Digit _ d3 EmptyString); [exact N3|exact A3|reflexivity|].
  reflexivity.
Qed.

Lemma parse_rgb_text (d1 d2 d3 w1 w2 post : string) :
  is_decimal d1 = true -> is_decimal d2 = true -> is_decimal d3 = true ->
  all_in Space w1 = true -> all_in Space w2 = true ->
  let rgb := rgb_of (digits_value 10 d1) (digits_value 10 d2)
                    (digits_value 10 d3) in
  parseColor ("rgb(" ++ d1 ++ "," ++ w1 ++ d2 ++ "," ++ w2 ++ d3 ++ ")" ++ post)
  = Some (Return (color_of (rgbToHex rgb) rgb (rgbToHsl rgb))).
Proof.
  intros H1 H2 H3 Hw1 Hw2 rgb.
  rewrite parseColor_branches.
  assert (Htrim :
            trim ("rgb(" ++ d1 ++ "," ++ w1 ++ d2 ++ "," ++ w2 ++ d3 ++ ")" ++ post)
            = ("rgb(" ++ d1 ++ "," ++ w1 ++ d2 ++ "," ++ w2 ++ d3
                 ++ String ")" (trimEnd post))%string).
  { unfold trim.
    change (trimStart
              ("rgb(" ++ d1 ++ "," ++ w1 ++ d2 ++ "," ++ w2 ++ d3 ++ ")" ++ post))
      with ("rgb(" ++ d1 ++ "," ++ w1 ++ d2 ++ "," ++ w2 ++ d3
              ++ String ")" post)%string.
    rewrite <- !append_assoc. rewrite trimEnd_after by reflexivity.
    reflexivity. }
  rewrite Htrim.
  change (startsWith
            ("rgb(" ++ d1 ++ "," ++ w1 ++ d2 ++ "," ++ w2 ++ d3
               ++ String ")" (trimEnd post)) "#") with false.
  cbv iota.
  rewrite (match_rgb_text_then d1 d2 d3 w1 w2 (trimEnd post) H1 H2 H3 Hw1 Hw2).
  unfold rgb_result. cbn [group Nat.sub nth].
  rewrite (parseInt_decimal d1 H1), (parseInt_decimal d2 H2),
    (parseInt_decimal d3 H3).
  reflexivity.
Qed.

(** X6: the rgb pattern allows any white space after each comma, none
    included, and is not anchored at the end: whatever follows the closing
    parenthesis is ignored. *)
Theorem parseColor_rgb_loose (d1 d2 d3 w1 w2 post : string) :
  is_decimal d1 = true -> is_decimal d2 = true -> is_decimal d3 = true ->
  all_in Space w1 = true -> all_in Space w2 = true ->
  let rgb := rgb_of (digits_value 10 d1) (digits_value 10 d2)
                    (digits_value 10 d3) in
  parseColor ("rgb(" ++ d1 ++ "," ++ w1 ++ d2 ++ "," ++ w2 ++ d3 ++ ")" ++ post)
  = Some (Return (color_of (rgbToHex rgb) rgb (rgbToHsl rgb))).
Proof. exact (parse_rgb_text d1 d2 d3 w1 w2 post). Qed.

Lemma parseColor_rgb_loose_witness :
  let rgb := rgb_of (digits_value 10 "1") (digits_value 10 "22")
                    (digits_value 10 "003") in
  parseColor ("rgb(" ++ "1" ++ "," ++ "" ++ "22" ++ "," ++ "   " ++ "003"
                ++ ")" ++ " and more")
  = Some (Return (color_of (rgbToHex rgb) rgb (rgbToHsl rgb))).
Proof.
  apply (parseColor_rgb_loose "1" "22" "003" "" "   " " and more");
    reflexivity.
Defined.

(* ================================================================== *)
(** ** [rgbToHex] does not clamp *)

Lemma wide_channels :
  forallb wide_channel_check (Zinterval 256 3840) = true.
Proof. vm_cast_no_check (@eq_refl bool true). Qed.

Lemma length_toUpperCase (str : string) :
  String.length (toUpperCase str) = String.length str.
Proof. induction str as [|c str IH]; cbn; [|rewrite IH]; reflexivity. Qed.

Lemma length_append (x y : string) :
  String.length (x ++ y) = (String.length x + String.length y)%nat.
Proof. induction x as [|c x IH]; cbn; [|rewrite IH]; reflexivity. Qed.

(** X7: a red channel from 256 to 4095 is printed with three hexadecimal
    digits.  The HEX string then has seven digits, is not canonical, and
    its first two digits read back as another red channel. *)
Theorem rgbToHex_unclamped (rv gv bv : Z) :
  (256 <= rv <= 4095)%Z -> (0 <= gv <= 255)%Z -> (0 <= bv <= 255)%Z ->
  String.length (rgbToHex (rgb_of rv gv bv)) = 8%nat
  /\ is_canonical_hex (rgbToHex (rgb_of rv gv bv)) = false
  /\ PrimFloat.eqb (hexToRgb (rgbToHex (rgb_of rv gv bv))).(r) (num_of_Z rv)
     = false.
Proof.
  intros Hr Hg Hb.
  pose proof wide_channels as W. rewrite forallb_forall in W.
  specialize (W rv (in_Zinterval 256 3840 rv ltac:(simpl; lia))).
  unfold wide_channel_check in W.
  destruct (toHex (num_of_Z rv)) as [|c1 [|c2 [|c3 [|c4 rest]]]] eqn:Er;
    try discriminate W.
  destruct (toHex_channel gv Hg) as (g1 & g2 & Eg & _).
  destruct (toHex_channel bv Hb) as (b1 & b2 & Eb & _).
  unfold rgbToHex, rgb_of. cbn [r g b]. rewrite Er, Eg, Eb.
  cbn [toUpperCase String.append]. change (upper "#") with "#"%char.
  repeat split.
  apply negb_true_iff in W. exact W.
Qed.

Lemma rgbToHex_unclamped_witness :
  String.length (rgbToHex (rgb_of 999 0 0)) = 8%nat
  /\ is_canonical_hex (rgbToHex (rgb_of 999 0 0)) = false
  /\ PrimFloat.eqb (hexToRgb (rgbToHex (rgb_of 999 0 0))).(r) (num_of_Z 999)
     = false.
Proof. apply (rgbToHex_unclamped 999 0 0); lia. Defined.

(* ================================================================== *)
(** ** The hues of the palettes *)

Lemma with_h_same (c : HSL) : with_h c c.(h) = c.
Proof. now destruct c. Qed.

Lemma hue_rotations (hv : Z) :
  (0 <= hv < 360)%Z ->
  let x := num_of_Z hv in
  let to := fun delta : Z => num_of_Z ((hv + delta) mod 360) in
  ((x + 180) %% 360 = to 180%Z
   /\ (x + -30 + 360) %% 360 = to (-30)%Z
   /\ (x + 0 + 360) %% 360 = to 0%Z
   /\ (x + 30 + 360) %% 360 = to 30%Z
   /\ (x + 0) %% 360 = to 0%Z
   /\ (x + 120) %% 360 = to 120%Z
   /\ (x + 240) %% 360 = to 240%Z
   /\ (x + 90) %% 360 = to 90%Z
   /\ (x + 270) %% 360 = to 270%Z)%float.
Proof.
  intros Hh x to. pose proof hue_wrap_all as T.
  rewrite forallb_forall in T.
  specialize (T hv (in_Zrange 360 hv ltac:(simpl; lia))).
  unfold hue_wrap_check in T. fold x in T. cbv beta zeta in T.
  do 8 (apply andb_prop in T; destruct T as [T ?]).
  repeat match goal with
         | H : (_ && _)%bool = true |- _ =>
             apply andb_prop in H; destruct H as [H _];
             apply FloatAxioms.Leibniz.eqb_spec in H
         end.
  subst to. cbv beta. repeat split; assumption.
Qed.

Lemma palette_forms (base : ColorInfo) (hv : Z) :
  (0 <= hv < 360)%Z -> base.(hsl).(h) = num_of_Z hv ->
  let turned := fun delta : Z =>
    derive (with_h base.(hsl) (num_of_Z ((hv + delta) mod 360))) in
  getComplementary base = turned 180%Z
  /\ getAnalogous base = map turned [-30; 0; 30]%Z
  /\ getTriadic base = map turned [0; 120; 240]%Z
  /\ getTetradic base = map turned [0; 90; 180; 270]%Z.
Proof.
  intros Hh Hb turned.
  destruct (hue_rotations hv Hh)
    as (E180 & Em30 & E0' & E30 & E0 & E120 & E240 & E90 & E270).
  unfold getComplementary, getAnalogous, getTriadic, getTetradic, turned.
  cbn [fold_left app map]. rewrite Hb.
  rewrite E180, Em30, E0', E30, E0, E120, E240, E90, E270.
  repeat split.
Qed.

(** X8: the hues of the four hue palettes.  For a base hue that is an
    integer h of [0,360) the complementary colour has hue (h+180) mod 360,
    the analogous colours (h-30) mod 360, h and (h+30) mod 360, the triadic
    colours h, h+120 and h+240 modulo 360, the tetradic colours h, h+90,
    h+180 and h+270 modulo 360, each derived from the base's HSL with that
    hue. *)
Theorem palette_hues (base : ColorInfo) (hv : Z) :
  (0 <= hv < 360)%Z -> base.(hsl).(h) = num_of_Z hv ->
  let turned := fun delta : Z =>
    derive (with_h base.(hsl) (num_of_Z ((hv + delta) mod 360))) in
  getComplementary base = turned 180%Z
  /\ getAnalogous base = map turned [-30; 0; 30]%Z
  /\ getTriadic base = map turned [0; 120; 240]%Z
  /\ getTetradic base = map turned [0; 90; 180; 270]%Z.
Proof. exact (palette_forms base hv). Qed.

Lemma palette_hues_witness :
  let base := derive (hsl_of 350 80 40) in
  let turned := fun delta : Z =>
    derive (with_h base.(hsl) (num_of_Z ((350 + delta) mod 360))) in
  getComplementary base = turned 180%Z
  /\ getAnalogous base = map turned [-30; 0; 30]%Z
  /\ getTriadic base = map turned [0; 120; 240]%Z
  /\ getTetradic base = map turned [0; 90; 180; 270]%Z.
Proof.
  apply (palette_hues (derive (hsl_of 350 80 40)) 350); [lia | reflexivity].
Defined.

Lemma with_h_base (base : ColorInfo) (hv delta : Z) :
  (0 <= hv < 360)%Z -> base.(hsl).(h) = num_of_Z hv ->
  (delta mod 360 = 0)%Z ->
  with_h base.(hsl) (num_of_Z ((hv + delta) mod 360)) = base.(hsl).
Proof.
  intros Hh Hb Hd.
  rewrite Z.add_mod, Hd, Z.add_0_r, Z.mod_mod, Z.mod_small by lia.
  rewrite <- Hb. apply with_h_same.
Qed.

(** X9: the complement of the complement has the HSL value of the base (its
    RGB and HEX are derived again from that HSL value); the base's HSL value
    is kept by the middle analogous colour and by the first triadic and
    tetradic colours, and the third tetradic colour is the complement. *)
Theorem palettes_keep_base (base : ColorInfo) (hv : Z) :
  (0 <= hv < 360)%Z -> base.(hsl).(h) = num_of_Z hv ->
  getComplementary (getComplementary base) = derive base.(hsl)
  /\ nth_error (getAnalogous base) 1 = Some (derive base.(hsl))
  /\ nth_error (getTriadic base) 0 = Some (derive base.(hsl))
  /\ nth_error (getTetradic base) 0 = Some (derive base.(hsl))
  /\ nth_error (getTetradic base) 2 = Some (getComplementary base).
Proof.
  intros Hh Hb.
  destruct (palette_forms base hv Hh Hb) as (Ec & Ea & Et & Eq).
  rewrite Ea, Et, Eq, Ec. cbn [map nth_error].
  rewrite !(with_h_base base hv 0 Hh Hb eq_refl).
  repeat split.
  set (hv' := ((hv + 180) mod 360)%Z).
  assert (Hh' : (0 <= hv' < 360)%Z) by (apply Z.mod_pos_bound; lia).
  destruct (palette_forms (derive (with_h base.(hsl) (num_of_Z hv'))) hv' Hh'
              eq_refl) as (Ec' & _).
  rewrite Ec'. rewrite hsl_derive.
  replace ((hv' + 180) mod 360)%Z with hv.
  - unfold with_h. cbn [h s l]. rewrite <- Hb. now destruct (hsl base).
  - unfold hv'. rewrite Z.add_mod_idemp_l by lia.
    replace (hv + 180 + 180)%Z with (hv + 1 * 360)%Z by lia.
    rewrite Z.mod_add, Z.mod_small by lia. reflexivity.
Qed.

Lemma palettes_keep_base_witness :
  let base := derive (hsl_of 350 80 40) in
  getComplementary (getComplementary base) = derive base.(hsl)
  /\ nth_error (getAnalogous base) 1 = Some (derive base.(hsl))
  /\ nth_error (getTriadic base) 0 = Some (derive base.(hsl))
  /\ nth_error (getTetradic base) 0 = Some (derive base.(hsl))
  /\ nth_error (getTetradic base) 2 = Some (getComplementary base).
Proof.
  apply (palettes_keep_base (derive (hsl_of 350 80 40)) 350);
    [lia | reflexivity].
Defined.

(* ================================================================== *)
(** ** Grays *)

Lemma grays_all : forallb gray_check channels = true.
Proof. vm_cast_no_check (@eq_refl bool true). Qed.

Lemma getColorName_eq (c : ColorInfo) :
  getColorName c
  = if (c.(hsl).(s) <? 10)%float then lightness_band c.(hsl).(l)
    else (name_prefix c.(hsl).(s) c.(hsl).(l) ++ hue_band c.(hsl).(h))%string.
Proof.
  unfold getColorName. rewrite hue_band_find.
  unfold lightness_band, name_prefix. reflexivity.
Qed.

(** X10: a gray rgb(v, v, v), v an integer of [0,255], has hue 0,
    saturation 0 and an integer lightness of [0,100]; its name is the
    lightness band alone, one of Black, Dark Gray, Gray, Light Gray and
    White. *)
Theorem gray_is_achromatic (v : Z) (hex : string) (rgb : RGB) :
  (0 <= v <= 255)%Z ->
  let c := rgbToHsl (rgb_of v v v) in
  c.(h) = 0%float /\ c.(s) = 0%float
  /\ int_within 0%float 100%float c.(l) = true
  /\ getColorName (color_of hex rgb c) = lightness_band c.(l)
  /\ In (getColorName (color_of hex rgb c))
        ["Black"; "Dark Gray"; "Gray"; "Light Gray"; "White"]%string.
Proof.
  intros Hv c. pose proof grays_all as G. rewrite forallb_forall in G.
  specialize (G _ (in_channels v Hv)). unfold gray_check in G.
  fold (rgb_of v v v) in G. fold c in G. cbv zeta in G.
  apply andb_prop in G. destruct G as [G Hl].
  apply andb_prop in G. destruct G as [Hh Hs].
  apply FloatAxioms.Leibniz.eqb_spec in Hh, Hs.
  assert (Hn : getColorName (color_of hex rgb c) = lightness_band c.(l)).
  { rewrite getColorName_eq. cbn [hsl color_of]. rewrite Hs. reflexivity. }
  repeat split; try assumption.
  rewrite Hn. unfold lightness_band.
  repeat match goal with
         | |- context [if ?t then _ else _] => destruct t
         end; cbn [In]; auto 6.
Qed.

Lemma gray_is_achromatic_witness :
  let c := rgbToHsl (rgb_of 128 128 128) in
  c.(h) = 0%float /\ c.(s) = 0%float
  /\ int_within 0%float 100%float c.(l) = true
  /\ getColorName (color_of "#808080" (rgb_of 128 128 128) c)
     = lightness_band c.(l)
  /\ In (getColorName (color_of "#808080" (rgb_of 128 128 128) c))
        ["Black"; "Dark Gray"; "Gray"; "Light Gray"; "White"]%string.
Proof.
  apply (gray_is_achromatic 128 "#808080" (rgb_of 128 128 128)). lia.
Defined.

(* ================================================================== *)
(** ** The name of hue 360 *)

(** X11: the hue 360, which [rgbToHsl] returns for reds next to magenta, is
    named like the hue 0, whatever the saturation and the lightness: the
    last range of the table closes the wheel on "Red". *)
Theorem hue_360_named_as_0 (hex : string) (rgb : RGB) (sx lx : number) :
  getColorName (color_of hex rgb (mkHSL 360%float sx lx))
  = getColorName (color_of hex rgb (mkHSL 0%float sx lx)).
Proof. rewrite !getColorName_eq. reflexivity. Qed.

(* ================================================================== *)
(** ** The shape of the monochromatic palette *)

Lemma ramp_shapes (count : Z) :
  (3 <= count <= 10)%Z -> ramp_shape (rounded_ramp count) = true.
Proof.
  intros Hc.
  assert (Hcases : (count = 3 \/ count = 4 \/ count = 5 \/ count = 6
                    \/ count = 7 \/ count = 8 \/ count = 9 \/ count = 10)%Z)
    by lia.
  repeat (destruct Hcases as [->|Hcases]; [vm_compute; reflexivity|]).
  subst count. vm_compute. reflexivity.
Qed.

(** X12: for every count from 3 to 10 the lightness values of the
    monochromatic palette begin with 10, increase strictly and end with
    90. *)
Theorem getMonochromatic_increasing (base : ColorInfo) (count : Z) :
  (3 <= count <= 10)%Z ->
  exists palette : list ColorInfo,
    getMonochromatic base (Some (num_of_Z count)) = Some palette
    /\ ramp_shape (map (fun c => c.(hsl).(l)) palette) = true.
Proof.
  intros Hc.
  exists (map (fun lx => derive (with_l base.(hsl) lx)) (rounded_ramp count)).
  split.
  - unfold getMonochromatic, getMonochromatic_fuel.
    rewrite monochromatic_loop_steps, (lightness_steps_ramp count Hc).
    reflexivity.
  - rewrite map_map.
    rewrite (map_ext _ (fun lx => lx)); [|intros lx; reflexivity].
    rewrite map_id. now apply ramp_shapes.
Qed.

Lemma getMonochromatic_increasing_witness :
  exists palette : list ColorInfo,
    getMonochromatic (derive (hsl_of 210 60 40)) (Some (num_of_Z 7))
    = Some palette
    /\ ramp_shape (map (fun c => c.(hsl).(l)) palette) = true.
Proof.
  apply (getMonochromatic_increasing (derive (hsl_of 210 60 40)) 7). lia.
Defined.

(* ================================================================== *)
(** ** The contrast colour of the widget *)

Lemma gray_contrasts : forallb gray_contrast_check (Zrange 256) = true.
Proof. vm_cast_no_check (@eq_refl bool true). Qed.

(** X13: on the HEX string of a gray rgb(v, v, v) [getContrastColor]
    answers black ("#000000") for v >= 128 and white ("#FFFFFF") below. *)
Theorem getContrastColor_gray (v : Z) :
  (0 <= v <= 255)%Z ->
  getContrastColor (rgbToHex (rgb_of v v v))
  = (if (128 <=? v)%Z then "#000000" else "#FFFFFF")%string.
Proof.
  intros Hv. pose proof gray_contrasts as G. rewrite forallb_forall in G.
  specialize (G v (in_Zrange 256 v ltac:(simpl; lia))).
  unfold gray_contrast_check in G. now apply String.eqb_eq in G.
Qed.

Lemma getContrastColor_gray_witness :
  getContrastColor (rgbToHex (rgb_of 128 128 128))
  = (if (128 <=? 128)%Z then "#000000" else "#FFFFFF")%string.
Proof. apply (getContrastColor_gray 128). lia. Defined.

Lemma getContrastColor_three (a c e : ascii) :
  getContrastColor (String "#" (String a (String c (String e EmptyString))))
  = contrast_of (parseInt (String a (String c EmptyString)) 16)
                (parseInt (String e EmptyString) 16) nan.
Proof. reflexivity. Qed.

Lemma short_contrasts : short_contrast_check = true.
Proof. vm_cast_no_check (@eq_refl bool true). Qed.

Lemma upper_hex_char (a : ascii) :
  is_radix_digit 16 a = true -> In (upper a) hex_chars.
Proof. intros H. ascii_cases H a; cbn; auto 30. Qed.

(** X14: [parseColor] keeps a three-digit HEX text as it is, upper-cased,
    and on such a string [getContrastColor] reads no blue channel: its
    answer is white whatever the colour, "#FFF" included. *)
Theorem getContrastColor_shorthand (a c e : ascii) :
  is_radix_digit 16 a = true -> is_radix_digit 16 c = true ->
  is_radix_digit 16 e = true ->
  let text := String "#" (String a (String c (String e EmptyString))) in
  exists ci : ColorInfo,
    parseColor text = Some (Return ci)
    /\ ci.(hex) = toUpperCase text
    /\ is_canonical_hex ci.(hex) = false
    /\ getContrastColor ci.(hex) = "#FFFFFF"%string.
Proof.
  intros Ha Hc He text.
  assert (Htrim : trim text = text).
  { unfold trim, text. change (trimStart (String "#" ?x)) with (String "#" x).
    apply trimEnd_no_space.
    cbn [list_ascii_of_string forallb].
    rewrite (hex_digit_not_space a Ha), (hex_digit_not_space c Hc),
      (hex_digit_not_space e He). reflexivity. }
  exists (hash_result text). split; [|split; [|split]].
  - rewrite parseColor_branches, Htrim. unfold text at 1.
    now rewrite startsWith_hash.
  - reflexivity.
  - reflexivity.
  - unfold hash_result. cbn [hex color_of]. unfold text. cbn [toUpperCase].
    change (upper "#") with "#"%char. rewrite getContrastColor_three.
    pose proof short_contrasts as S. unfold short_contrast_check in S.
    cbv zeta in S. rewrite forallb_forall in S.
    assert (Hr : In (parseInt (String (upper a) (String (upper c) EmptyString)) 16)
                   (flat_map
                      (fun a0 => map (fun c0 => parseInt (String a0 (String c0 EmptyString)) 16)
                                     hex_chars) hex_chars)).
    { apply in_flat_map. exists (upper a). split; [now apply upper_hex_char|].
      apply (in_map (fun c0 => parseInt (String (upper a) (String c0 EmptyString)) 16)).
      now apply upper_hex_char. }
    specialize (S _ Hr). rewrite forallb_forall in S.
    assert (Hg : In (parseInt (String (upper e) EmptyString) 16)
                   (map (fun e0 => parseInt (String e0 EmptyString) 16) hex_chars)).
    { apply (in_map (fun e0 => parseInt (String e0 EmptyString) 16)).
      now apply upper_hex_char. }
    specialize (S _ Hg). now apply String.eqb_eq in S.
Qed.

Lemma getContrastColor_shorthand_witness :
  let text := "#fff"%string in
  exists ci : ColorInfo,
    parseColor text = Some (Return ci)
    /\ ci.(hex) = toUpperCase text
    /\ is_canonical_hex ci.(hex) = false
    /\ getContrastColor ci.(hex) = "#FFFFFF"%string.
Proof. apply (getContrastColor_shorthand "f" "f" "f"); reflexivity. Defined.

(* ================================================================== *)
(** ** The palette tool *)

Lemma or_number_count (samples : option Z) :
  (forall k : Z, samples = Some k -> (3 <= k <= 10)%Z) ->
  or_number (option_map num_of_Z samples) 5%float
  = num_of_Z (match samples with Some k => k | None => 5%Z end).
Proof.
  destruct samples as [k|]; [|reflexivity]. intros H.
  specialize (H k eq_refl).
  assert (Hcases : (k = 3 \/ k = 4 \/ k = 5 \/ k = 6
                    \/ k = 7 \/ k = 8 \/ k = 9 \/ k = 10)%Z) by lia.
  repeat (destruct Hcases as [->|Hcases]; [reflexivity|]).
  subst k. reflexivity.
Qed.

Lemma palette_of_size (base : ColorInfo) (text : string) (t : palette_type)
    (samples : option Z) :
  (forall k : Z, samples = Some k -> (3 <= k <= 10)%Z) ->
  exists palette : list ColorInfo,
    palette_of base (mkInput text t (option_map num_of_Z samples)) = Some palette
    /\ List.length palette = expected_size t samples
    /\ (t = complementary -> palette = [base; getComplementary base]).
Proof.
  intros Hs. unfold palette_of. cbn [type count].
  destruct t; try (eexists; split; [reflexivity|]; split;
                   [reflexivity | (discriminate || reflexivity)]).
  rewrite (or_number_count samples Hs).
  set (k := match samples with Some k => k | None => 5%Z end).
  assert (Hk : (3 <= k <= 10)%Z).
  { subst k. destruct samples as [k|]; [now apply Hs | lia]. }
  exists (map (fun lx => derive (with_l base.(hsl) lx)) (rounded_ramp k)).
  split; [|split; [|discriminate]].
  - unfold getMonochromatic, getMonochromatic_fuel.
    rewrite monochromatic_loop_steps, (lightness_steps_ramp k Hk).
    reflexivity.
  - unfold rounded_ramp, Zrange, expected_size.
    now rewrite !length_map, length_seq.
Qed.

(** X15: the palette tool on a validated input.  When the base colour
    parses, the result is no error and holds 2 colours for the
    complementary type (the base and its complement), 3 for analogous and
    triadic, 4 for tetradic, and for monochromatic the count, 5 when it is
    absent; every colour carries its name.  When the base colour is
    rejected, the result is an error whose text is the parser's message
    after "Failed to generate palette: ", and its structured content has
    neither colours nor a palette type. *)
Theorem generatePalette_result (hasWidget : bool) (input : string)
    (t : palette_type) (samples : option Z) :
  (forall k : Z, samples = Some k -> (3 <= k <= 10)%Z) ->
  exists res : ToolResult,
    generatePalette hasWidget (mkInput input t (option_map num_of_Z samples))
    = Some res
    /\ match parseColor input with
       | Some (Return base) =>
           res.(isError) = false
           /\ res.(structuredContent).(success) = true
           /\ res.(structuredContent).(paletteType) = Some (palette_type_name t)
           /\ exists palette : list ColorInfo,
               res.(structuredContent).(colors) = Some palette
               /\ List.length palette = expected_size t samples
               /\ Forall named palette
               /\ (t = complementary ->
                   palette
                   = [with_name base; with_name (getComplementary base)])
       | _ =>
           res.(isError) = true
           /\ res.(structuredContent).(success) = false
           /\ res.(structuredContent).(colors) = None
           /\ res.(structuredContent).(paletteType) = None
           /\ res.(text)
              = ("Failed to generate palette: " ++ invalid_format)%string
       end.
Proof.
  intros Hs. unfold generatePalette. cbn [baseColor].
  destruct (parseColor_rejects_cases input) as [Hbad|(base & Hok)].
  - rewrite Hbad. unfold InvalidFormat. eexists. split; [reflexivity|].
    cbn. repeat split.
  - rewrite Hok.
    destruct (palette_of_size base input t samples Hs) as (palette & Hp & Hlen & Hc).
    rewrite Hp. eexists. split; [reflexivity|].
    cbn [isError structuredContent success paletteType colors type].
    do 3 (split; [reflexivity|]).
    exists (map with_name palette). split; [reflexivity|].
    split; [now rewrite length_map|]. split.
    + apply Forall_forall. intros c Hin. apply in_map_iff in Hin.
      destruct Hin as (c0 & <- & _). reflexivity.
    + intros Ht. now rewrite (Hc Ht).
Qed.

Lemma generatePalette_result_witness :
  exists res : ToolResult,
    generatePalette true
      (mkInput "#336699" monochromatic (option_map num_of_Z (Some 4%Z)))
    = Some res
    /\ match parseColor "#336699" with
       | Some (Return base) =>
           res.(isError) = false
           /\ res.(structuredContent).(success) = true
           /\ res.(structuredContent).(paletteType)
              = Some (palette_type_name monochromatic)
           /\ exists palette : list ColorInfo,
               res.(structuredContent).(colors) = Some palette
               /\ List.length palette = expected_size monochromatic (Some 4%Z)
               /\ Forall named palette
               /\ (monochromatic = complementary ->
                   palette
                   = [with_name base; with_name (getComplementary base)])
       | _ =>
           res.(isError) = true
           /\ res.(structuredContent).(success) = false
           /\ res.(structuredContent).(colors) = None
           /\ res.(structuredContent).(paletteType) = None
           /\ res.(text)
              = ("Failed to generate palette: " ++ invalid_format)%string
       end.
Proof.
  apply (generatePalette_result true "#336699" monochromatic (Some 4%Z)).
  intros k [= <-]. lia.
Defined.

(* ================================================================== *)
(** ** Random colours *)

(** X16: a random colour is consistent.  When the three floors are channel
    integers of [0,255], the ColorInfo has a canonical HEX string that reads
    back as its rgb, an hsl of the closed domain derived from its rgb, and
    its HEX string parses back to it. *)
Theorem generateRandomColor_consistent (random1 random2 random3 : number)
    (rv gv bv : Z) :
  Math_floor (random1 * 256)%float = num_of_Z rv ->
  Math_floor (random2 * 256)%float = num_of_Z gv ->
  Math_floor (random3 * 256)%float = num_of_Z bv ->
  (0 <= rv <= 255)%Z -> (0 <= gv <= 255)%Z -> (0 <= bv <= 255)%Z ->
  let c := generateRandomColor random1 random2 random3 in
  c.(rgb) = rgb_of rv gv bv
  /\ is_canonical_hex c.(hex) = true
  /\ hexToRgb c.(hex) = c.(rgb)
  /\ c.(hsl) = rgbToHsl c.(rgb)
  /\ hsl_in_closed_domain c.(hsl) = true
  /\ parseColor c.(hex) = Some (Return c).
Proof.
  intros E1 E2 E3 Hr Hg Hb c.
  assert (Hc : c = color_of (rgbToHex (rgb_of rv gv bv)) (rgb_of rv gv bv)
                     (rgbToHsl (rgb_of rv gv bv))).
  { unfold c, generateRandomColor. rewrite E1, E2, E3. reflexivity. }
  rewrite Hc. cbn [rgb hex hsl color_of].
  destruct (rgbToHex_channels rv gv bv Hr Hg Hb) as [Hcan Hback].
  repeat split; try assumption.
  - unfold hsl_in_closed_domain.
    rewrite (hue_of_channels rv gv bv Hr Hg Hb).
    destruct (saturation_lightness_of_channels rv gv bv Hr Hg Hb) as [-> ->].
    reflexivity.
  - exact (parse_printed rv gv bv Hr Hg Hb).
Qed.

Lemma generateRandomColor_consistent_witness :
  let c := generateRandomColor 0.5%float 0.75%float 0%float in
  c.(rgb) = rgb_of 128 192 0
  /\ is_canonical_hex c.(hex) = true
  /\ hexToRgb c.(hex) = c.(rgb)
  /\ c.(hsl) = rgbToHsl c.(rgb)
  /\ hsl_in_closed_domain c.(hsl) = true
  /\ parseColor c.(hex) = Some (Return c).
Proof.
  apply (generateRandomColor_consistent 0.5%float 0.75%float 0%float
           128 192 0); (reflexivity || lia).
Defined.

(* ================================================================== *)
(** ** [hslToRgb] on the HSL domain

    The 3.7 million triples are not enumerated one by one.  A channel is
    [Math.round] of 255 times a piece of [hue2rgb]; the two flat pieces
    depend on the saturation and the lightness only, and the two sloped
    ones on them and on the turn, of which the hues 0..360 give few. *)

Section HslToRgb.
Local Open Scope float_scope.

Lemma hue2rgb_segment (p q t : number) :
  hue2rgb p q t = on_segment p q (segment_of t).
Proof.
  unfold hue2rgb, segment_of. cbv zeta.
  set (t1 := if t <? 0 then t + 1 else t).
  set (t2 := if 1 <? t1 then t1 - 1 else t1).
  destruct (t2 <? 1 / 6); [reflexivity|].
  destruct (t2 <? 1 / 2); [reflexivity|].
  destruct (t2 <? 2 / 3); reflexivity.
Qed.

Lemma hslToRgb_tones (hx sx lx : number) :
  hslToRgb (mkHSL hx sx lx)
  = let hu := hx / 360 in
    let su := sx / 100 in
    let lu := lx / 100 in
    if su =? 0 then mkRGB (channel_of lu) (channel_of lu) (channel_of lu)
    else
      let p := fst (tones su lu) in
      let q := snd (tones su lu) in
      mkRGB (channel_of (on_segment p q (segment_of (hu + 1 / 3))))
            (channel_of (on_segment p q (segment_of hu)))
            (channel_of (on_segment p q (segment_of (hu - 1 / 3)))).
Proof.
  unfold hslToRgb. cbn [h s l]. cbv zeta.
  destruct (sx / 100 =? 0); [reflexivity|].
  rewrite <- !hue2rgb_segment. reflexivity.
Qed.

End HslToRgb.

Lemma to_Z_rec_nonneg (n : nat) (i : PrimInt63.int) :
  (0 <= Uint63Axioms.to_Z_rec n i)%Z.
Proof.
  revert i. induction n as [|n IH]; intros i; cbn [Uint63Axioms.to_Z_rec];
    [lia|].
  specialize (IH (PrimInt63.lsr i 1%uint63)).
  destruct (Uint63Axioms.is_even i);
    [rewrite Z.double_spec | rewrite Z.succ_double_spec]; lia.
Qed.

Lemma integers_all : forallb integer_check (Zrange 256) = true.
Proof. vm_cast_no_check (@eq_refl bool true). Qed.

Lemma is_channel_spec (x : number) :
  is_channel x = true ->
  exists k : Z, (0 <= k <= 255)%Z /\ x = num_of_Z k.
Proof.
  unfold is_channel. cbv zeta. intros H.
  apply andb_prop in H. destruct H as [Hle Heq].
  apply FloatAxioms.Leibniz.eqb_spec in Heq.
  apply Uint63Axioms.leb_spec in Hle.
  change (Uint63Axioms.to_Z 255%uint63) with 255%Z in Hle.
  set (n := magnitude x) in *.
  assert (Hn : (0 <= Uint63Axioms.to_Z n)%Z) by apply to_Z_rec_nonneg.
  exists (Uint63Axioms.to_Z n). split; [exact (conj Hn Hle)|].
  pose proof integers_all as T. rewrite forallb_forall in T.
  assert (Hlt : (0 <= Uint63Axioms.to_Z n < Z.of_nat 256)%Z).
  { split; [exact Hn|]. apply Z.le_lt_trans with (1 := Hle). reflexivity. }
  specialize (T (Uint63Axioms.to_Z n) (in_Zrange 256 _ Hlt)).
  unfold integer_check in T. apply FloatAxioms.Leibniz.eqb_spec in T.
  rewrite <- T, Uint63Axioms.of_to_Z. exact Heq.
Qed.

Section ToneTable.
Variables rising falling units : list number.
Hypothesis table_ok : tone_table_check rising falling units = true.

Lemma tone_gray (s l : number) :
  In s units -> In l units -> (s =? 0)%float = true ->
  is_channel (channel_of l) = true.
Proof.
  intros Hs Hl E. pose proof table_ok as T. unfold tone_table_check in T.
  rewrite forallb_forall in T. specialize (T s Hs). rewrite E in T.
  rewrite forallb_forall in T. exact (T l Hl).
Qed.

Lemma tone_segment (s l : number) (sg : hue_segment) :
  In s units -> In l units -> (s =? 0)%float = false ->
  segment_in rising falling sg ->
  is_channel (channel_of (on_segment (fst (tones s l)) (snd (tones s l)) sg))
  = true.
Proof.
  intros Hs Hl E Hsg. pose proof table_ok as T. unfold tone_table_check in T.
  rewrite forallb_forall in T. specialize (T s Hs). rewrite E in T.
  rewrite forallb_forall in T. specialize (T l Hl). unfold tone_check in T.
  destruct (tones s l) as [p q]. cbn [fst snd].
  apply andb_prop in T. destruct T as [T Tf].
  apply andb_prop in T. destruct T as [T Tr].
  apply andb_prop in T. destruct T as [Tp Tq].
  destruct sg as [t| |t|]; cbn [segment_in on_segment] in Hsg |- *.
  - rewrite forallb_forall in Tr. exact (Tr t Hsg).
  - exact Tq.
  - rewrite forallb_forall in Tf. exact (Tf t Hsg).
  - exact Tp.
Qed.

End ToneTable.

Lemma tone_table :
  tone_table_check rising_turns falling_turns unit_percents = true.
Proof. vm_cast_no_check (@eq_refl bool true). Qed.

Lemma in_unit_hues (hv : Z) :
  (0 <= hv <= 360)%Z -> In (num_of_Z hv / 360)%float unit_hues.
Proof.
  intros H. unfold unit_hues.
  apply (in_map (fun hv => (num_of_Z hv / 360)%float)).
  apply in_Zrange. simpl. lia.
Qed.

Lemma in_unit_percents (v : Z) :
  (0 <= v <= 100)%Z -> In (num_of_Z v / 100)%float unit_percents.
Proof.
  intros H. unfold unit_percents.
  apply (in_map (fun v => (num_of_Z v / 100)%float)).
  apply in_Zrange. simpl. lia.
Qed.

Lemma segments_in (hu : number) (sg : hue_segment) :
  In hu unit_hues -> In sg (segments_of hu) ->
  segment_in rising_turns falling_turns sg.
Proof.
  intros Hh Hsg.
  assert (Hall : In sg (flat_map segments_of unit_hues)).
  { apply in_flat_map. exists hu. now split. }
  destruct sg as [t| |t|].
  - change (In t rising_turns). unfold rising_turns. apply dedup_In.
    apply (proj2 (in_flat_map rising_of (flat_map segments_of unit_hues) t)).
    exists (Rising t). split; [exact Hall | left; reflexivity].
  - exact I.
  - change (In t falling_turns). unfold falling_turns. apply dedup_In.
    apply (proj2 (in_flat_map falling_of (flat_map segments_of unit_hues) t)).
    exists (Falling t). split; [exact Hall | left; reflexivity].
  - exact I.
Qed.

Lemma hslToRgb_in_range (hv sv lv : Z) :
  (0 <= hv <= 360)%Z -> (0 <= sv <= 100)%Z -> (0 <= lv <= 100)%Z ->
  rgb_in_range (hslToRgb (hsl_of hv sv lv)).
Proof.
  intros Hh Hs Hl. unfold hsl_of. rewrite hslToRgb_tones. cbv zeta.
  pose proof (in_unit_hues hv Hh) as Ih.
  pose proof (in_unit_percents sv Hs) as Is.
  pose proof (in_unit_percents lv Hl) as Il.
  destruct (num_of_Z sv / 100 =? 0)%float eqn:E.
  - destruct (is_channel_spec _ (tone_gray _ _ _ tone_table _ _ Is Il E))
      as (k & Hk & ->).
    exists k, k, k. repeat split; lia.
  - assert (Hseg : forall sg, In sg (segments_of (num_of_Z hv / 360)%float) ->
                   exists k : Z, (0 <= k <= 255)%Z
                     /\ channel_of
                          (on_segment
                             (fst (tones (num_of_Z sv / 100) (num_of_Z lv / 100)))
                             (snd (tones (num_of_Z sv / 100) (num_of_Z lv / 100)))
                             sg)%float = num_of_Z k).
    { intros sg Hsg. apply is_channel_spec.
      apply (tone_segment _ _ _ tone_table _ _ sg Is Il E).
      exact (segments_in _ sg Ih Hsg). }
    destruct (Hseg _ (or_introl eq_refl)) as (k1 & H1 & ->).
    destruct (Hseg _ (or_intror (or_introl eq_refl))) as (k2 & H2 & ->).
    destruct (Hseg _ (or_intror (or_intror (or_introl eq_refl))))
      as (k3 & H3 & ->).
    exists k1, k2, k3. repeat split; lia.
Qed.

Lemma degrees_all : forallb degree_check (Zrange 361) = true.
Proof. vm_cast_no_check (@eq_refl bool true). Qed.

Lemma percents_all : forallb percent_check (Zrange 101) = true.
Proof. vm_cast_no_check (@eq_refl bool true). Qed.

Lemma hsl_of_closed_domain (hv sv lv : Z) :
  (0 <= hv <= 360)%Z -> (0 <= sv <= 100)%Z -> (0 <= lv <= 100)%Z ->
  hsl_in_closed_domain (hsl_of hv sv lv) = true.
Proof.
  intros Hh Hs Hl.
  pose proof degrees_all as D. rewrite forallb_forall in D.
  pose proof percents_all as P. rewrite forallb_forall in P.
  pose proof (D hv (in_Zrange 361 hv ltac:(simpl; lia))) as Dh.
  pose proof (P sv (in_Zrange 101 sv ltac:(simpl; lia))) as Ps.
  pose proof (P lv (in_Zrange 101 lv ltac:(simpl; lia))) as Pl.
  unfold degree_check in Dh. unfold percent_check in Ps, Pl.
  unfold hsl_in_closed_domain, hsl_of. cbn [h s l].
  now rewrite Dh, Ps, Pl.
Qed.

Lemma derive_well_formed (hv sv lv : Z) :
  (0 <= hv <= 360)%Z -> (0 <= sv <= 100)%Z -> (0 <= lv <= 100)%Z ->
  well_formed (derive (hsl_of hv sv lv)).
Proof.
  intros Hh Hs Hl. unfold well_formed, derive. cbn [hsl rgb hex color_of].
  split; [now apply hsl_of_closed_domain|].
  pose proof (hslToRgb_in_range hv sv lv Hh Hs Hl) as R.
  split; [exact R|].
  destruct R as (rv & gv & bv & -> & Hr & Hg & Hb).
  exact (rgbToHex_channels rv gv bv Hr Hg Hb).
Qed.

(** X17: [hslToRgb] on the HSL domain, the hue 360 included: for integers
    h of [0,360] and s, l of [0,100] the three channels are integers of
    [0,255], so that [rgbToHex] prints them as '#' and six upper-case
    hexadecimal digits, which [hexToRgb] reads back as the same channels. *)
Theorem hslToRgb_channels (hv sv lv : Z) :
  (0 <= hv <= 360)%Z -> (0 <= sv <= 100)%Z -> (0 <= lv <= 100)%Z ->
  let rgb := hslToRgb (hsl_of hv sv lv) in
  rgb_in_range rgb
  /\ is_canonical_hex (rgbToHex rgb) = true
  /\ hexToRgb (rgbToHex rgb) = rgb.
Proof.
  intros Hh Hs Hl rgb.
  destruct (derive_well_formed hv sv lv Hh Hs Hl) as (_ & R & C & B).
  exact (conj R (conj C B)).
Qed.

Lemma hslToRgb_channels_witness :
  let rgb := hslToRgb (hsl_of 210 50 40) in
  rgb_in_range rgb
  /\ is_canonical_hex (rgbToHex rgb) = true
  /\ hexToRgb (rgbToHex rgb) = rgb.
Proof. apply (hslToRgb_channels 210 50 40); lia. Defined.

(* ================================================================== *)
(** ** Grays *)

Lemma gray_levels_all : forallb gray_level_check (Zrange 101) = true.
Proof. vm_cast_no_check (@eq_refl bool true). Qed.

Lemma gray_backs_all : forallb gray_back_check (Zrange 101) = true.
Proof. vm_cast_no_check (@eq_refl bool true). Qed.

Lemma gray_level_range (lv : Z) :
  (0 <= lv <= 100)%Z -> (0 <= gray_level lv <= 255)%Z.
Proof.
  intros H. unfold gray_level. split.
  - apply Z.div_pos; lia.
  - assert (Hlt : ((51 * lv + 10) / 20 < 256)%Z)
      by (apply Z.div_lt_upper_bound; lia).
    lia.
Qed.

(** X18: at saturation 0 the hue is ignored, whatever number it is: the
    three channels are the gray level of the lightness, 255 l / 100 rounded
    to the nearest integer, and [rgbToHsl] takes that gray back to hue 0,
    saturation 0 and the same lightness. *)
Theorem hslToRgb_gray (hx : number) (lv : Z) :
  (0 <= lv <= 100)%Z ->
  let v := gray_level lv in
  hslToRgb (mkHSL hx 0%float (num_of_Z lv)) = rgb_of v v v
  /\ (0 <= v <= 255)%Z
  /\ rgbToHsl (hslToRgb (mkHSL hx 0%float (num_of_Z lv))) = hsl_of 0 0 lv.
Proof.
  intros Hl v.
  pose proof gray_levels_all as T. rewrite forallb_forall in T.
  specialize (T lv (in_Zrange 101 lv ltac:(simpl; lia))).
  unfold gray_level_check in T. apply FloatAxioms.Leibniz.eqb_spec in T.
  assert (E : hslToRgb (mkHSL hx 0%float (num_of_Z lv)) = rgb_of v v v).
  { rewrite hslToRgb_tones. cbv zeta.
    change (0 / 100 =? 0)%float with true. cbv iota.
    rewrite T. reflexivity. }
  split; [exact E|]. split; [now apply gray_level_range|].
  rewrite E.
  pose proof gray_backs_all as B. rewrite forallb_forall in B.
  specialize (B lv (in_Zrange 101 lv ltac:(simpl; lia))).
  unfold gray_back_check in B. cbv zeta in B. fold v in B.
  destruct (rgbToHsl (rgb_of v v v)) as [hb sb lb]. cbn [h s l] in B.
  apply andb_prop in B. destruct B as [B Bl].
  apply andb_prop in B. destruct B as [Bh Bs].
  apply FloatAxioms.Leibniz.eqb_spec in Bh, Bs, Bl. now subst.
Qed.

Lemma hslToRgb_gray_witness :
  let v := gray_level 50 in
  hslToRgb (mkHSL 123%float 0%float (num_of_Z 50)) = rgb_of v v v
  /\ (0 <= v <= 255)%Z
  /\ rgbToHsl (hslToRgb (mkHSL 123%float 0%float (num_of_Z 50)))
     = hsl_of 0 0 50.
Proof. apply (hslToRgb_gray 123%float 50). lia. Defined.

(* ================================================================== *)
(** ** The palettes keep the data model *)

Lemma palette_forms_closed (base : ColorInfo) (hv : Z) :
  (0 <= hv <= 360)%Z -> base.(hsl).(h) = num_of_Z hv ->
  let turned := fun delta : Z =>
    derive (with_h base.(hsl) (num_of_Z ((hv + delta) mod 360))) in
  getComplementary base = turned 180%Z
  /\ getAnalogous base = map turned [-30; 0; 30]%Z
  /\ getTriadic base = map turned [0; 120; 240]%Z
  /\ getTetradic base = map turned [0; 90; 180; 270]%Z.
Proof.
  intros Hh Hb.
  destruct (Z.eq_dec hv 360) as [->|Hne].
  - intros turned.
    unfold getComplementary, getAnalogous, getTriadic, getTetradic, turned.
    cbn [fold_left app map]. rewrite Hb. repeat split.
  - apply palette_forms; [lia | exact Hb].
Qed.

Lemma with_h_hsl_of (hv sv lv k : Z) :
  with_h (hsl_of hv sv lv) (num_of_Z k) = hsl_of k sv lv.
Proof. reflexivity. Qed.

Lemma with_l_hsl_of (hv sv lv k : Z) :
  with_l (hsl_of hv sv lv) (num_of_Z k) = hsl_of hv sv k.
Proof. reflexivity. Qed.

Lemma hue_palettes_well_formed (base : ColorInfo) (hv sv lv : Z) :
  (0 <= hv <= 360)%Z -> (0 <= sv <= 100)%Z -> (0 <= lv <= 100)%Z ->
  base.(hsl) = hsl_of hv sv lv ->
  well_formed (getComplementary base)
  /\ Forall well_formed (getAnalogous base)
  /\ Forall well_formed (getTriadic base)
  /\ Forall well_formed (getTetradic base).
Proof.
  intros Hh Hs Hl Hb.
  assert (Hhue : base.(hsl).(h) = num_of_Z hv) by now rewrite Hb.
  destruct (palette_forms_closed base hv Hh Hhue) as (-> & -> & -> & ->).
  rewrite Hb. cbn [map]. rewrite !with_h_hsl_of.
  assert (W : forall delta : Z,
             well_formed (derive (hsl_of ((hv + delta) mod 360) sv lv))).
  { intros delta. apply derive_well_formed; [|exact Hs|exact Hl].
    pose proof (Z.mod_pos_bound (hv + delta) 360 ltac:(lia)). lia. }
  repeat split; repeat (apply Forall_cons; [apply W|]);
    try apply Forall_nil; apply W.
Qed.

Lemma ramp_levels_all : forallb ramp_level_check (Zinterval 3 8) = true.
Proof. vm_compute. reflexivity. Qed.

Lemma monochromatic_well_formed (base : ColorInfo) (hv sv lv count : Z) :
  (0 <= hv <= 360)%Z -> (0 <= sv <= 100)%Z -> (0 <= lv <= 100)%Z ->
  (3 <= count <= 10)%Z -> base.(hsl) = hsl_of hv sv lv ->
  exists palette : list ColorInfo,
    getMonochromatic base (Some (num_of_Z count)) = Some palette
    /\ Forall well_formed palette.
Proof.
  intros Hh Hs Hl Hc Hb.
  exists (map (fun lx => derive (with_l base.(hsl) lx)) (rounded_ramp count)).
  split.
  - unfold getMonochromatic, getMonochromatic_fuel.
    rewrite monochromatic_loop_steps, (lightness_steps_ramp count Hc).
    reflexivity.
  - pose proof ramp_levels_all as T. rewrite forallb_forall in T.
    specialize (T count (in_Zinterval 3 8 count ltac:(simpl; lia))).
    unfold ramp_level_check in T. rewrite forallb_forall in T.
    unfold rounded_ramp. rewrite map_map. apply Forall_forall.
    intros c Hin. apply in_map_iff in Hin. destruct Hin as (i & <- & Hi).
    specialize (T i Hi). cbv zeta in T.
    apply andb_prop in T. destruct T as [T0 T1].
    apply Z.leb_le in T0, T1.
    rewrite Hb, with_l_hsl_of. now apply derive_well_formed.
Qed.

(** X19: the palettes keep the data model.  From a base whose HSL value is
    in the domain (the hue 360 included), every colour of the
    complementary, analogous, triadic and tetradic palettes, and of the
    monochromatic palette of 3 to 10 samples, has an HSL value of the
    domain, integer channels of [0,255] and the canonical HEX string of
    those channels. *)
Theorem palettes_well_formed (base : ColorInfo) (hv sv lv count : Z) :
  (0 <= hv <= 360)%Z -> (0 <= sv <= 100)%Z -> (0 <= lv <= 100)%Z ->
  (3 <= count <= 10)%Z -> base.(hsl) = hsl_of hv sv lv ->
  well_formed (getComplementary base)
  /\ Forall well_formed (getAnalogous base)
  /\ Forall well_formed (getTriadic base)
  /\ Forall well_formed (getTetradic base)
  /\ exists palette : list ColorInfo,
       getMonochromatic base (Some (num_of_Z count)) = Some palette
       /\ Forall well_formed palette.
Proof.
  intros Hh Hs Hl Hc Hb.
  destruct (hue_palettes_well_formed base hv sv lv Hh Hs Hl Hb)
    as (Wc & Wa & Wt & Wq).
  repeat (split; [assumption|]).
  now apply (monochromatic_well_formed base hv sv lv count).
Qed.

Lemma palettes_well_formed_witness :
  let base := derive (hsl_of 360 80 40) in
  well_formed (getComplementary base)
  /\ Forall well_formed (getAnalogous base)
  /\ Forall well_formed (getTriadic base)
  /\ Forall well_formed (getTetradic base)
  /\ exists palette : list ColorInfo,
       getMonochromatic base (Some (num_of_Z 4)) = Some palette
       /\ Forall well_formed palette.
Proof.
  apply (palettes_well_formed (derive (hsl_of 360 80 40)) 360 80 40 4);
    (lia || reflexivity).
Defined.

(* ================================================================== *)
(** ** [parseColor] on hsl(...) text *)

Lemma free_of_append (a : ascii) (x y : string) :
  free_of a (x ++ y) = free_of a x && free_of a y.
Proof.
  unfold free_of. induction x as [|c x IH]; [reflexivity|].
  cbn [String.append list_ascii_of_string forallb]. now rewrite IH, andb_assoc.
Qed.

Lemma digit_not_r (c : ascii) : is_digit c = true -> same_letter "r" c = false.
Proof. intros H. ascii_cases H c; reflexivity. Qed.

Lemma space_not_r (c : ascii) :
  is_whitespace c = true -> same_letter "r" c = false.
Proof. intros H. ascii_cases H c; reflexivity. Qed.

Lemma free_of_class (k : char_class) (str : string) :
  (forall c : ascii, in_class k c = true -> same_letter "r" c = false) ->
  all_in k str = true -> free_of "r" str = true.
Proof.
  intros Hk. unfold all_in, free_of.
  induction (list_ascii_of_string str) as [|c cs IH]; [reflexivity|].
  cbn [forallb]. intros H. apply andb_prop in H. destruct H as [Hc Hcs].
  now rewrite (Hk c Hc), (IH Hcs).
Qed.

Lemma regex_match_free (a : ascii) (p : regex) (str : string) :
  free_of a str = true -> regex_match (Lit a :: p) str = None.
Proof.
  unfold free_of. induction str as [|c rest IH]; [reflexivity|].
  cbn [list_ascii_of_string forallb]. intros H.
  apply andb_prop in H. destruct H as [Hc Hrest].
  apply negb_true_iff in Hc.
  cbn [regex_match match_here]. rewrite Hc. exact (IH Hrest).
Qed.

Lemma match_hsl_text (d1 d2 d3 w1 w2 : string) :
  is_decimal d1 = true -> is_decimal d2 = true -> is_decimal d3 = true ->
  all_in Space w1 = true -> all_in Space w2 = true ->
  regex_match hsl_pattern
    ("hsl(" ++ d1 ++ "," ++ w1 ++ d2 ++ "%," ++ w2 ++ d3 ++ "%)")
  = Some [d1; d2; d3].
Proof.
  intros H1 H2 H3 Hw1 Hw2. apply regex_match_here.
  pose proof (is_decimal_inv _ H1) as [N1 A1].
  pose proof (is_decimal_inv _ H2) as [N2 A2].
  pose proof (is_decimal_inv _ H3) as [N3 A3].
  change (plus_loop Digit
            (match_here (Lit "," :: Star Space :: CapturePlus Digit
                         :: Lit "%" :: Lit "," :: Star Space
                         :: CapturePlus Digit :: Lit "%" :: [Lit ")"]))
            EmptyString
            (d1 ++ "," ++ w1 ++ d2 ++ "%," ++ w2 ++ d3 ++ "%)")
          = Some [d1; d2; d3]).
  apply (plus_loop_take Digit _ d1 EmptyString); [exact N1|exact A1|reflexivity|].
  change (star_loop Space
            (match_here (CapturePlus Digit :: Lit "%" :: Lit "," :: Star Space
                         :: CapturePlus Digit :: Lit "%" :: [Lit ")"]))
            (w1 ++ d2 ++ "%," ++ w2 ++ d3 ++ "%)")
          = Some [d2; d3]).
  apply star_loop_take;
    [exact Hw1 | now apply decimal_starts_outside_space |].
  apply (plus_loop_take Digit _ d2 EmptyString); [exact N2|exact A2|reflexivity|].
  change (star_loop Space
            (match_here (CapturePlus Digit :: Lit "%" :: [Lit ")"]))
            (w2 ++ d3 ++ "%)")
          = Some [d3]).
  apply star_loop_take;
    [exact Hw2 | now apply decimal_starts_outside_space |].
  apply (plus_loop_take Digit _ d3 EmptyString); [exact N3|exact A3|reflexivity|].
  reflexivity.
Qed.

Lemma hsl_text_not_rgb (d1 d2 d3 w1 w2 : string) :
  all_in Digit d1 = true -> all_in Digit d2 = true -> all_in Digit d3 = true ->
  all_in Space w1 = true -> all_in Space w2 = true ->
  regex_match rgb_pattern
    ("hsl(" ++ d1 ++ "," ++ w1 ++ d2 ++ "%," ++ w2 ++ d3 ++ "%)")
  = None.
Proof.
  intros A1 A2 A3 Hw1 Hw2.
  apply (regex_match_free "r"). rewrite !free_of_append.
  rewrite (free_of_class Digit d1 digit_not_r A1),
    (free_of_class Digit d2 digit_not_r A2),
    (free_of_class Digit d3 digit_not_r A3),
    (free_of_class Space w1 space_not_r Hw1),
    (free_of_class Space w2 space_not_r Hw2).
  reflexivity.
Qed.

Lemma parse_hsl_text (d1 d2 d3 w1 w2 : string) :
  is_decimal d1 = true -> is_decimal d2 = true -> is_decimal d3 = true ->
  all_in Space w1 = true -> all_in Space w2 = true ->
  parseColor ("hsl(" ++ d1 ++ "," ++ w1 ++ d2 ++ "%," ++ w2 ++ d3 ++ "%)")
  = Some (Return (derive (hsl_of (digits_value 10 d1) (digits_value 10 d2)
                                 (digits_value 10 d3)))).
Proof.
  intros H1 H2 H3 Hw1 Hw2.
  pose proof (is_decimal_inv _ H1) as [_ A1].
  pose proof (is_decimal_inv _ H2) as [_ A2].
  pose proof (is_decimal_inv _ H3) as [_ A3].
  rewrite parseColor_branches.
  assert (Htrim :
            trim ("hsl(" ++ d1 ++ "," ++ w1 ++ d2 ++ "%," ++ w2 ++ d3 ++ "%)")
            = ("hsl(" ++ d1 ++ "," ++ w1 ++ d2 ++ "%," ++ w2 ++ d3 ++ "%)")%string).
  { unfold trim.
    change (trimStart
              ("hsl(" ++ d1 ++ "," ++ w1 ++ d2 ++ "%," ++ w2 ++ d3 ++ "%)"))
      with ("hsl(" ++ d1 ++ "," ++ w1 ++ d2 ++ "%," ++ w2 ++ d3 ++ "%)")%string.
    change "%)"%string with ("%" ++ ")")%string.
    rewrite <- !append_assoc. apply trimEnd_last. reflexivity. }
  rewrite Htrim.
  change (startsWith
            ("hsl(" ++ d1 ++ "," ++ w1 ++ d2 ++ "%," ++ w2 ++ d3 ++ "%)") "#")
    with false.
  cbv iota.
  rewrite (hsl_text_not_rgb d1 d2 d3 w1 w2 A1 A2 A3 Hw1 Hw2),
    (match_hsl_text d1 d2 d3 w1 w2 H1 H2 H3 Hw1 Hw2).
  unfold hsl_result. cbn [group Nat.sub nth].
  rewrite (parseInt_decimal d1 H1), (parseInt_decimal d2 H2),
    (parseInt_decimal d3 H3).
  reflexivity.
Qed.

Lemma digit_value_nonneg (c : ascii) (d : Z) :
  digit_value c = Some d -> (0 <= d)%Z.
Proof.
  unfold digit_value. intros H.
  destruct (is_digit c); [injection H as <-; lia|].
  destruct (is_lower c); [injection H as <-; lia|].
  destruct (is_upper c); [injection H as <-; lia | discriminate H].
Qed.

Lemma digits_value_nonneg (d : string) : (0 <= digits_value 10 d)%Z.
Proof.
  unfold digits_value.
  assert (H : forall acc : Z, (0 <= acc)%Z ->
                              (0 <= digits_value_from 10 acc d)%Z).
  { induction d as [|c d IH]; intros acc Hacc; cbn [digits_value_from];
      [exact Hacc|].
    destruct (digit_value c) as [v|] eqn:E; [|exact Hacc].
    apply IH. pose proof (digit_value_nonneg c v E). lia. }
  apply H. lia.
Qed.

(** X20: [parseColor] on hsl(h, s%, l%) text, with any white space after
    the commas.  The numbers are not validated: the ColorInfo holds them as
    its hsl, with the rgb and the hex derived from them.  When they are in
    the domain (h up to 360, s and l up to 100) the channels are integers of
    [0,255] and the hex is their canonical HEX string. *)
Theorem parseColor_hsl_text (d1 d2 d3 w1 w2 : string) :
  is_decimal d1 = true -> is_decimal d2 = true -> is_decimal d3 = true ->
  all_in Space w1 = true -> all_in Space w2 = true ->
  let hsl := hsl_of (digits_value 10 d1) (digits_value 10 d2)
                    (digits_value 10 d3) in
  parseColor ("hsl(" ++ d1 ++ "," ++ w1 ++ d2 ++ "%," ++ w2 ++ d3 ++ "%)")
  = Some (Return (derive hsl))
  /\ ((digits_value 10 d1 <= 360)%Z -> (digits_value 10 d2 <= 100)%Z ->
      (digits_value 10 d3 <= 100)%Z -> well_formed (derive hsl)).
Proof.
  intros H1 H2 H3 Hw1 Hw2 hsl.
  split; [now apply parse_hsl_text|].
  intros Hh Hs Hl.
  apply derive_well_formed;
    (split; [now apply digits_value_nonneg | assumption]).
Qed.

Lemma parseColor_hsl_text_witness :
  let hsl := hsl_of (digits_value 10 "210") (digits_value 10 "50")
                    (digits_value 10 "40") in
  parseColor ("hsl(" ++ "210" ++ "," ++ " " ++ "50" ++ "%," ++ " " ++ "40" ++ "%)")
  = Some (Return (derive hsl))
  /\ well_formed (derive hsl).
Proof.
  destruct (parseColor_hsl_text "210" "50" "40" " " " "
              eq_refl eq_refl eq_refl eq_refl eq_refl) as [P W].
  split; [exact P | apply W; apply Z.leb_le; reflexivity].
Defined.

(* ================================================================== *)
(** ** The palette tool keeps the data model *)

Lemma with_name_well_formed (c : ColorInfo) :
  well_formed c -> well_formed (with_name c) /\ named (with_name c).
Proof. intros W. split; [exact W | reflexivity]. Qed.

Lemma palette_of_well_formed (base : ColorInfo) (input : string)
    (t : palette_type) (samples : option Z) (hv sv lv : Z) :
  (forall k : Z, samples = Some k -> (3 <= k <= 10)%Z) ->
  well_formed base -> base.(hsl) = hsl_of hv sv lv ->
  (0 <= hv <= 360)%Z -> (0 <= sv <= 100)%Z -> (0 <= lv <= 100)%Z ->
  exists palette : list ColorInfo,
    palette_of base (mkInput input t (option_map num_of_Z samples))
    = Some palette
    /\ Forall well_formed palette.
Proof.
  intros Hk Wb Hb Hh Hs Hl.
  destruct (hue_palettes_well_formed base hv sv lv Hh Hs Hl Hb)
    as (Wc & Wa & Wt & Wq).
  unfold palette_of. cbn [type count].
  destruct t.
  - eexists. split; [reflexivity|].
    apply Forall_cons; [exact Wb|].
    apply Forall_cons; [exact Wc | apply Forall_nil].
  - eexists. split; [reflexivity | exact Wa].
  - eexists. split; [reflexivity | exact Wt].
  - rewrite (or_number_count samples Hk).
    apply (monochromatic_well_formed base hv sv lv _ Hh Hs Hl); [|exact Hb].
    destruct samples as [k|]; [now apply Hk | lia].
  - eexists. split; [reflexivity | exact Wq].
Qed.

(** X21: the palette tool keeps the data model.  On a validated input whose
    base colour parses to a ColorInfo of the data model, every colour of
    the structured content has an HSL value of the domain, integer channels
    of [0,255], the canonical HEX string of those channels, and its
    name. *)
Theorem generatePalette_well_formed (hasWidget : bool) (input : string)
    (t : palette_type) (samples : option Z) (base : ColorInfo)
    (hv sv lv : Z) :
  (forall k : Z, samples = Some k -> (3 <= k <= 10)%Z) ->
  parseColor input = Some (Return base) ->
  well_formed base -> base.(hsl) = hsl_of hv sv lv ->
  (0 <= hv <= 360)%Z -> (0 <= sv <= 100)%Z -> (0 <= lv <= 100)%Z ->
  exists (res : ToolResult) (palette : list ColorInfo),
    generatePalette hasWidget (mkInput input t (option_map num_of_Z samples))
    = Some res
    /\ res.(isError) = false
    /\ res.(structuredContent).(colors) = Some palette
    /\ Forall (fun c => well_formed c /\ named c) palette.
Proof.
  intros Hk Hp Wb Hb Hh Hs Hl.
  destruct (palette_of_well_formed base input t samples hv sv lv
              Hk Wb Hb Hh Hs Hl) as (palette & Epal & Wpal).
  unfold generatePalette. cbn [baseColor]. rewrite Hp, Epal.
  eexists. exists (map with_name palette).
  split; [reflexivity|]. split; [reflexivity|]. split; [reflexivity|].
  apply Forall_forall. intros c Hin. apply in_map_iff in Hin.
  destruct Hin as (c0 & <- & Hin0).
  apply with_name_well_formed.
  rewrite Forall_forall in Wpal. now apply Wpal.
Qed.

Lemma generatePalette_well_formed_witness :
  exists (res : ToolResult) (palette : list ColorInfo),
    generatePalette false
      (mkInput "hsl(210, 50%, 40%)" tetradic (option_map num_of_Z None))
    = Some res
    /\ res.(isError) = false
    /\ res.(structuredContent).(colors) = Some palette
    /\ Forall (fun c => well_formed c /\ named c) palette.
Proof.
  apply (generatePalette_well_formed false "hsl(210, 50%, 40%)" tetradic None
           (derive (hsl_of 210 50 40)) 210 50 40);
    try lia; try discriminate.
  - exact (parse_hsl_text "210" "50" "40" " " " "
             eq_refl eq_refl eq_refl eq_refl eq_refl).
  - apply derive_well_formed; lia.
  - reflexivity.
Defined.

(* ================================================================== *)
(** ** The ColorInfo that [parseColor] builds *)

Lemma hsl_text_branch (u1 u2 u3 : Decimal.uint) (w1 w2 : string) :
  u1 <> Decimal.Nil -> u2 <> Decimal.Nil -> u3 <> Decimal.Nil ->
  all_in Space w1 = true -> all_in Space w2 = true ->
  startsWith (hsl_text_of u1 u2 u3 w1 w2) "#" = false
  /\ regex_match rgb_pattern (hsl_text_of u1 u2 u3 w1 w2) = None
  /\ regex_match hsl_pattern (hsl_text_of u1 u2 u3 w1 w2)
     = Some [numeral u1; numeral u2; numeral u3].
Proof.
  intros N1 N2 N3 Hw1 Hw2. split; [reflexivity|]. split.
  - apply hsl_text_not_rgb; try assumption; apply numeral_digits.
  - apply match_hsl_text; try assumption; now apply numeral_is_decimal.
Qed.

Lemma hsl_result_numerals (u1 u2 u3 : Decimal.uint) :
  u1 <> Decimal.Nil -> u2 <> Decimal.Nil -> u3 <> Decimal.Nil ->
  (hsl_result [numeral u1; numeral u2; numeral u3]).(hsl)
  = hsl_of (Z.of_uint u1) (Z.of_uint u2) (Z.of_uint u3).
Proof.
  intros N1 N2 N3. unfold hsl_result. cbn [hsl color_of group Nat.sub nth].
  rewrite !parseInt_decimal by now apply numeral_is_decimal.
  now rewrite !digits_value_numeral.
Qed.

Lemma not_hash_hex6 (text : string) :
  startsWith text "#" = false -> is_hash_hex6 text = false.
Proof.
  intros Hhash. destruct text as [|c0 rest]; [reflexivity|].
  unfold startsWith in Hhash. cbn [String.prefix] in Hhash.
  destruct (ascii_dec "#" c0) as [<-|Hne].
  - destruct rest; discriminate Hhash.
  - unfold is_hash_hex6.
    destruct c0 as [[] [] [] [] [] [] [] []]; try reflexivity.
    now contradiction Hne.
Qed.

Lemma hash_not_bare_hex6 (text : string) :
  startsWith text "#" = true -> is_bare_hex6 text = false.
Proof.
  intros Hhash. destruct text as [|c0 rest]; [reflexivity|].
  unfold startsWith in Hhash. cbn [String.prefix] in Hhash.
  destruct (ascii_dec "#" c0) as [<-|]; [|discriminate Hhash].
  unfold is_bare_hex6. cbn [list_ascii_of_string forallb in_class].
  change (is_radix_digit 16 "#") with false. cbn [andb].
  now rewrite andb_false_r.
Qed.



(** The invariant pins the hsl field: for the text hsl(200, 50%, 0%) it
    refuses a ColorInfo derived from another triple. *)
Example parse_invariant_pins_hsl :
  ~ parse_invariant "hsl(200, 50%, 0%)" (derive (hsl_of 7 7 7)).
Proof.
  intros (_ & _ & H & _).
  concrete_numeral 200%N "200"%string 200%Z u1.
  concrete_numeral 50%N "50"%string 50%Z u2.
  concrete_numeral 0%N "0"%string 0%Z u3.
  assert (Ht : trim "hsl(200, 50%, 0%)" = hsl_text_of u1 u2 u3 " " " ").
  { unfold hsl_text_of. rewrite Su1, Su2, Su3. reflexivity. }
  destruct (H u1 u2 u3 " "%string " "%string Nu1 Nu2 Nu3 eq_refl eq_refl Ht)
    as (_ & E).
  rewrite hsl_derive, Vu1, Vu2, Vu3 in E.
  apply (f_equal (fun c => PrimFloat.eqb c.(h) (num_of_Z 7))) in E.
  vm_compute in E. discriminate E.
Qed.


(* ================================================================== *)
(** ** The conversion tool prints what [parseColor] reads *)

Lemma decimals_all : forallb decimal_check (Zrange 361) = true.
Proof. vm_cast_no_check (@eq_refl bool true). Qed.

Lemma template_decimal (k : Z) :
  (0 <= k <= 360)%Z ->
  exists d : string,
    Convert.template_number (num_of_Z k) = Some d
    /\ is_decimal d = true /\ digits_value 10 d = k.
Proof.
  intros Hk. pose proof decimals_all as T. rewrite forallb_forall in T.
  specialize (T k (in_Zrange 361 k ltac:(simpl; lia))).
  unfold decimal_check in T.
  destruct (Convert.template_number (num_of_Z k)) as [d|]; [|discriminate T].
  apply andb_prop in T. destruct T as [Hd Hv]. apply Z.eqb_eq in Hv.
  exists d. now repeat split.
Qed.

Lemma parse_hash_hex6 (text : string) :
  is_hash_hex6 text = true ->
  parseColor text = Some (Return (hash_result text)).
Proof.
  destruct text as [|c0 rest]; [discriminate|].
  unfold is_hash_hex6.
  destruct (Ascii.eqb_spec c0 "#") as [->|Hne];
    [|now destruct c0 as [[] [] [] [] [] [] [] []]].
  intros H.
  now rewrite parseColor_branches, (trim_hash_hex6 rest H), startsWith_hash.
Qed.

Section Reparse.
Local Open Scope string_scope.





End Reparse.
